(** * scripts/common.py: image codecs and error metrics

    A shallow embedding of the image utilities of [scripts/common.py]:
    the sRGB transfer functions, the [.bin] half-float container, the
    alpha un-premultiplication of the raster writer, and the error
    metrics [compute_error_img] / [compute_error].

    NumPy arrays are records of a shape and a row-major data list.  The
    element type is a parameter ([Scalar]): the code is written once and read
    at two element types,
    - IEEE binary32 ([f32_scalar], on Stdlib's [spec_float]), the dtype of
      the images the scripts load, with NaN, infinities and signed zeros;
    - the real numbers ([R_scalar]), the exact-arithmetic reading of the
      same formulas, used only where a statement is about the algebra of a
      formula and not about rounding.
    Arrays that the caller owns live in a heap of locations, because
    [compute_error_img] writes into its first argument. *)

From Stdlib Require Import ZArith String Ascii Bool Lia.
From Stdlib Require Import Strings.Byte.
From Stdlib Require Import Reals Lra.
From Stdlib Require Import SpecFloat.
From Stdlib Require Import List.
From Stdlib Require Import Sorting.Permutation Sorting.Sorted.
Import ListNotations.

Set Implicit Arguments.

(** ** Python exceptions and results *)

Inductive exn : Type :=
| ValueError (msg : string)
| TypeError (msg : string)
| IndexError (msg : string)
| StructError (msg : string)
| OverflowError (msg : string)
| FileNotFoundError (path : string)
| CodecError (msg : string).

Inductive result (A : Type) : Type :=
| Ok (a : A)
| Raise (e : exn).

Arguments Ok {A} a.
Arguments Raise {A} e.

Definition bind {A B : Type} (r : result A) (k : A -> result B) : result B :=
  match r with
  | Ok a => k a
  | Raise e => Raise e
  end.

Notation "x <- e ;; k" := (bind e (fun x => k))
  (at level 61, e at next level, right associativity).


(** ** IEEE 754 values

    [spec_float] carries no format; the operations take the precision and
    the exponent bound.  binary16 is [prec = 11, emax = 16], binary32 is
    [24, 128], binary64 is [53, 1024]. *)

Definition SF_is_nan (x : spec_float) : bool :=
  match x with S754_nan => true | _ => false end.

(** [np.isfinite] *)
Definition SF_is_finite (x : spec_float) : bool :=
  match x with
  | S754_zero _ | S754_finite _ _ _ => true
  | S754_infinity _ | S754_nan => false
  end.

Definition SF_is_zero (x : spec_float) : bool :=
  match x with S754_zero _ => true | _ => false end.

(** An integer as a float of the given format, rounded to nearest even. *)
Definition SF_of_Z (prec emax : Z) (z : Z) : spec_float :=
  binary_normalize prec emax z 0 false.

(** Conversion of a float to the given format ([astype], or the cast of a
    Python scalar to the dtype of the array it meets). *)
Definition SF_cast (prec emax : Z) (x : spec_float) : spec_float :=
  match x with
  | S754_finite s m e => binary_round prec emax s m e
  | _ => x
  end.

(** Truncation toward zero, Python's [int(x)] on a float. *)
Definition SF_trunc (x : spec_float) : result Z :=
  match x with
  | S754_zero _ => Ok 0%Z
  | S754_finite s m e =>
      Ok (cond_Zopp s (match e with
                       | Zneg p => Z.pos m / 2 ^ Z.pos p
                       | _ => Z.pos m * 2 ^ e
                       end))%Z
  | S754_infinity _ => Raise (OverflowError "cannot convert float infinity to integer")
  | S754_nan => Raise (ValueError "cannot convert float NaN to integer")
  end.

(** ** Python float expressions

    The decimal literals of the source and the few operations the source
    performs on them before they meet an array ([1.0 / 2.4], [0.01**2]).
    [PyLit m k] is the literal [m * 10^-k]. *)

Inductive pyfloat : Type :=
| PyLit (m : Z) (k : nat)
| PyDiv (a b : pyfloat)
| PySquare (a : pyfloat).

(** Python evaluates them in binary64.  A literal with at most 15
    significant digits is the quotient of two exactly representable
    integers, so one correctly rounded division gives the literal's double. *)
Fixpoint py_eval (e : pyfloat) : spec_float :=
  match e with
  | PyLit m k => SFdiv 53 1024 (SF_of_Z 53 1024 m) (SF_of_Z 53 1024 (10 ^ Z.of_nat k))
  | PyDiv a b => SFdiv 53 1024 (py_eval a) (py_eval b)
  | PySquare a => SFmul 53 1024 (py_eval a) (py_eval a)
  end.

(** The same expressions in exact arithmetic. *)
Fixpoint py_real (e : pyfloat) : R :=
  match e with
  | PyLit m k => (IZR m / 10 ^ k)%R
  | PyDiv a b => (py_real a / py_real b)%R
  | PySquare a => (py_real a * py_real a)%R
  end.

(** ** Element types *)

Record Scalar (T : Type) : Type := {
  s_add : T -> T -> T;
  s_sub : T -> T -> T;
  s_mul : T -> T -> T;
  s_div : T -> T -> T;
  s_abs : T -> T;
  s_pow : T -> T -> T;            (* np.power *)
  s_lt : T -> T -> bool;          (* <, false when an operand is NaN *)
  s_le : T -> T -> bool;          (* <= *)
  s_eq : T -> T -> bool;          (* == *)
  s_isnan : T -> bool;
  s_isfinite : T -> bool;
  s_of_py : pyfloat -> T;         (* a Python scalar cast to the dtype *)
  s_of_count : nat -> T           (* an element count, as np.mean divides by it *)
}.

(** binary32.  [powf] is the C library's power function, which NumPy calls
    and whose results no standard fixes bit for bit: it stays a parameter. *)
Definition f32_scalar (powf : spec_float -> spec_float -> spec_float)
  : Scalar spec_float :=
  {| s_add := SFadd 24 128;
     s_sub := SFsub 24 128;
     s_mul := SFmul 24 128;
     s_div := SFdiv 24 128;
     s_abs := SFabs;
     s_pow := powf;
     s_lt := SFltb;
     s_le := SFleb;
     s_eq := SFeqb;
     s_isnan := SF_is_nan;
     s_isfinite := SF_is_finite;
     s_of_py := fun e => SF_cast 24 128 (py_eval e);
     s_of_count := fun n => SF_of_Z 24 128 (Z.of_nat n) |}.

Definition Rltb (a b : R) : bool := if Rlt_dec a b then true else false.
Definition Rleb (a b : R) : bool := if Rle_dec a b then true else false.
Definition Reqb (a b : R) : bool := if Req_dec_T a b then true else false.

(** [x ** y] on non-negative reals; [0 ** y] is 0 for the positive
    exponents the source uses, where [Rpower] would give 1. *)
Definition R_pow (x y : R) : R :=
  if Req_dec_T x 0 then 0%R else Rpower x y.

Definition R_scalar : Scalar R :=
  {| s_add := Rplus;
     s_sub := Rminus;
     s_mul := Rmult;
     s_div := Rdiv;
     s_abs := Rabs;
     s_pow := R_pow;
     s_lt := Rltb;
     s_le := Rleb;
     s_eq := Reqb;
     s_isnan := fun _ => false;
     s_isfinite := fun _ => true;
     s_of_py := py_real;
     s_of_count := INR |}.

(** ** NumPy arrays *)

Section NumPy.
Variable T : Type.
Variable S : Scalar T.

Definition lit (m : Z) (k : nat) : T := s_of_py S (PyLit m k).
Definition zero : T := lit 0 0.

Record ndarray : Type := { shape : list nat; data : list T }.

Definition size_of (sh : list nat) : nat := fold_right Nat.mul 1 sh.

  (** The data of an array has as many elements as its shape says. *)
Definition wf_array (a : ndarray) : Prop :=
    length (data a) = size_of (shape a).

Definition np_map (f : T -> T) (a : ndarray) : ndarray :=
    {| shape := shape a; data := map f (data a) |}.

Definition map2 (f : T -> T -> T) (l1 l2 : list T) : list T :=
    map (fun p => f (fst p) (snd p)) (combine l1 l2).

  (** *** Broadcasting

      Shapes are aligned on the right; a dimension of 1 stretches. *)
Fixpoint broadcast_rev (s1 s2 : list nat) : option (list nat) :=
    match s1, s2 with
    | [], s => Some s
    | s, [] => Some s
    | d1 :: r1, d2 :: r2 =>
        match broadcast_rev r1 r2 with
        | None => None
        | Some r =>
            if d1 =? d2 then Some (d1 :: r)
            else if d1 =? 1 then Some (d2 :: r)
            else if d2 =? 1 then Some (d1 :: r)
            else None
        end
    end.

Definition broadcast_shapes (s1 s2 : list nat) : option (list nat) :=
    option_map (@rev nat) (broadcast_rev (rev s1) (rev s2)).

  (** The flat index in an array of (reversed) shape [srev] of the element
      shown at flat index [p] of its broadcast to (reversed) shape [trev]. *)
Fixpoint src_index (trev srev : list nat) (p stride : nat) : nat :=
    match trev, srev with
    | t :: tr, s :: sr =>
        (if s =? 1 then 0 else p mod t) * stride
        + src_index tr sr (p / t) (stride * s)
    | _, _ => 0
    end.

Definition broadcast_to (a : ndarray) (t : list nat) : list T :=
    map (fun p => nth (src_index (rev t) (rev (shape a)) p 1) (data a) zero)
        (seq 0 (size_of t)).

Definition shape_eqb (s1 s2 : list nat) : bool :=
    if list_eq_dec Nat.eq_dec s1 s2 then true else false.

  (** A binary ufunc on two arrays. *)
Definition np_binop (f : T -> T -> T) (a b : ndarray) : result ndarray :=
    if shape_eqb (shape a) (shape b)
    then Ok {| shape := shape a; data := map2 f (data a) (data b) |}
    else match broadcast_shapes (shape a) (shape b) with
         | Some t =>
             Ok {| shape := t;
                   data := map2 f (broadcast_to a t) (broadcast_to b t) |}
         | None =>
             Raise (ValueError "operands could not be broadcast together")
         end.

Definition np_add := np_binop (s_add S).
Definition np_subtract := np_binop (s_sub S).
Definition np_multiply := np_binop (s_mul S).
Definition np_divide := np_binop (s_div S).

  (** [a ** 2]: NumPy computes a power with the scalar exponent 2 as a
      square. *)
Definition np_square (a : ndarray) : ndarray :=
    np_map (fun x => s_mul S x x) a.

Definition np_abs (a : ndarray) : ndarray := np_map (s_abs S) a.

  (** [np.maximum(x1, x2)], one element: [x1] when [x1 >= x2] or [x1] is
      NaN, else [x2]. *)
Definition maximum (x1 x2 : T) : T :=
    if s_le S x2 x1 || s_isnan S x1 then x1 else x2.

  (** [np.clip(x, lo, hi)], one element: NaN stays, else
      [min(max(x, lo), hi)] with [max(a, b) = a > b ? a : b] and
      [min(a, b) = a < b ? a : b]. *)
Definition clip (lo hi x : T) : T :=
    let y := if s_isnan S x then x else if s_lt S lo x then x else lo in
    if s_isnan S y then y else if s_lt S y hi then y else hi.

Definition np_clip (a : ndarray) (lo hi : T) : ndarray :=
    np_map (clip lo hi) a.

  (** [a[np.logical_not(np.isfinite(a))] = 0], as the new contents. *)
Definition zero_nonfinite (a : ndarray) : ndarray :=
    np_map (fun x => if negb (s_isfinite S x) then zero else x) a.

  (** *** Sums ([np.add.reduce] on a contiguous run of elements)

      NumPy adds floating-point elements pairwise.  Fewer than 8 elements
      are added one after the other to 0.  Up to 128 elements are added
      into eight running sums, element [i] into sum [i mod 8]; the eight are
      combined as a balanced tree and the [n mod 8] elements left over are
      added to the result one after the other.  A longer run is cut in two
      at [n/2] rounded down to a multiple of 8 and the sums of the halves
      are added. *)
Fixpoint block_rows (g : nat) (r l : list T) : list T * list T :=
    match g with
    | O => (r, l)
    | Datatypes.S g' =>
        block_rows g' (map2 (s_add S) r (firstn 8 l)) (skipn 8 l)
    end.

Definition tree8 (r : list T) : T :=
    match r with
    | [r0; r1; r2; r3; r4; r5; r6; r7] =>
        s_add S (s_add S (s_add S r0 r1) (s_add S r2 r3))
                (s_add S (s_add S r4 r5) (s_add S r6 r7))
    | _ => zero
    end.

Definition pairwise_block (l : list T) : T :=
    let (r, rest) := block_rows (length l / 8 - 1) (firstn 8 l) (skipn 8 l) in
    fold_left (s_add S) rest (tree8 r).

  (** [fuel] bounds the depth of the recursion; the length of the list is
      enough. *)
Fixpoint pairwise_sum (fuel : nat) (l : list T) : T :=
    let n := length l in
    if n <? 8 then fold_left (s_add S) l zero
    else if n <=? 128 then pairwise_block l
    else match fuel with
         | O => zero
         | Datatypes.S fuel' =>
             let n2 := n / 2 - (n / 2) mod 8 in
             s_add S (pairwise_sum fuel' (firstn n2 l))
                     (pairwise_sum fuel' (skipn n2 l))
         end.

  (** [np.sum] of a flat list: the reduction starts from the identity of
      the addition and adds the pairwise sum of the elements to it.  (Later
      NumPy releases start from -0.0 instead of 0.0, which changes nothing
      but the sign of a sum whose terms are all -0.0.) *)
Definition np_sum (l : list T) : T :=
    s_add S zero (pairwise_sum (length l) l).

  (** [np.mean] of a flat list: the sum over the count, both in the dtype
      of the array (0/0 when empty). *)
Definition mean_list (l : list T) : T :=
    s_div S (np_sum l) (s_of_count S (length l)).

  (** [np.mean(a, axis=2)] of a three-dimensional array. *)
Definition np_mean_axis2 (h w c : nat) (d : list T) : ndarray :=
    {| shape := [h; w];
       data := map (fun p => mean_list (firstn c (skipn (p * c) d)))
                   (seq 0 (h * w)) |}.

  (** [np.sort] of a flat list: ascending, NaN last. *)
Definition sorts_before (x y : T) : bool :=
    s_lt S x y || (s_isnan S y && negb (s_isnan S x)).

Fixpoint insert_sorted (x : T) (l : list T) : list T :=
    match l with
    | [] => [x]
    | y :: r => if sorts_before y x then y :: insert_sorted x r else x :: y :: r
    end.

Definition np_sort (l : list T) : list T :=
    fold_right insert_sorted [] l.

  (** Python's [l[lo:hi]]. *)
Definition py_bound (len : nat) (i : Z) : nat :=
    Z.to_nat (if (i <? 0)%Z then Z.max (i + Z.of_nat len) 0
              else Z.min i (Z.of_nat len)).

Definition py_slice (l : list T) (lo hi : Z) : list T :=
    let a := py_bound (length l) lo in
    let b := py_bound (length l) hi in
    firstn (b - a) (skipn a l).

  (** *** The heap of caller-owned arrays *)

Definition loc := nat.
Definition heap := list ndarray.

Definition load (h : heap) (l : loc) : option ndarray := nth_error h l.

Fixpoint store (h : heap) (l : loc) (a : ndarray) : heap :=
    match h, l with
    | [], _ => []
    | _ :: r, O => a :: r
    | x :: r, Datatypes.S l' => x :: store r l' a
    end.

  (** ** Colour space ([srgb_to_linear], [linear_to_srgb]) *)

(** The two expressions [np.where] chooses between, in each direction. *)
Definition srgb_power_branch (x : T) : T :=
  s_pow S (s_div S (s_add S x (lit 55 3)) (lit 1055 3)) (lit 24 1).

Definition srgb_linear_branch (x : T) : T := s_div S x (lit 1292 2).

Definition linear_power_branch (x : T) : T :=
  s_sub S
    (s_mul S (lit 1055 3)
       (s_pow S x (s_of_py S (PyDiv (PyLit 1 0) (PyLit 24 1)))))
    (lit 55 3).

Definition linear_linear_branch (x : T) : T := s_mul S (lit 1292 2) x.

Definition srgb_to_linear_elt (x : T) : T :=
  if s_lt S (lit 4045 5) x then srgb_power_branch x else srgb_linear_branch x.

Definition linear_to_srgb_elt (x : T) : T :=
  if s_lt S (lit 31308 7) x then linear_power_branch x else linear_linear_branch x.

Definition srgb_to_linear (img : ndarray) : ndarray :=
    np_map srgb_to_linear_elt img.

Definition linear_to_srgb (img : ndarray) : ndarray :=
    np_map linear_to_srgb_elt img.

  (** ** Alpha un-premultiplication ([write_image], raster branch)

      [np.divide(img[...,0:3], img[...,3:4], out=zeros, where=img[...,3:4] != 0)]
      written back into [img[...,0:3]] of a four-channel image: element [p]
      belongs to pixel [p / 4] and channel [p mod 4]. *)
Definition unmultiply_alpha (img : ndarray) : ndarray :=
    let d := data img in
    {| shape := shape img;
       data :=
         map (fun p =>
                if p mod 4 <? 3
                then let a := nth (p / 4 * 4 + 3) d zero in
                     if negb (s_eq S a zero)
                     then s_div S (nth p d zero) a
                     else zero
                else nth p d zero)
             (seq 0 (length d)) |}.

  (** ** Error metrics *)

Definition L1 (img ref : ndarray) : result ndarray :=
    d <- np_subtract img ref ;; Ok (np_abs d).

Definition APE (img ref : ndarray) : result ndarray :=
    n <- L1 img ref ;;
    np_divide n (np_map (s_add S (lit 1 2)) ref).

Definition SAPE (img ref : ndarray) : result ndarray :=
    n <- L1 img ref ;;
    s <- np_add ref img ;;
    np_divide n
      (np_map (fun x => s_add S (lit 1 2) (s_div S x (lit 2 0))) s).

Definition L2 (img ref : ndarray) : result ndarray :=
    d <- np_subtract img ref ;; Ok (np_square d).

Definition RSE (img ref : ndarray) : result ndarray :=
    n <- L2 img ref ;;
    np_divide n (np_map (s_add S (lit 1 2)) (np_square ref)).

  (** [trim]: the Python-level [int(skip * size)] is binary64 arithmetic
      whatever the dtype of the array. *)
Definition trim_skip (skip : pyfloat) (size : nat) : result Z :=
    SF_trunc (SFmul 53 1024 (py_eval skip) (SF_of_Z 53 1024 (Z.of_nat size))).

Definition trim (error : ndarray) (skip : pyfloat) : result T :=
    let sorted := np_sort (data error) in
    let size := length sorted in
    k <- trim_skip skip size ;;
    Ok (mean_list (py_slice sorted k (Z.of_nat size - k))).

  (** [a[:,:,i]] of a three-dimensional array. *)
Definition channel (a : ndarray) (i : nat) : result ndarray :=
    match shape a with
    | [h; w; c] =>
        if i <? c
        then Ok {| shape := [h; w];
                   data := map (fun p => nth (p * c + i) (data a) zero)
                               (seq 0 (h * w)) |}
        else Raise (IndexError "index is out of bounds for axis 2")
    | _ => Raise (IndexError "too many indices for array")
    end.

Definition luminance (a : ndarray) : result ndarray :=
    let a := np_map (fun x => s_pow S (maximum zero x) (lit 4545454545 10)) a in
    r <- channel a 0 ;;
    g <- channel a 1 ;;
    b <- channel a 2 ;;
    rg <- np_add (np_map (s_mul S (lit 2126 4)) r)
                 (np_map (s_mul S (lit 7152 4)) g) ;;
    np_add rg (np_map (s_mul S (lit 722 4)) b).

  (** [scipy.ndimage.convolve1d] with its default mode ['reflect'] on a
      two-dimensional array.  Index [p] of the extended line is element
      [reflect n p] of the line. *)
Definition reflect (n : nat) (p : Z) : nat :=
    let q := Z.to_nat (p mod (2 * Z.of_nat n)) in
    if q <? n then q else 2 * n - 1 - q.

  (** [acc + sum_j w[j] * x[p + j]], accumulated in index order.  SciPy
      adds the mirrored pairs of a symmetric kernel first; no statement below
      depends on the order of association. *)
Fixpoint correlate_at (w : list T) (x : Z -> T) (p : Z) (acc : T) : T :=
    match w with
    | [] => acc
    | wj :: r => correlate_at r x (p + 1) (s_add S acc (s_mul S wj (x p)))
    end.

  (** A convolution is the correlation with the reversed weights; the
      window of output [i] starts at [i - size/2], one further right for a
      kernel of even size. *)
Definition window_start (k : list T) (i : nat) : Z :=
    (Z.of_nat i - Z.of_nat (length k / 2)
     + (if Nat.even (length k) then 1 else 0))%Z.

Definition convolve_axis0 (h w : nat) (k d : list T) : list T :=
  map (fun p =>
         correlate_at (rev k)
           (fun q => nth (reflect h q * w + p mod w) d zero)
           (window_start k (p / w)) zero)
      (seq 0 (h * w)).

Definition convolve_axis1 (h w : nat) (k d : list T) : list T :=
  map (fun p =>
         correlate_at (rev k)
           (fun q => nth (p / w * w + reflect w q) d zero)
           (window_start k (p mod w)) zero)
      (seq 0 (h * w)).

Definition convolve1d (a : ndarray) (k : list T) (axis : nat)
  : result ndarray :=
  match shape a, axis with
  | [h; w], 0 =>
      Ok {| shape := [h; w]; data := convolve_axis0 h w k (data a) |}
  | [h; w], 1 =>
      Ok {| shape := [h; w]; data := convolve_axis1 h w k (data a) |}
  | _, _ => Raise (ValueError "convolve1d: only two-dimensional input")
  end.

Definition blur_kernel : list T :=
    [lit 120078 6; lit 233881 6; lit 292082 6; lit 233881 6; lit 120078 6].

Definition blur (a : ndarray) : result ndarray :=
    x <- convolve1d a blur_kernel 0 ;;
    convolve1d x blur_kernel 1.

Definition SSIM (a b : ndarray) : result ndarray :=
    a <- luminance a ;;
    b <- luminance b ;;
    mA <- blur a ;;
    mB <- blur b ;;
    aa <- np_multiply a a ;;
    baa <- blur aa ;;
    sA <- np_subtract baa (np_square mA) ;;
    bb <- np_multiply b b ;;
    bbb <- blur bb ;;
    sB <- np_subtract bbb (np_square mB) ;;
    ab <- np_multiply a b ;;
    bab <- blur ab ;;
    mAmB <- np_multiply mA mB ;;
    sAB <- np_subtract bab mAmB ;;
    let c1 := s_of_py S (PySquare (PyLit 1 2)) in
    let c2 := s_of_py S (PySquare (PyLit 3 2)) in
    n1 <- np_multiply (np_map (s_mul S (lit 2 0)) mA) mB ;;
    mAmA <- np_multiply mA mA ;;
    mBmB <- np_multiply mB mB ;;
    d1 <- np_add mAmA mBmB ;;
    p1 <- np_divide (np_map (fun x => s_add S x c1) n1)
                    (np_map (fun x => s_add S x c1) d1) ;;
    d2 <- np_add sA sB ;;
    p2 <- np_divide
            (np_map (fun x => s_add S (s_mul S (lit 2 0) x) c2) sAB)
            (np_map (fun x => s_add S x c2) d2) ;;
    np_multiply p1 p2.

  (** What [compute_error_img] returns: an array, or (for ["MtRSE"]) the
      NumPy scalar that [ndarray.mean()] produces. *)
Inductive value : Type :=
  | VArray (a : ndarray)
  | VScalar (x : T).

Definition as_array (r : result ndarray) : result value :=
    a <- r ;; Ok (VArray a).

  (** The dispatch on the metric name, on the rebound local [img] and the
      caller's [ref]. *)
Definition metric_dispatch (metric : string) (img ref : ndarray)
    : result value :=
    if String.eqb metric "MAE" then as_array (L1 img ref)
    else if String.eqb metric "MAPE" then as_array (APE img ref)
    else if String.eqb metric "SMAPE" then as_array (SAPE img ref)
    else if String.eqb metric "MSE" then as_array (L2 img ref)
    else if String.eqb metric "MScE" then
      as_array (L2 (np_clip img (lit 0 0) (lit 1 0))
                   (np_clip ref (lit 0 0) (lit 1 0)))
    else if String.eqb metric "MRSE" then as_array (RSE img ref)
    else if String.eqb metric "MtRSE" then
      e <- RSE img ref ;;
      x <- trim e (PyLit 1 6) ;;
      Ok (VScalar x)
    else if String.eqb metric "MRScE" then
      as_array (RSE (np_clip img (lit 0 0) (lit 100 0))
                    (np_clip ref (lit 0 0) (lit 100 0)))
    else if String.eqb metric "SSIM" then
      as_array (SSIM (np_clip img (lit 0 0) (lit 1 0))
                     (np_clip ref (lit 0 0) (lit 1 0)))
    else Raise (ValueError ("Unknown metric: " ++ metric ++ ".")).

  (** [compute_error_img(metric, img, ref)].  [img] and [ref] are references
      into the heap.  The first statement writes into the array [img] refers
      to; the second rebinds the local name to a fresh array; [ref] is read
      afterwards, so it sees the write when both name the same array. *)
Definition compute_error_img (metric : string) (img ref : loc) (h : heap)
    : result value * heap :=
    match load h img with
    | None => (Raise (TypeError "img is not an array"), h)
    | Some a =>
        let h1 := store h img (zero_nonfinite a) in
        let img1 := np_map (fun x => maximum x zero) (zero_nonfinite a) in
        match load h1 ref with
        | None => (Raise (TypeError "ref is not an array"), h1)
        | Some r => (metric_dispatch metric img1 r, h1)
        end
    end.

  (** [compute_error(metric, img, ref)]. *)
Definition compute_error (metric : string) (img ref : loc) (h : heap)
    : result T * heap :=
    let (r, h1) := compute_error_img metric img ref h in
    (v <- r ;;
     match v with
     | VScalar _ =>
         Raise (TypeError "'numpy.float32' object does not support item assignment")
     | VArray m =>
         let m1 := zero_nonfinite m in
         let m2 := match shape m1 with
                   | [hh; w; c] => np_mean_axis2 hh w c (data m1)
                   | _ => m1
                   end in
         Ok (mean_list (data m2))
     end, h1).

End NumPy.

Arguments VArray {T} a.
Arguments VScalar {T} x.

(** [np.reshape] to dimensions that fit a C [npy_intp].  The dimensions
    are read from the left: a negative one is the unknown dimension, of which
    there may be one; the others are multiplied, and a product of 2^63 or
    more is a size mismatch.  The unknown dimension is inferred from the
    size of the array. *)
Fixpoint fix_unknown_dimension (dims : list Z) (s_known : Z) (unknown : bool)
  : result (Z * bool) :=
  match dims with
  | [] => Ok (s_known, unknown)
  | z :: r =>
      if (z <? 0)%Z then
        if unknown
        then Raise (ValueError "can only specify one unknown dimension")
        else fix_unknown_dimension r s_known true
      else if (2 ^ 63 <=? s_known * z)%Z
      then Raise (ValueError "cannot reshape array")
      else fix_unknown_dimension r (s_known * z)%Z unknown
  end.

Section Reshape.
Variable T : Type.

Definition np_reshape (d : list T) (dims : list Z) : result (ndarray T) :=
    let len := Z.of_nat (length d) in
    ku <- fix_unknown_dimension dims 1 false ;;
    let (known, unknown) := ku in
    if unknown then
      if (known =? 0)%Z || negb (len mod known =? 0)%Z
      then Raise (ValueError "cannot reshape array")
      else Ok {| shape := map (fun z => if (z <? 0)%Z
                                        then Z.to_nat (len / known)
                                        else Z.to_nat z) dims;
                 data := d |}
    else
      if (known =? len)%Z
      then Ok {| shape := map Z.to_nat dims; data := d |}
      else Raise (ValueError "cannot reshape array").
End Reshape.

(** ** Bytes, [struct], and half-precision bit patterns *)

Definition byte_of_Z (z : Z) : byte :=
  match Byte.of_N (Z.to_N (z mod 256)) with
  | Some b => b
  | None => "000"%byte
  end.

Definition Z_of_byte (b : byte) : Z := Z.of_N (Byte.to_N b).

(** [n] bytes, least significant first. *)
Fixpoint le_bytes (n : nat) (z : Z) : list byte :=
  match n with
  | O => []
  | Datatypes.S n' => byte_of_Z z :: le_bytes n' (z / 256)
  end.

Fixpoint le_value (bs : list byte) : Z :=
  match bs with
  | [] => 0
  | b :: r => Z_of_byte b + 256 * le_value r
  end%Z.

Definition in_int32 (z : Z) : bool :=
  ((- 2 ^ 31 <=? z) && (z <? 2 ^ 31))%Z.

Definition to_int32 (u : Z) : Z :=
  (if u <? 2 ^ 31 then u else u - 2 ^ 32)%Z.

(** [struct.pack("ii", a, b)]: two native 32-bit signed integers. *)
Definition struct_pack_ii (a b : Z) : result (list byte) :=
  if in_int32 a && in_int32 b
  then Ok (le_bytes 4 (a mod 2 ^ 32) ++ le_bytes 4 (b mod 2 ^ 32))
  else Raise (StructError "argument out of range").

(** [struct.unpack("ii", bs)] *)
Definition struct_unpack_ii (bs : list byte) : result (Z * Z) :=
  if length bs =? 8
  then Ok (to_int32 (le_value (firstn 4 bs)), to_int32 (le_value (skipn 4 bs)))
  else Raise (StructError "unpack requires a buffer of 8 bytes").

Definition sign_bit (s : bool) : Z := if s then 32768%Z else 0%Z.

(** The 16 bits of a binary16 value: sign, 5 exponent bits, 10 fraction
    bits.  For a finite value [m * 2^e] in canonical form the biased exponent
    is [e + 25] with the leading bit of [m] implicit, or 0 for a subnormal
    ([e = -24], [m < 1024]); both are [(e + 24) * 1024 + m]. *)
Definition half_bits (x : spec_float) : Z :=
  match x with
  | S754_zero s => sign_bit s
  | S754_infinity s => sign_bit s + 31744
  | S754_nan => 32256
  | S754_finite s m e => sign_bit s + ((e + 24) * 1024 + Z.pos m) mod 32768
  end%Z.

Definition half_value (bits : Z) : spec_float :=
  let s := (32768 <=? bits mod 65536)%Z in
  let E := ((bits / 1024) mod 32)%Z in
  let M := (bits mod 1024)%Z in
  if (E =? 31)%Z then (if (M =? 0)%Z then S754_infinity s else S754_nan)
  else if (E =? 0)%Z then
    match M with
    | Zpos p => S754_finite s p (-24)
    | _ => S754_zero s
    end
  else
    match (M + 1024)%Z with
    | Zpos p => S754_finite s p (E - 25)
    | _ => S754_nan
    end.

(** [astype(np.float16)]: a float16 array element is kept as its bits. *)
Definition astype_float16 (x : spec_float) : Z := half_bits (SF_cast 11 16 x).

(** [astype(np.float32)] of a float16 element. *)
Definition half_to_float32 (bits : Z) : spec_float :=
  SF_cast 24 128 (half_value bits).

(** [tobytes()] of a float16 array. *)
Definition tobytes_f16 (l : list Z) : list byte := flat_map (le_bytes 2) l.

Fixpoint halves_of_bytes (bs : list byte) : list Z :=
  match bs with
  | b0 :: b1 :: r => (Z_of_byte b0 + 256 * Z_of_byte b1)%Z :: halves_of_bytes r
  | _ => []
  end.

(** [np.frombuffer(bs, dtype=np.float16, count=count, offset=offset)]: a
    negative count reads the whole buffer, which must then be a whole number
    of elements; a non-negative count must fit. *)
Definition np_frombuffer_f16 (bs : list byte) (count : Z) (offset : nat)
  : result (list Z) :=
  let ts := length bs in
  if ts <? offset
  then Raise (ValueError "offset must be non-negative and no greater than buffer length")
  else if (2 ^ 63 <=? count)%Z || (count <? - 2 ^ 63)%Z
  then Raise (OverflowError "Python int too large to convert to C ssize_t")
  else
    let s := ts - offset in
    if (count <? 0)%Z then
      if s mod 2 =? 0
      then Ok (halves_of_bytes (skipn offset bs))
      else Raise (ValueError "buffer size must be a multiple of element size")
    else if (Z.of_nat s <? 2 * count)%Z
    then Raise (ValueError "buffer is smaller than requested size")
    else Ok (halves_of_bytes (firstn (2 * Z.to_nat count) (skipn offset bs))).

(** ** Files *)

Definition filesystem := string -> option (list byte).

Definition fs_write (fs : filesystem) (path : string) (bs : list byte)
  : filesystem :=
  fun q => if String.eqb q path then Some bs else fs q.

(** The file at [path] becomes [o]: written, or removed when [o] is [None]. *)
Definition fs_set (fs : filesystem) (path : string) (o : option (list byte))
  : filesystem :=
  fun q => if String.eqb q path then o else fs q.

Definition fs_read (fs : filesystem) (path : string) : result (list byte) :=
  match fs path with
  | Some bs => Ok bs
  | None => Raise (FileNotFoundError path)
  end.

(** [os.path.splitext(p)[1]]: the extension starts at the last dot of the
    last path component, unless only dots precede it there. *)
Definition basename (l : list ascii) : list ascii :=
  fold_left (fun acc c => if Ascii.eqb c "/" then [] else acc ++ [c]) l [].

Fixpoint split_last_dot (l : list ascii) : option (list ascii * list ascii) :=
  match l with
  | [] => None
  | c :: r =>
      match split_last_dot r with
      | Some (p, s) => Some (c :: p, s)
      | None => if Ascii.eqb c "." then Some ([], c :: r) else None
      end
  end.

Definition splitext_ext (p : string) : string :=
  match split_last_dot (basename (list_ascii_of_string p)) with
  | Some (pre, suf) =>
      if forallb (fun c => Ascii.eqb c ".") pre then EmptyString
      else string_of_list_ascii suf
  | None => EmptyString
  end.

(** ** [read_image] and [write_image] on binary32 images *)

(** The libraries the scripts import for the other formats: [pyexr] and
    Pillow.  An 8-bit image is a shape and its byte values.

    A writer that raises may have opened its target already: Pillow's
    [Image.save] opens the file for writing, which truncates it, before the
    encoder runs, and removes it again only if it did not exist before.
    [exr_left] and [pil_left] give what a failed write leaves at the path,
    from what was there: the old file when the failure precedes the
    opening, else an empty or partial file, or none. *)
Record codecs : Type := {
  exr_read : list byte -> result (ndarray spec_float);
  exr_write : ndarray spec_float -> result (list byte);
  exr_left : ndarray spec_float -> option (list byte) -> option (list byte);
  pil_open : list byte -> bool -> result (list nat * list Z);
  pil_save : string -> bool -> list nat * list Z -> Z -> result (list byte);
  pil_left : string -> bool -> list nat * list Z -> Z ->
             option (list byte) -> option (list byte)
}.

Section Codec.
Variable powf : spec_float -> spec_float -> spec_float.
Variable cd : codecs.

Local Abbreviation F := (f32_scalar powf).

  (** [astype(np.uint8)]: truncation, modulo 256. *)
Definition to_uint8 (x : spec_float) : Z :=
    match SF_trunc x with
    | Ok z => (z mod 256)%Z
    | Raise _ => 0%Z
    end.

  (** An update of the colour channels [img[...,0:3]] of a four-channel
      image by a function of the element and of its pixel's alpha. *)
Definition on_rgb (f : spec_float -> spec_float -> spec_float)
      (img : ndarray spec_float) : ndarray spec_float :=
    let d := data img in
    {| shape := shape img;
       data := map (fun p => if p mod 4 <? 3
                             then f (nth p d (zero F)) (nth (p / 4 * 4 + 3) d (zero F))
                             else nth p d (zero F))
                   (seq 0 (length d)) |}.

  (** The same update on an array of more than three dimensions, where
      [img[...,0:3]] and [img[...,3:4]] slice the last axis, of extent [n]. *)
Definition on_last (n : nat) (f : spec_float -> spec_float -> spec_float)
      (img : ndarray spec_float) : ndarray spec_float :=
    let d := data img in
    {| shape := shape img;
       data := map (fun p => if p mod n <? 3
                             then f (nth p d (zero F)) (nth (p / n * n + 3) d (zero F))
                             else nth p d (zero F))
                   (seq 0 (length d)) |}.

  (** [PIL.Image.fromarray(img_array)], the conversion to RGB for a [.jpg]
      path, and [im.save(img_file, quality=quality, subsampling=0)]. *)
Definition pillow_save (img_file : string) (img_array : list nat * list Z)
      (quality : Z) (fs : filesystem) : result unit * filesystem :=
    let jpg := String.eqb (splitext_ext img_file) ".jpg" in
    match pil_save cd img_file jpg img_array quality with
    | Ok bs => (Ok tt, fs_write fs img_file bs)
    | Raise e =>
        (Raise e,
         fs_set fs img_file
           (pil_left cd img_file jpg img_array quality (fs img_file)))
    end.

Definition write_image_pillow (img_file : string) (img : ndarray spec_float)
      (quality : Z) (fs : filesystem) : result unit * filesystem :=
    let img_array :=
      (shape img,
       map (fun x => to_uint8
                       (s_add F (s_mul F (clip F (lit F 0 0) (lit F 1 0) x)
                                         (lit F 255 0))
                                (lit F 5 1)))
           (data img)) in
    pillow_save img_file img_array quality fs.

Definition read_image_pillow (img_file : string) (fs : filesystem)
    : result (ndarray spec_float) :=
    bs <- fs_read fs img_file ;;
    im <- pil_open cd bs (String.eqb (splitext_ext img_file) ".jpg") ;;
    Ok {| shape := fst im;
          data := map (fun v => s_div F (SF_of_Z 24 128 v) (lit F 255 0))
                      (snd im) |}.

  (** The [.bin] branch of [read_image], on the bytes of the file. *)
Definition read_bin (bytes : list byte) : result (ndarray spec_float) :=
    hw <- struct_unpack_ii (firstn 8 bytes) ;;
    let (h, w) := hw in
    halves <- np_frombuffer_f16 bytes (h * w * 4) 8 ;;
    np_reshape (map half_to_float32 halves) [h; w; 4%Z].

Definition read_image (file : string) (fs : filesystem)
    : result (ndarray spec_float) :=
    let ext := splitext_ext file in
    if String.eqb ext ".exr" then
      bs <- fs_read fs file ;; exr_read cd bs
    else if String.eqb ext ".bin" then
      bytes <- fs_read fs file ;; read_bin bytes
    else
      img <- read_image_pillow file fs ;;
      match shape img with
      | [_; _; c] =>
          if c =? 4
          then Ok (on_rgb (fun x a => s_mul F (srgb_to_linear_elt F x) a) img)
          else Ok (srgb_to_linear F img)
      | _ => Raise (IndexError "tuple index out of range")
      end.

  (** [np.dstack((img, np.ones([h, w, 4 - c])))]: the result is binary64. *)
Definition dstack_ones (h w c : nat) (d : list spec_float)
    : ndarray spec_float :=
    {| shape := [h; w; 4];
       data := flat_map (fun p => map (SF_cast 53 1024) (firstn c (skipn (p * c) d))
                                  ++ repeat (py_eval (PyLit 1 0)) (4 - c))
                        (seq 0 (h * w)) |}.

  (** The image the [.bin] branch of [write_image] serialises. *)
Definition bin_image (img : ndarray spec_float)
    : result (ndarray spec_float) :=
    match shape img with
    | [h; w; c] => if c <? 4 then Ok (dstack_ones h w c (data img)) else Ok img
    | _ :: _ :: c :: _ =>
        if c <? 4
        then Raise (ValueError "all the input array dimensions must match")
        else Ok img
    | _ => Raise (IndexError "tuple index out of range")
    end.

Definition write_image (file : string) (img : ndarray spec_float)
      (quality : Z) (fs : filesystem) : result unit * filesystem :=
    let ext := splitext_ext file in
    if String.eqb ext ".exr" then
      match exr_write cd img with
      | Ok bs => (Ok tt, fs_write fs file bs)
      | Raise e => (Raise e, fs_set fs file (exr_left cd img (fs file)))
      end
    else if String.eqb ext ".bin" then
      match bin_image img with
      | Raise e => (Raise e, fs)
      | Ok img4 =>
          (* the file is opened for writing before the header is packed *)
          match struct_pack_ii (Z.of_nat (nth 0 (shape img4) 0))
                               (Z.of_nat (nth 1 (shape img4) 0)) with
          | Raise e => (Raise e, fs_write fs file [])
          | Ok hdr =>
              (Ok tt,
               fs_write fs file
                 (hdr ++ tobytes_f16 (map astype_float16 (data img4))))
          end
      end
    else
      match shape img with
      | [_; _; c] =>
          let img1 :=
            if c =? 4
            then on_rgb (fun x _ => linear_to_srgb_elt F x) (unmultiply_alpha F img)
            else linear_to_srgb F img in
          write_image_pillow file img1 quality fs
      | _ :: _ :: c :: rest =>
          (* more than three dimensions: the slices are of the last axis,
             and [img[...,3:4]] of fewer than four elements does not
             broadcast against [img[...,0:3]] *)
          let n := last rest 0 in
          if c =? 4 then
            if (1 <=? n) && (n <=? 3)
            then (Raise (ValueError "operands could not be broadcast together"), fs)
            else
              write_image_pillow file
                (on_last n (fun x _ => linear_to_srgb_elt F x)
                   (on_last n (fun x a => if negb (s_eq F a (zero F))
                                          then s_div F x a else zero F) img))
                quality fs
          else write_image_pillow file (linear_to_srgb F img) quality fs
      | _ => (Raise (IndexError "tuple index out of range"), fs)
      end.
End Codec.

(** ** A reference power function

    The statements below hold for every [powf].  To run the model on
    concrete images one is needed: [powf_ref] follows C99 Annex F on the
    special values and computes [2^(y * log2 x)] in fixed point (64 fraction
    bits for the logarithm, 96 for the exponential) and rounds it to
    binary32. *)

(** [n] fraction bits of [log2 f] for [f] in [1, 2), given [F = f * 2^160]:
    square, and emit a 1 whenever the square reaches 2. *)
Fixpoint log2_bits (n : nat) (F acc : Z) : Z :=
  match n with
  | O => acc
  | Datatypes.S n' =>
      let F2 := (F * F / 2 ^ 160)%Z in
      if (2 ^ 161 <=? F2)%Z
      then log2_bits n' (F2 / 2)%Z (2 * acc + 1)%Z
      else log2_bits n' F2 (2 * acc)%Z
  end.

(** [log2 (m * 2^e) * 2^64], truncated. *)
Definition log2_fix (m : positive) (e : Z) : Z :=
  let d := Z.log2 (Z.pos m) in
  ((e + d) * 2 ^ 64 + log2_bits 64 (Z.pos m * 2 ^ 160 / 2 ^ d) 0)%Z.

Definition ln2_fix : Z := 54916777467707473351141471128%Z.   (* ln 2 * 2^96 *)

(** [exp u * 2^96] for [u = U / 2^96] in [0, ln 2), by the Taylor series. *)
Fixpoint exp_series (n : nat) (k : Z) (U term acc : Z) : Z :=
  match n with
  | O => acc
  | Datatypes.S n' =>
      let term' := (term * U / 2 ^ 96 / k)%Z in
      exp_series n' (k + 1)%Z U term' (acc + term')%Z
  end.

(** [x ** y] for [x = mx * 2^ex > 0] and [y = (-1)^sy * my * 2^ey]. *)
Definition pow_pos (mx : positive) (ex : Z) (sy : bool) (my : positive) (ey : Z)
  : spec_float :=
  let t := (cond_Zopp sy (Z.pos my) * log2_fix mx ex)%Z in   (* scaled by 2^(64-ey) *)
  let sh := (64 - ey)%Z in
  let n := (if 0 <=? sh then t / 2 ^ sh else t * 2 ^ (- sh))%Z in
  let r := (if 0 <=? sh
            then (if 64 <=? sh then (t mod 2 ^ sh) / 2 ^ (sh - 64)
                  else (t mod 2 ^ sh) * 2 ^ (64 - sh))
            else 0)%Z in
  if (1000 <? n)%Z then S754_infinity false
  else if (n <? -1000)%Z then S754_zero false
  else
    let U := (r * ln2_fix / 2 ^ 64)%Z in
    binary_normalize 24 128 (exp_series 40 1 U (2 ^ 96) (2 ^ 96))%Z (n - 96)%Z false.

Definition SF_is_integer (m : positive) (e : Z) : bool :=
  match e with
  | Zneg p => (Z.pos m mod 2 ^ Z.pos p =? 0)%Z
  | _ => true
  end.

Definition SF_is_odd (m : positive) (e : Z) : bool :=
  match e with
  | Zneg p => (Z.pos m mod 2 ^ Z.pos p =? 0)%Z && Z.odd (Z.pos m / 2 ^ Z.pos p)
  | Z0 => Z.odd (Z.pos m)
  | Zpos _ => false
  end.

Definition powf_ref (x y : spec_float) : spec_float :=
  let one := SF_of_Z 24 128 1 in
  match x, y with
  | _, S754_zero _ => one
  | S754_nan, _ => S754_nan
  | _, S754_nan => if SFeqb x one then one else S754_nan
  | S754_zero _, S754_infinity sy =>
      if sy then S754_infinity false else S754_zero false
  | S754_zero sx, S754_finite sy my ey =>
      let neg := sx && SF_is_odd my ey in
      if sy then S754_infinity neg else S754_zero neg
  | S754_infinity _, S754_infinity sy =>
      if sy then S754_zero false else S754_infinity false
  | S754_infinity sx, S754_finite sy my ey =>
      let neg := sx && SF_is_odd my ey in
      if sy then S754_zero neg else S754_infinity neg
  | S754_finite _ _ _, S754_infinity sy =>
      match SFcompare (SFabs x) one with
      | Some Lt => if sy then S754_infinity false else S754_zero false
      | Some Gt => if sy then S754_zero false else S754_infinity false
      | _ => one
      end
  | S754_finite sx mx ex, S754_finite sy my ey =>
      if SFeqb x one then one
      else if sx && negb (SF_is_integer my ey) then S754_nan
      else
        let r := pow_pos mx ex sy my ey in
        if sx && SF_is_odd my ey then SFopp r else r
  end.

(** An installation without [pyexr] and Pillow: both raise. *)
Definition no_codecs : codecs :=
  {| exr_read := fun _ => Raise (CodecError "pyexr is not available");
     exr_write := fun _ => Raise (CodecError "pyexr is not available");
     exr_left := fun _ old => old;
     pil_open := fun _ _ => Raise (CodecError "PIL is not available");
     pil_save := fun _ _ _ _ => Raise (CodecError "PIL is not available");
     pil_left := fun _ _ _ _ old => old |}.

Definition empty_fs : filesystem := fun _ => None.

(** ** The remaining functions of [scripts/common.py] *)

(** [mse2psnr(x) = -10.*np.log(x)/np.log(10.)], in exact arithmetic.  The
    reading is that of the code for [x > 0]: NumPy's logarithm of 0 is
    [-inf] and that of a negative number is NaN, where [ln] is 0. *)
Definition mse2psnr (x : R) : R := (-10 * ln x / ln 10)%R.

Section Reductions.
Variable T : Type.
Variable S : Scalar T.

(** [rgb_mean(img) = np.mean(img, axis=2)].  The element at flat index [i]
    of the result, with [r] the number of elements behind axis 2, averages
    the [d2] elements [(i / r * d2 + k) * r + i mod r] of the input. *)
Definition rgb_mean (img : ndarray T) : result (ndarray T) :=
  match shape img with
  | d0 :: d1 :: d2 :: rest =>
      let r := size_of rest in
      Ok {| shape := d0 :: d1 :: rest;
            data := map (fun i =>
                           mean_list S
                             (map (fun k => nth ((i / r * d2 + k) * r + i mod r)
                                                (data img) (zero S))
                                  (seq 0 d2)))
                        (seq 0 (d0 * d1 * r)) |}
  | [_; _] => Raise (ValueError "axis 2 is out of bounds for array of dimension 2")
  | [_] => Raise (ValueError "axis 2 is out of bounds for array of dimension 1")
  | [] => Raise (ValueError "axis 2 is out of bounds for array of dimension 0")
  end.

End Reductions.

(** [write_image_gamma] can raise one exception more than those of [exn]. *)
Inductive py_exn : Type :=
| Exn (e : exn)
| ZeroDivisionError (msg : string).

Inductive outcome (A : Type) : Type :=
| Done (a : A)
| Fail (e : py_exn).

Arguments Done {A} a.
Arguments Fail {A} e.

Definition lift {A : Type} (r : result A) : outcome A :=
  match r with
  | Ok a => Done a
  | Raise e => Fail (Exn e)
  end.

(** Python's [a / b] on two floats. *)
Definition py_truediv (a b : spec_float) : outcome spec_float :=
  if SFeqb b (S754_zero false)
  then Fail (ZeroDivisionError "float division by zero")
  else Done (SFdiv 53 1024 a b).

Section Gamma.
Variable powf : spec_float -> spec_float -> spec_float.
Variable cd : codecs.

(** [img ** e] for a binary32 array and a Python float: NumPy's choice of
    loop (square, square root, reciprocal or [powf]) and of result type
    depends on the value of [e] and on the NumPy release; it stays a
    parameter. *)
Variable np_power_scalar : ndarray spec_float -> spec_float -> ndarray spec_float.

(** [write_image_gamma(file, img, gamma, quality)], [gamma] a Python float. *)
Definition write_image_gamma (file : string) (img : ndarray spec_float)
    (gamma : spec_float) (quality : Z) (fs : filesystem)
  : outcome unit * filesystem :=
  if String.eqb (splitext_ext file) ".exr" then
    match exr_write cd img with
    | Ok bs => (Done tt, fs_write fs file bs)
    | Raise e => (Fail (Exn e), fs_set fs file (exr_left cd img (fs file)))
    end
  else
    match py_truediv (SF_of_Z 53 1024 1) gamma with
    | Fail e => (Fail e, fs)
    | Done e =>
        let (r, fs') :=
          write_image_pillow powf cd file (np_power_scalar img e) quality fs in
        (lift r, fs')
    end.

End Gamma.

(** ** Paths ([sanitize_path])

    A path is the list of its components, as [PurePath.parts] gives them
    (the root ["/"] first when the path is absolute); components are
    compared as on POSIX, case included. *)

(** [path.relative_to(root)]: the components of [path] behind those of
    [root], when [path] starts with all of them. *)
Fixpoint relative_to (path root : list string) : option (list string) :=
  match root, path with
  | [], _ => Some path
  | r :: root', p :: path' =>
      if String.eqb p r then relative_to path' root' else None
  | _ :: _, [] => None
  end.

(** [str(PurePosixPath(rel))] of a relative path: its components joined by
    ["/"], and ["."] for the empty path. *)
Definition posix_str (rel : list string) : string :=
  match rel with
  | [] => "."
  | _ => String.concat "/" rel
  end.

(** [sanitize_path(path)], with the module constant [ROOT_DIR]. *)
Definition sanitize_path (ROOT_DIR path : list string) : result string :=
  match relative_to path ROOT_DIR with
  | Some rel => Ok (posix_str rel)
  | None => Raise (ValueError "path is not in the subpath of ROOT_DIR")
  end.

(** ** Predicates of the statements *)

(** The sign bit of a float (NaN carries none here). *)
Definition SF_sign (x : spec_float) : bool :=
  match x with
  | S754_zero s | S754_infinity s | S754_finite s _ _ => s
  | S754_nan => false
  end.

(** A zero of either sign, or a value whose sign bit is clear, or NaN: not
    below zero. *)
Definition SF_nonneg (x : spec_float) : bool :=
  SF_is_zero x || negb (SF_sign x).

(** [x < 0] in IEEE comparison. *)
Definition SF_negative (x : spec_float) : bool := SFltb x (S754_zero false).

(** The order in which [np.sort] leaves the elements of an array: ascending
    in IEEE comparison, NaN last. *)
Definition ascending (x y : spec_float) : Prop :=
  SF_is_nan y = true \/ SFleb x y = true.

(** [np.maximum(x, 0.)] and [np.clip(x, 0, 1)] on one element. *)
Definition max0 (T : Type) (S : Scalar T) (x : T) : T := maximum S x (zero S).

(** The 8-bit sample [write_image_pillow] makes of an element:
    [(np.clip(x, 0.0, 1.0) * 255.0 + 0.5).astype(np.uint8)]. *)
Definition pillow_sample (powf : spec_float -> spec_float -> spec_float)
    (x : spec_float) : Z :=
  to_uint8 (s_add (f32_scalar powf)
              (s_mul (f32_scalar powf)
                 (clip (f32_scalar powf) (lit (f32_scalar powf) 0 0)
                       (lit (f32_scalar powf) 1 0) x)
                 (lit (f32_scalar powf) 255 0))
              (lit (f32_scalar powf) 5 1)).

(** The float [read_image_pillow] makes of an 8-bit sample. *)
Definition pillow_value (powf : spec_float -> spec_float -> spec_float)
    (v : Z) : spec_float :=
  s_div (f32_scalar powf) (SF_of_Z 24 128 v) (lit (f32_scalar powf) 255 0).

(** Not the error that names an unknown metric. *)
Definition other_error (e : exn) : bool :=
  match e with
  | ValueError (String "U" _) => false
  | _ => true
  end.

(** The seven metric names whose map [compute_error] averages per channel. *)
Definition elementwise_metrics : list string :=
  ["MAE"; "MAPE"; "SMAPE"; "MSE"; "MScE"; "MRSE"; "MRScE"]%string.

(** Those of them that clamp candidate and reference alike before the
    comparison, and those that read the reference as it is. *)
Definition clamping_metrics : list string := ["MScE"; "MRScE"]%string.
Definition plain_metrics : list string :=
  ["MAE"; "MAPE"; "SMAPE"; "MSE"; "MRSE"]%string.

(** The nine names [compute_error_img] knows. *)
Definition metric_names : list string :=
  ["MAE"; "MAPE"; "SMAPE"; "MSE"; "MScE"; "MRSE"; "MtRSE"; "MRScE"; "SSIM"]%string.

Unset Implicit Arguments.

(** * Facts about rounding *)

Lemma iter_pos_nat (A : Type) (f : A -> A) (n : positive) (x : A) :
  iter_pos f n x = Nat.iter (Pos.to_nat n) f x.
Proof.
  revert x. induction n as [n IH | n IH | ]; intros x.
  - change (iter_pos f n~1 x) with (iter_pos f n (iter_pos f n (f x))).
    rewrite !IH, Pos2Nat.inj_xI, Nat.iter_succ_r.
    replace (2 * Pos.to_nat n)%nat with (Pos.to_nat n + Pos.to_nat n)%nat by lia.
    now rewrite Nat.iter_add.
  - change (iter_pos f n~0 x) with (iter_pos f n (iter_pos f n x)).
    rewrite !IH, Pos2Nat.inj_xO.
    replace (2 * Pos.to_nat n)%nat with (Pos.to_nat n + Pos.to_nat n)%nat by lia.
    now rewrite Nat.iter_add.
  - reflexivity.
Qed.

Lemma shr_1_m (r : shr_record) :
  (0 <= shr_m r)%Z -> shr_m (shr_1 r) = (shr_m r / 2)%Z.
Proof.
  destruct r as [m r s]; simpl. intros H.
  destruct m as [ | [p | p | ] | p ]; simpl; try reflexivity; try lia.
  - rewrite Pos2Z.inj_xI. apply Z.div_unique with (r := 1%Z); lia.
  - rewrite Pos2Z.inj_xO. apply Z.div_unique with (r := 0%Z); lia.
Qed.

Lemma shr_iter_m (k : nat) (r : shr_record) :
  (0 <= shr_m r)%Z ->
  shr_m (Nat.iter k shr_1 r) = (shr_m r / 2 ^ Z.of_nat k)%Z.
Proof.
  intros H. induction k as [ | k IH].
  - simpl. now rewrite Z.div_1_r.
  - rewrite Nat.iter_succ, shr_1_m.
    + rewrite IH. rewrite Nat2Z.inj_succ, Z.pow_succ_r by lia.
      rewrite Z.div_div by lia. f_equal. lia.
    + rewrite IH. apply Z.div_pos; lia.
Qed.

Lemma digits2_size (p : positive) : digits2_pos p = Pos.size p.
Proof. induction p; simpl; congruence. Qed.

Lemma digits2_lower (p : positive) :
  (2 ^ (Z.pos (digits2_pos p) - 1) <= Z.pos p)%Z.
Proof.
  induction p as [p IH | p IH | ]; simpl digits2_pos.
  - rewrite Pos2Z.inj_succ. replace (Z.succ (Z.pos (digits2_pos p)) - 1)%Z with (Z.succ (Z.pos (digits2_pos p) - 1))%Z by lia.
    rewrite Z.pow_succ_r by lia. lia.
  - rewrite Pos2Z.inj_succ. replace (Z.succ (Z.pos (digits2_pos p)) - 1)%Z with (Z.succ (Z.pos (digits2_pos p) - 1))%Z by lia.
    rewrite Z.pow_succ_r by lia. lia.
  - simpl. lia.
Qed.

Section RoundFacts.
Variables prec emax : Z.
Hypothesis Hprec : (0 < prec)%Z.

Lemma shr_record_of_loc_m (m : Z) (l : location) :
  shr_m (shr_record_of_loc m l) = m.
Proof. destruct l as [ | [ | | ]]; reflexivity. Qed.

Lemma shr_m_value (r : shr_record) (e n : Z) :
  (0 <= shr_m r)%Z ->
  shr_m (fst (shr r e n)) = (shr_m r / 2 ^ Z.max n 0)%Z
  /\ snd (shr r e n) = (e + Z.max n 0)%Z.
Proof.
  intros H. destruct n as [ | p | p ]; simpl.
  - rewrite Z.div_1_r. split; [reflexivity | lia].
  - rewrite iter_pos_nat, shr_iter_m by assumption.
    rewrite positive_nat_Z. split; reflexivity.
  - rewrite Z.div_1_r. split; [reflexivity | lia].
Qed.

Lemma shr_fexp_nonneg (m e : Z) (l : location) :
  (0 <= m)%Z -> (0 <= shr_m (fst (shr_fexp prec emax m e l)))%Z.
Proof.
  intros H. unfold shr_fexp.
  destruct (shr_m_value (shr_record_of_loc m l) e
              (fexp prec emax (Zdigits2 m + e) - e)) as [E _].
  - now rewrite shr_record_of_loc_m.
  - rewrite E, shr_record_of_loc_m. apply Z.div_pos; [assumption | ].
    apply Z.pow_pos_nonneg; lia.
Qed.

Lemma shr_fexp_pos (m e : Z) (l : location) :
  (0 < m)%Z -> (emin prec emax <= e)%Z ->
  (0 < shr_m (fst (shr_fexp prec emax m e l)))%Z
  /\ (emin prec emax <= snd (shr_fexp prec emax m e l))%Z.
Proof.
  intros Hm He. unfold shr_fexp.
  set (n := (fexp prec emax (Zdigits2 m + e) - e)%Z).
  destruct (shr_m_value (shr_record_of_loc m l) e n) as [E1 E2].
  - rewrite shr_record_of_loc_m. lia.
  - rewrite E1, E2, shr_record_of_loc_m. split; [ | lia].
    destruct m as [ | p | p ]; try lia.
    destruct (Z.max_spec n 0) as [[Hn ->] | [Hn ->]].
    + rewrite Z.div_1_r. lia.
    + destruct (Z.eq_dec n 0) as [-> | Hn0]; [rewrite Z.div_1_r; lia | ].
      assert (Hd : n = (Z.pos (digits2_pos p) - prec)%Z).
      { subst n. unfold fexp in *. change (Zdigits2 (Z.pos p)) with (Z.pos (digits2_pos p)) in *. lia. }
      apply Z.div_str_pos. split; [apply Z.pow_pos_nonneg; lia | ].
      eapply Z.le_trans; [ | apply digits2_lower].
      apply Z.pow_le_mono_r; lia.
Qed.

Lemma round_nearest_even_ge (m : Z) (l : location) :
  (m <= round_nearest_even m l)%Z.
Proof.
  destruct l as [ | [ | | ]]; simpl; try lia.
  destruct (Z.even m); lia.
Qed.

(** The sign of a rounded result is the sign asked for. *)
Lemma binary_round_aux_sign (s : bool) (m e : Z) (l : location) :
  match binary_round_aux prec emax s m e l with
  | S754_zero s' | S754_infinity s' | S754_finite s' _ _ => s' = s
  | S754_nan => True
  end.
Proof.
  unfold binary_round_aux.
  destruct (shr_fexp prec emax m e l) as [mrs' e'].
  destruct (shr_fexp prec emax _ e' loc_Exact) as [mrs'' e''].
  destruct (shr_m mrs''); auto.
  destruct (e'' <=? emax - prec)%Z; reflexivity.
Qed.

(** Rounding a non-negative mantissa never gives NaN. *)
Lemma binary_round_aux_not_nan (s : bool) (m e : Z) (l : location) :
  (0 <= m)%Z -> SF_is_nan (binary_round_aux prec emax s m e l) = false.
Proof.
  intros Hm. unfold binary_round_aux.
  pose proof (shr_fexp_nonneg m e l Hm) as H1.
  destruct (shr_fexp prec emax m e l) as [mrs' e']. simpl in H1.
  pose proof (shr_fexp_nonneg (round_nearest_even (shr_m mrs') (loc_of_shr_record mrs')) e' loc_Exact) as H2.
  destruct (shr_fexp prec emax _ e' loc_Exact) as [mrs'' e'']. simpl in H2.
  assert (0 <= shr_m mrs'')%Z as H3.
  { apply H2. pose proof (round_nearest_even_ge (shr_m mrs') (loc_of_shr_record mrs')). lia. }
  destruct (shr_m mrs''); try reflexivity; try lia.
  destruct (e'' <=? emax - prec)%Z; reflexivity.
Qed.

(** Rounding a positive mantissa at an exponent of the format never gives
    zero: the result is finite or infinite, with the sign asked for. *)
Lemma binary_round_aux_pos (s : bool) (m e : Z) (l : location) :
  (0 < m)%Z -> (emin prec emax <= e)%Z ->
  match binary_round_aux prec emax s m e l with
  | S754_infinity s' | S754_finite s' _ _ => s' = s
  | _ => False
  end.
Proof.
  intros Hm He. unfold binary_round_aux.
  pose proof (shr_fexp_pos m e l Hm He) as [H1 H1'].
  destruct (shr_fexp prec emax m e l) as [mrs' e']. simpl in H1, H1'.
  pose proof (shr_fexp_pos (round_nearest_even (shr_m mrs') (loc_of_shr_record mrs')) e' loc_Exact) as H2.
  destruct (shr_fexp prec emax _ e' loc_Exact) as [mrs'' e'']. simpl in H2.
  destruct H2 as [H2 _]; [ | assumption | ].
  { pose proof (round_nearest_even_ge (shr_m mrs') (loc_of_shr_record mrs')). lia. }
  destruct (shr_m mrs''); try lia.
  destruct (e'' <=? emax - prec)%Z; reflexivity.
Qed.

End RoundFacts.

(** * Facts about the arithmetic operations *)

Section OpFacts.
Variables prec emax : Z.
Hypothesis Hprec : (0 < prec)%Z.

Lemma binary_round_sign (s : bool) (m : positive) (e : Z) :
  match binary_round prec emax s m e with
  | S754_zero s' | S754_infinity s' | S754_finite s' _ _ => s' = s
  | S754_nan => True
  end.
Proof.
  unfold binary_round.
  destruct (shl_align m e _) as [mz ez].
  apply binary_round_aux_sign.
Qed.

Lemma shl_align_exponent (m : positive) (e e' : Z) :
  (emin prec emax <= e)%Z -> (emin prec emax <= e')%Z ->
  (emin prec emax <= snd (shl_align m e e'))%Z.
Proof.
  intros H H'. unfold shl_align. destruct (e' - e)%Z; simpl; assumption.
Qed.

(** Rounding a positive number at an exponent of the format gives a
    positive float or an infinity, never zero or NaN. *)
Lemma binary_round_pos (s : bool) (m : positive) (e : Z) :
  (emin prec emax <= e)%Z ->
  match binary_round prec emax s m e with
  | S754_infinity s' | S754_finite s' _ _ => s' = s
  | _ => False
  end.
Proof.
  intros He. unfold binary_round.
  pose proof (shl_align_exponent m e (fexp prec emax (Z.pos (digits2_pos m) + e)) He) as H.
  destruct (shl_align m e _) as [mz ez]. simpl in H.
  apply binary_round_aux_pos; [assumption | lia | ].
  apply H. unfold fexp. lia.
Qed.

Lemma SF_sign_of_round (s : bool) (x : spec_float) :
  match x with
  | S754_zero s' | S754_infinity s' | S754_finite s' _ _ => s' = s
  | S754_nan => True
  end ->
  SF_sign x = s \/ x = S754_nan.
Proof. destruct x; simpl; auto. Qed.

(** Replaces the sign of a rounded result in the goal by the sign asked
    for, leaving the NaN case apart. *)
Ltac round_sign H :=
  match goal with
  | |- context [binary_round_aux ?p ?em ?s ?m ?e ?l] =>
      destruct (SF_sign_of_round s _ (binary_round_aux_sign p em s m e l))
        as [H | H]; rewrite H
  | |- context [binary_round ?p ?em ?s ?m ?e] =>
      destruct (SF_sign_of_round s _ (binary_round_sign s m e))
        as [H | H]; rewrite H
  end.

Lemma SFsub_diag (x : spec_float) :
  SF_is_finite x = true -> SFsub prec emax x x = S754_zero false.
Proof.
  destruct x as [s | s | | s m e]; simpl; intros H; try discriminate.
  - now destruct s.
  - now rewrite Z.sub_diag.
Qed.

Lemma SFabs_sign (x : spec_float) : SF_sign (SFabs x) = false.
Proof. now destruct x. Qed.

Lemma SFmul_self_sign (x : spec_float) :
  SF_sign (SFmul prec emax x x) = false.
Proof.
  destruct x as [s | s | | s m e]; simpl; try apply xorb_nilpotent; auto.
  round_sign H; [apply xorb_nilpotent | reflexivity].
Qed.

Lemma SFdiv_sign (n d : spec_float) :
  SF_sign n = false -> SF_sign d = false ->
  SF_sign (SFdiv prec emax n d) = false.
Proof.
  destruct n as [sn | sn | | sn mn en], d as [sd | sd | | sd md ed];
    simpl; intros Hn Hd; subst; try reflexivity.
  destruct (SFdiv_core_binary prec emax (Z.pos mn) en (Z.pos md) ed) as [[mz ez] lz].
  cbn [xorb]. round_sign H; reflexivity.
Qed.

(** A positive finite number plus a value that is not below zero has a
    clear sign bit. *)
Lemma SFadd_pos_nonneg (mc : positive) (ec : Z) (y : spec_float) :
  SF_nonneg y = true ->
  SF_sign (SFadd prec emax (S754_finite false mc ec) y) = false.
Proof.
  destruct y as [s | s | | s m e]; unfold SF_nonneg; simpl; try reflexivity.
  - now destruct s.
  - destruct s; [discriminate | intros _]. simpl.
    round_sign H; reflexivity.
Qed.

Lemma SFadd_nonneg (x y : spec_float) :
  SF_nonneg x = true -> SF_nonneg y = true ->
  SF_nonneg (SFadd prec emax x y) = true.
Proof.
  destruct x as [sx | sx | | sx mx ex], y as [sy | sy | | sy my ey];
    unfold SF_nonneg; simpl; try reflexivity;
    try (destruct sx; simpl; try discriminate);
    try (destruct sy; simpl; try discriminate); try reflexivity.
  intros _ _. simpl.
  round_sign H; [apply orb_true_r | reflexivity].
Qed.

(** A value not below zero divided by a positive finite number is not below
    zero. *)
Lemma SFdiv_nonneg_pos (x : spec_float) (md : positive) (ed : Z) :
  SF_nonneg x = true ->
  SF_nonneg (SFdiv prec emax x (S754_finite false md ed)) = true.
Proof.
  destruct x as [s | s | | s m e]; unfold SF_nonneg; simpl; try reflexivity.
  - destruct s; [discriminate | reflexivity].
  - destruct s; [discriminate | intros _].
    destruct (SFdiv_core_binary prec emax (Z.pos m) e (Z.pos md) ed) as [[mz ez] lz].
    cbn [xorb]. round_sign H; [apply orb_true_r | reflexivity].
Qed.

(** Zero divided by anything is a zero or NaN. *)
Lemma SFdiv_zero_l (s : bool) (d : spec_float) :
  SF_is_zero (SFdiv prec emax (S754_zero s) d) = true
  \/ SFdiv prec emax (S754_zero s) d = S754_nan.
Proof. destruct d; simpl; auto. Qed.

(** A finite number divided by a finite non-zero number is not NaN. *)
Lemma SFdiv_finite_not_nan (x y : spec_float) :
  SF_is_finite x = true -> SF_is_finite y = true -> SF_is_zero y = false ->
  SF_is_nan (SFdiv prec emax x y) = false.
Proof.
  destruct x as [sx | sx | | sx mx ex], y as [sy | sy | | sy my ey];
    simpl; try discriminate; try reflexivity.
  intros _ _ _. unfold SFdiv_core_binary.
  set (m' := match (ex - ey - _)%Z with Z0 => Z.pos mx | Z.pos _ => _ | Z.neg _ => 0%Z end).
  assert (Hm' : (0 <= m')%Z).
  { subst m'. destruct (ex - ey - _)%Z; try lia. apply Z.shiftl_nonneg. lia. }
  pose proof (Z.div_pos m' (Z.pos my) Hm' ltac:(lia)) as Hq.
  unfold Z.div in Hq.
  destruct (Z.div_eucl m' (Z.pos my)) as [q r]. simpl in Hq.
  now apply binary_round_aux_not_nan.
Qed.

End OpFacts.

(** * Facts about arrays and the heap *)

Section ArrayFacts.
Variable T : Type.
Variable S : Scalar T.

Lemma map2_In (f : T -> T -> T) (l1 l2 : list T) (z : T) :
  In z (map2 f l1 l2) -> exists x y, In x l1 /\ In y l2 /\ z = f x y.
Proof.
  unfold map2. rewrite in_map_iff. intros [[x y] [E H]].
  exists x, y. simpl in E.
  split; [eapply in_combine_l; eassumption | ].
  split; [eapply in_combine_r; eassumption | now symmetry].
Qed.

Lemma map2_diag (f : T -> T -> T) (l : list T) :
  map2 f l l = map (fun x => f x x) l.
Proof.
  unfold map2. induction l as [ | x l IH]; simpl; [reflexivity | now rewrite IH].
Qed.

Lemma map2_length (f : T -> T -> T) (l1 l2 : list T) :
  length l1 = length l2 -> length (map2 f l1 l2) = length l1.
Proof.
  intros H. unfold map2. rewrite length_map, length_combine. lia.
Qed.

Lemma broadcast_to_In (a : ndarray T) (t : list nat) (x : T) :
  In x (broadcast_to S a t) -> In x (data a) \/ x = zero S.
Proof.
  unfold broadcast_to. rewrite in_map_iff. intros [p [E _]]. subst x.
  destruct (nth_in_or_default (src_index (rev t) (rev (shape a)) p 1) (data a) (zero S));
    auto.
Qed.

Lemma shape_eqb_refl (s : list nat) : shape_eqb s s = true.
Proof. unfold shape_eqb. now destruct (list_eq_dec Nat.eq_dec s s). Qed.

Lemma shape_eqb_eq (s1 s2 : list nat) : shape_eqb s1 s2 = true -> s1 = s2.
Proof. unfold shape_eqb. now destruct (list_eq_dec Nat.eq_dec s1 s2). Qed.

(** A binary ufunc on arrays of one shape works element by element. *)
Lemma np_binop_same_shape (f : T -> T -> T) (a b : ndarray T) :
  shape a = shape b ->
  np_binop S f a b = Ok {| shape := shape a; data := map2 f (data a) (data b) |}.
Proof. intros H. unfold np_binop. now rewrite H, shape_eqb_refl. Qed.

(** Every element of the result of a binary ufunc is the function applied
    to an element of each operand, or to the filler of a broadcast. *)
Lemma np_binop_Forall (P Q R : T -> Prop) (f : T -> T -> T) (a b c : ndarray T) :
  (forall x y, P x -> Q y -> R (f x y)) ->
  P (zero S) -> Q (zero S) ->
  Forall P (data a) -> Forall Q (data b) ->
  np_binop S f a b = Ok c -> Forall R (data c).
Proof.
  intros Hf HP HQ Ha Hb. unfold np_binop.
  rewrite Forall_forall in Ha, Hb.
  destruct (shape_eqb (shape a) (shape b)).
  - intros E. inversion E; subst c; clear E. simpl.
    apply Forall_forall. intros z Hz.
    apply map2_In in Hz. destruct Hz as [x [y [Hx [Hy ->]]]]. auto.
  - destruct (broadcast_shapes (shape a) (shape b)) as [t | ]; [ | discriminate].
    intros E. inversion E; subst c; clear E. simpl.
    apply Forall_forall. intros z Hz.
    apply map2_In in Hz. destruct Hz as [x [y [Hx [Hy ->]]]].
    apply broadcast_to_In in Hx, Hy.
    apply Hf; [destruct Hx as [Hx | ->] | destruct Hy as [Hy | ->]]; auto.
Qed.

Lemma np_map_Forall (P Q : T -> Prop) (f : T -> T) (a : ndarray T) :
  (forall x, P x -> Q (f x)) -> Forall P (data a) -> Forall Q (data (np_map f a)).
Proof.
  intros Hf Ha. simpl. rewrite Forall_forall in *. intros z Hz.
  apply in_map_iff in Hz. destruct Hz as [x [<- Hx]]. auto.
Qed.

Lemma np_map_id (f : T -> T) (a : ndarray T) :
  Forall (fun x => f x = x) (data a) -> np_map f a = a.
Proof.
  intros H. destruct a as [sh d]. unfold np_map. simpl in *. f_equal.
  induction H as [ | x l Hx _ IH]; simpl; [reflexivity | now rewrite Hx, IH].
Qed.

Lemma np_map_map (f g : T -> T) (a : ndarray T) :
  np_map f (np_map g a) = np_map (fun x => f (g x)) a.
Proof. unfold np_map. simpl. now rewrite map_map. Qed.

Lemma np_map_ext (f g : T -> T) (a : ndarray T) :
  (forall x, f x = g x) -> np_map f a = np_map g a.
Proof. intros H. unfold np_map. f_equal. now apply map_ext. Qed.

Lemma load_store_same (h : heap T) (l : loc) (a b : ndarray T) :
  load h l = Some a -> load (store h l b) l = Some b.
Proof.
  unfold load. revert l. induction h as [ | x h IH]; intros [ | l]; simpl;
    try discriminate; auto.
Qed.

Lemma load_store_other (h : heap T) (l l' : loc) (b : ndarray T) :
  l <> l' -> load (store h l b) l' = load h l'.
Proof.
  unfold load. revert l l'. induction h as [ | x h IH]; intros [ | l] [ | l'] H;
    simpl; try reflexivity; try contradiction.
  apply IH. congruence.
Qed.

Lemma store_load_id (h : heap T) (l : loc) (a : ndarray T) :
  load h l = Some a -> store h l a = h.
Proof.
  unfold load. revert l. induction h as [ | x h IH]; intros [ | l]; simpl;
    try discriminate.
  - now intros [= ->].
  - intros H. now rewrite IH.
Qed.

(** *** Sums: what every partial sum has, the sum has *)

Lemma fold_left_closed (P : T -> Prop) (f : T -> T -> T) (l : list T) (x : T) :
  (forall a b, P a -> P b -> P (f a b)) ->
  P x -> Forall P l -> P (fold_left f l x).
Proof.
  intros Hf Hx Hl. revert x Hx.
  induction Hl as [ | y l Hy _ IH]; intros x Hx; cbn [fold_left]; auto.
Qed.

Lemma map2_Forall (P : T -> Prop) (f : T -> T -> T) (l1 l2 : list T) :
  (forall a b, P a -> P b -> P (f a b)) ->
  Forall P l1 -> Forall P l2 -> Forall P (map2 f l1 l2).
Proof.
  intros Hf H1 H2. rewrite Forall_forall in *. intros z Hz.
  apply map2_In in Hz. destruct Hz as [x [y [Hx [Hy ->]]]]. auto.
Qed.

Lemma Forall_firstn (P : T -> Prop) (n : nat) (l : list T) :
  Forall P l -> Forall P (firstn n l).
Proof.
  intros H. rewrite Forall_forall in *. intros x Hx. apply H.
  rewrite <- (firstn_skipn n l). apply in_or_app. now left.
Qed.

Lemma Forall_skipn (P : T -> Prop) (n : nat) (l : list T) :
  Forall P l -> Forall P (skipn n l).
Proof.
  intros H. rewrite Forall_forall in *. intros x Hx. apply H.
  rewrite <- (firstn_skipn n l). apply in_or_app. now right.
Qed.

Lemma block_rows_closed (P : T -> Prop) (g : nat) (r l : list T) :
  (forall a b, P a -> P b -> P (s_add S a b)) ->
  Forall P r -> Forall P l ->
  Forall P (fst (block_rows S g r l)) /\ Forall P (snd (block_rows S g r l)).
Proof.
  intros Hf. revert r l.
  induction g as [ | g IH]; intros r l Hr Hl; cbn [block_rows fst snd]; [now split | ].
  apply IH.
  - apply map2_Forall; auto using Forall_firstn.
  - now apply Forall_skipn.
Qed.

Lemma tree8_closed (P : T -> Prop) (r : list T) :
  (forall a b, P a -> P b -> P (s_add S a b)) ->
  P (zero S) -> Forall P r -> P (tree8 S r).
Proof.
  intros Hf H0 Hr. unfold tree8.
  repeat (destruct r as [ | ? r]; [assumption | ]).
  destruct r; [ | assumption].
  repeat match goal with H : Forall _ (_ :: _) |- _ => inversion H; subst; clear H end.
  auto 10.
Qed.

Lemma pairwise_sum_closed (P : T -> Prop) (fuel : nat) (l : list T) :
  (forall a b, P a -> P b -> P (s_add S a b)) ->
  P (zero S) -> Forall P l -> P (pairwise_sum S fuel l).
Proof.
  intros Hf H0. revert l.
  induction fuel as [ | fuel IH]; intros l Hl; cbn [pairwise_sum];
    (destruct (length l <? 8); [now apply fold_left_closed | ]);
    (destruct (length l <=? 128);
     [ unfold pairwise_block;
       destruct (block_rows_closed P (length l / 8 - 1) (firstn 8 l) (skipn 8 l) Hf
                   (Forall_firstn P 8 l Hl) (Forall_skipn P 8 l Hl)) as [Hr Hrest];
       destruct (block_rows S (length l / 8 - 1) (firstn 8 l) (skipn 8 l)) as [r rest];
       cbn [fst snd] in Hr, Hrest;
       apply fold_left_closed; [exact Hf | now apply tree8_closed | exact Hrest]
     | ]).
  - assumption.
  - apply Hf; apply IH; auto using Forall_firstn, Forall_skipn.
Qed.

(** A property of 0 that the addition keeps holds of every sum. *)
Lemma np_sum_closed (P : T -> Prop) (l : list T) :
  (forall a b, P a -> P b -> P (s_add S a b)) ->
  P (zero S) -> Forall P l -> P (np_sum S l).
Proof.
  intros Hf H0 Hl. unfold np_sum. apply Hf; [assumption | ].
  now apply pairwise_sum_closed.
Qed.

End ArrayFacts.

(** The dispatch on each known name. *)
Section Dispatch.
Variable T : Type.
Variable S : Scalar T.

Lemma bind_Ok (A B : Type) (r : result A) (k : A -> result B) (b : B) :
  bind r k = Ok b -> exists a, r = Ok a /\ k a = Ok b.
Proof. destruct r as [a | e]; simpl; [eauto | discriminate]. Qed.

Lemma as_array_Ok (r : result (ndarray T)) (m : ndarray T) :
  as_array r = Ok (VArray m) -> r = Ok m.
Proof. destruct r; simpl; [now intros [= ->] | discriminate]. Qed.

Lemma metric_dispatch_MAE (a b : ndarray T) :
  metric_dispatch S "MAE" a b = as_array (L1 S a b).
Proof. reflexivity. Qed.

Lemma metric_dispatch_MAPE (a b : ndarray T) :
  metric_dispatch S "MAPE" a b = as_array (APE S a b).
Proof. reflexivity. Qed.

Lemma metric_dispatch_SMAPE (a b : ndarray T) :
  metric_dispatch S "SMAPE" a b = as_array (SAPE S a b).
Proof. reflexivity. Qed.

Lemma metric_dispatch_MSE (a b : ndarray T) :
  metric_dispatch S "MSE" a b = as_array (L2 S a b).
Proof. reflexivity. Qed.

Lemma metric_dispatch_MScE (a b : ndarray T) :
  metric_dispatch S "MScE" a b
  = as_array (L2 S (np_clip S a (lit S 0 0) (lit S 1 0))
                   (np_clip S b (lit S 0 0) (lit S 1 0))).
Proof. reflexivity. Qed.

Lemma metric_dispatch_MRSE (a b : ndarray T) :
  metric_dispatch S "MRSE" a b = as_array (RSE S a b).
Proof. reflexivity. Qed.

Lemma metric_dispatch_MtRSE (a b : ndarray T) :
  metric_dispatch S "MtRSE" a b
  = (e <- RSE S a b ;; x <- trim S e (PyLit 1 6) ;; Ok (VScalar x)).
Proof. reflexivity. Qed.

Lemma metric_dispatch_MRScE (a b : ndarray T) :
  metric_dispatch S "MRScE" a b
  = as_array (RSE S (np_clip S a (lit S 0 0) (lit S 100 0))
                    (np_clip S b (lit S 0 0) (lit S 100 0))).
Proof. reflexivity. Qed.

Lemma metric_dispatch_SSIM (a b : ndarray T) :
  metric_dispatch S "SSIM" a b
  = as_array (SSIM S (np_clip S a (lit S 0 0) (lit S 1 0))
                     (np_clip S b (lit S 0 0) (lit S 1 0))).
Proof. reflexivity. Qed.

End Dispatch.

(** * binary32 images *)

Section Binary32.
Variable powf : spec_float -> spec_float -> spec_float.

Local Abbreviation F := (f32_scalar powf).

Lemma lit_0 : lit F 0 0 = S754_zero false.
Proof. vm_compute. reflexivity. Qed.

Lemma zero_F : zero F = S754_zero false.
Proof. vm_compute. reflexivity. Qed.

Lemma lit_1 : lit F 1 0 = S754_finite false 8388608 (-23).
Proof. vm_compute. reflexivity. Qed.

Lemma lit_2 : lit F 2 0 = S754_finite false 8388608 (-22).
Proof. vm_compute. reflexivity. Qed.

Lemma lit_100 : lit F 100 0 = S754_finite false 13107200 (-17).
Proof. vm_compute. reflexivity. Qed.

Lemma lit_1e_2 : lit F 1 2 = S754_finite false 10737418 (-30).
Proof. vm_compute. reflexivity. Qed.










(** ** Signs of the error maps *)

Lemma SF_negative_nonneg (x : spec_float) : SF_negative x = negb (SF_nonneg x).
Proof. destruct x as [s | s | | s m e]; try destruct s; reflexivity. Qed.

Lemma SF_sign_not_negative (x : spec_float) :
  SF_sign x = false -> SF_negative x = false.
Proof. destruct x as [s | s | | s m e]; simpl; intros H; subst; reflexivity. Qed.

Lemma SF_sign_nonneg (x : spec_float) : SF_sign x = false -> SF_nonneg x = true.
Proof. unfold SF_nonneg. intros ->. apply orb_true_r. Qed.

Lemma max0_nonneg (x : spec_float) : SF_nonneg (max0 F x) = true.
Proof.
  unfold max0, maximum. rewrite zero_F.
  destruct x as [s | s | | s m e]; try destruct s; reflexivity.
Qed.

Lemma zero_nonfinite_nonneg (x : spec_float) :
  SF_nonneg x = true ->
  SF_nonneg (if negb (s_isfinite F x) then zero F else x) = true.
Proof. destruct x as [s | s | | s m e]; simpl; auto. Qed.

Lemma L1_sign (a b m : ndarray spec_float) :
  L1 F a b = Ok m -> Forall (fun x => SF_sign x = false) (data m).
Proof.
  unfold L1. intros H. apply bind_Ok in H. destruct H as [d [_ [= <-]]].
  apply np_map_Forall with (P := fun _ => True).
  - intros x _. apply SFabs_sign.
  - apply Forall_forall. auto.
Qed.

Lemma np_square_sign (a : ndarray spec_float) :
  Forall (fun x => SF_sign x = false) (data (np_square F a)).
Proof.
  apply np_map_Forall with (P := fun _ => True).
  - intros x _. apply SFmul_self_sign.
  - apply Forall_forall. auto.
Qed.

Lemma L2_sign (a b m : ndarray spec_float) :
  L2 F a b = Ok m -> Forall (fun x => SF_sign x = false) (data m).
Proof.
  unfold L2. intros H. apply bind_Ok in H. destruct H as [d [_ [= <-]]].
  apply np_square_sign.
Qed.

(** A quotient of sign-clear arrays is sign-clear. *)
Lemma np_divide_sign (n d m : ndarray spec_float) :
  Forall (fun x => SF_sign x = false) (data n) ->
  Forall (fun x => SF_sign x = false) (data d) ->
  np_divide F n d = Ok m -> Forall (fun x => SF_sign x = false) (data m).
Proof.
  intros Hn Hd. apply np_binop_Forall with (P := fun x => SF_sign x = false)
                                           (Q := fun x => SF_sign x = false);
    try assumption; try (rewrite zero_F; reflexivity).
  intros x y. apply SFdiv_sign.
Qed.

Lemma add_1e_2_sign (y : spec_float) :
  SF_nonneg y = true -> SF_sign (s_add F (lit F 1 2) y) = false.
Proof. rewrite lit_1e_2. apply SFadd_pos_nonneg. Qed.

Lemma RSE_sign (a b m : ndarray spec_float) :
  RSE F a b = Ok m -> Forall (fun x => SF_sign x = false) (data m).
Proof.
  unfold RSE. intros H. apply bind_Ok in H. destruct H as [n [Hn H]].
  refine (np_divide_sign n _ m (L2_sign _ _ _ Hn) _ H).
  apply np_map_Forall with (P := fun x => SF_sign x = false); [ | apply np_square_sign].
  intros x Hx. apply add_1e_2_sign. now apply SF_sign_nonneg.
Qed.

Lemma APE_sign (a b m : ndarray spec_float) :
  Forall (fun x => SF_nonneg x = true) (data b) ->
  APE F a b = Ok m -> Forall (fun x => SF_sign x = false) (data m).
Proof.
  intros Hb. unfold APE. intros H. apply bind_Ok in H. destruct H as [n [Hn H]].
  refine (np_divide_sign n _ m (L1_sign _ _ _ Hn) _ H).
  apply np_map_Forall with (P := fun x => SF_nonneg x = true); [ | exact Hb].
  intros x Hx. now apply add_1e_2_sign.
Qed.

Lemma SAPE_sign (a b m : ndarray spec_float) :
  Forall (fun x => SF_nonneg x = true) (data a) ->
  Forall (fun x => SF_nonneg x = true) (data b) ->
  SAPE F a b = Ok m -> Forall (fun x => SF_sign x = false) (data m).
Proof.
  intros Ha Hb. unfold SAPE. intros H.
  apply bind_Ok in H. destruct H as [n [Hn H]].
  apply bind_Ok in H. destruct H as [s [Hs H]].
  refine (np_divide_sign n _ m (L1_sign _ _ _ Hn) _ H).
  apply np_map_Forall with (P := fun x => SF_nonneg x = true).
  - intros x Hx. apply add_1e_2_sign. rewrite lit_2.
    now apply SFdiv_nonneg_pos.
  - revert Hs. apply np_binop_Forall with (P := fun x => SF_nonneg x = true)
                                          (Q := fun x => SF_nonneg x = true);
      try assumption; try (rewrite zero_F; reflexivity).
    intros x y. apply SFadd_nonneg.
Qed.

(** What [ref] holds once the first statement has written into [img]. *)
Lemma load_after_write (h : heap spec_float) (l l' : loc) (a b r : ndarray spec_float) :
  load h l = Some a ->
  load (store h l b) l' = Some r ->
  (l' = l /\ r = b) \/ (l' <> l /\ load h l' = Some r).
Proof.
  intros Ha Hr. destruct (Nat.eq_dec l l') as [<- | Hne].
  - rewrite (load_store_same _ _ _ _ _ Ha) in Hr. left. split; congruence.
  - rewrite load_store_other in Hr by assumption. right. split; congruence.
Qed.

Lemma img1_nonneg (a : ndarray spec_float) :
  Forall (fun x => SF_nonneg x = true)
    (data (np_map (fun x => maximum F x (zero F)) (zero_nonfinite F a))).
Proof.
  apply np_map_Forall with (P := fun _ => True).
  - intros x _. apply max0_nonneg.
  - apply Forall_forall. auto.
Qed.

Lemma ref_nonneg (h : heap spec_float) (img ref : loc) (a r : ndarray spec_float) :
  (forall r0, load h ref = Some r0 ->
              Forall (fun x => SF_negative x = false) (data r0)) ->
  load h img = Some a ->
  load (store h img (zero_nonfinite F a)) ref = Some r ->
  Forall (fun x => SF_nonneg x = true) (data r).
Proof.
  intros Href Ha Hr.
  assert (Hconv : forall r0, Forall (fun x => SF_negative x = false) (data r0) ->
                             Forall (fun x => SF_nonneg x = true) (data r0)).
  { intros r0. apply Forall_impl. intros x Hx.
    rewrite SF_negative_nonneg in Hx. now destruct (SF_nonneg x). }
  destruct (load_after_write _ _ _ _ _ _ Ha Hr) as [[-> ->] | [_ Hr']].
  - apply np_map_Forall with (P := fun x => SF_nonneg x = true).
    + exact zero_nonfinite_nonneg.
    + apply Hconv, Href, Ha.
  - apply Hconv, Href, Hr'.
Qed.

(** C9, as amended.  For the metrics MAE, MSE, MScE, MRSE and MRScE and
    every pair of arrays, no entry of the map [compute_error_img] returns
    is below zero (each is a zero, positive, or NaN); for MAPE and SMAPE
    the same holds when no entry of the reference is below zero. *)
Theorem error_map_not_negative
    (metric : string) (img ref : loc) (h : heap spec_float)
    (m : ndarray spec_float) :
  In metric ["MAE"; "MSE"; "MScE"; "MRSE"; "MRScE"]%string
  \/ (In metric ["MAPE"; "SMAPE"]%string
      /\ forall r, load h ref = Some r ->
                   Forall (fun x => SF_negative x = false) (data r)) ->
  fst (compute_error_img F metric img ref h) = Ok (VArray m) ->
  Forall (fun x => SF_negative x = false) (data m).
Proof.
  intros Hmetric. unfold compute_error_img.
  destruct (load h img) as [a | ] eqn:Ha; [ | discriminate].
  destruct (load (store h img (zero_nonfinite F a)) ref) as [r | ] eqn:Hr;
    [ | discriminate].
  cbn [fst]. intros Hm.
  apply Forall_impl with (P := fun x => SF_sign x = false);
    [exact SF_sign_not_negative | ].
  destruct Hmetric as [Hin | [Hin Href]]; simpl in Hin.
  - destruct Hin as [<- | [<- | [<- | [<- | [<- | []]]]]].
    + rewrite metric_dispatch_MAE in Hm. apply as_array_Ok in Hm.
      eapply L1_sign; eassumption.
    + rewrite metric_dispatch_MSE in Hm. apply as_array_Ok in Hm.
      eapply L2_sign; eassumption.
    + rewrite metric_dispatch_MScE in Hm. apply as_array_Ok in Hm.
      eapply L2_sign; eassumption.
    + rewrite metric_dispatch_MRSE in Hm. apply as_array_Ok in Hm.
      eapply RSE_sign; eassumption.
    + rewrite metric_dispatch_MRScE in Hm. apply as_array_Ok in Hm.
      eapply RSE_sign; eassumption.
  - pose proof (ref_nonneg _ _ _ _ _ Href Ha Hr) as Hrn.
    destruct Hin as [<- | [<- | []]].
    + rewrite metric_dispatch_MAPE in Hm. apply as_array_Ok in Hm.
      eapply APE_sign; eassumption.
    + rewrite metric_dispatch_SMAPE in Hm. apply as_array_Ok in Hm.
      eapply SAPE_sign; [ | | eassumption]; [apply img1_nonneg | exact Hrn].
Qed.

(** ** An image against itself *)

Lemma SF_of_Z_pos (z : Z) :
  (0 < z)%Z ->
  match SF_of_Z 24 128 z with
  | S754_infinity s | S754_finite s _ _ => s = false
  | _ => False
  end.
Proof.
  intros Hz. destruct z as [ | p | p ]; try lia.
  unfold SF_of_Z, binary_normalize.
  apply binary_round_pos; [lia | ]. unfold emin. lia.
Qed.

Lemma SFdiv_zero_count (x : spec_float) (n : nat) :
  SF_is_zero x = true -> (0 < n)%nat ->
  SF_is_zero (SFdiv 24 128 x (s_of_count F n)) = true.
Proof.
  intros Hx Hn. simpl. pose proof (SF_of_Z_pos (Z.of_nat n) ltac:(lia)) as H.
  destruct x; try discriminate.
  destruct (SF_of_Z 24 128 (Z.of_nat n)); try contradiction; reflexivity.
Qed.

Lemma SFadd_zero_zero (x y : spec_float) :
  SF_is_zero x = true -> SF_is_zero y = true ->
  SF_is_zero (SFadd 24 128 x y) = true.
Proof.
  destruct x as [sx | | | ], y as [sy | | | ]; try discriminate.
  intros _ _. destruct sx, sy; reflexivity.
Qed.

(** The mean of a non-empty list of zeros is a zero. *)
Lemma mean_list_zeros (l : list spec_float) :
  l <> [] -> Forall (fun y => SF_is_zero y = true) l ->
  SF_is_zero (mean_list F l) = true.
Proof.
  intros Hne Hl. unfold mean_list. apply SFdiv_zero_count.
  - apply (np_sum_closed spec_float F (fun y => SF_is_zero y = true));
      [exact SFadd_zero_zero | reflexivity | exact Hl].
  - destruct l; [contradiction | simpl; lia].
Qed.

Lemma chunk_length (A : Type) (d : list A) (n c p : nat) :
  length d = n * c -> (p < n)%nat -> length (firstn c (skipn (p * c) d)) = c.
Proof.
  intros Hd Hp. rewrite length_firstn, length_skipn. nia.
Qed.

Lemma Forall_chunk (A : Type) (P : A -> Prop) (d : list A) (c k : nat) :
  Forall P d -> Forall P (firstn c (skipn k d)).
Proof.
  intros H. rewrite Forall_forall in *. intros x Hx.
  apply H. rewrite <- (firstn_skipn k d). apply in_or_app. right.
  rewrite <- (firstn_skipn c (skipn k d)). apply in_or_app. now left.
Qed.

(** [compute_error]'s reduction of a map of zeros and NaNs is a zero. *)
Lemma reduce_zero_map (m : ndarray spec_float) (hh w c : nat) :
  shape m = [hh; w; c] -> (0 < hh)%nat -> (0 < w)%nat -> (0 < c)%nat ->
  length (data m) = hh * w * c ->
  Forall (fun x => SF_is_zero x = true \/ x = S754_nan) (data m) ->
  let m1 := zero_nonfinite F m in
  let m2 := match shape m1 with
            | [hh; w; c] => np_mean_axis2 F hh w c (data m1)
            | _ => m1
            end in
  SF_is_zero (mean_list F (data m2)) = true.
Proof.
  intros Hs Hh Hw Hc Hlen Hz. cbn zeta.
  assert (Hz1 : Forall (fun x => SF_is_zero x = true) (data (zero_nonfinite F m))).
  { apply np_map_Forall with (P := fun x => SF_is_zero x = true \/ x = S754_nan);
      [ | exact Hz].
    intros x [Hx | ->]; [ | reflexivity].
    destruct x; try discriminate. reflexivity. }
  assert (Hlen1 : length (data (zero_nonfinite F m)) = hh * w * c).
  { simpl. now rewrite length_map. }
  change (shape (zero_nonfinite F m)) with (shape m). rewrite Hs.
  apply mean_list_zeros.
  - unfold np_mean_axis2. cbn [data].
    destruct (hh * w) eqn:E; [nia | ]. simpl. discriminate.
  - unfold np_mean_axis2. cbn [data]. apply Forall_forall. intros x Hx.
    apply in_map_iff in Hx. destruct Hx as [p [<- Hp]].
    apply in_seq in Hp.
    apply mean_list_zeros.
    + intros E. apply (f_equal (@length _)) in E.
      rewrite (chunk_length _ _ (hh * w) c p Hlen1 ltac:(lia)) in E.
      simpl in E. lia.
    + apply Forall_chunk. exact Hz1.
Qed.

Lemma clip_cases (lo hi x : spec_float) :
  clip F lo hi x = x \/ clip F lo hi x = lo \/ clip F lo hi x = hi.
Proof.
  unfold clip.
  destruct (s_isnan F x); [destruct (s_isnan F x); auto; destruct (s_lt F x hi); auto | ].
  destruct (s_lt F lo x).
  - destruct (s_isnan F x); auto. destruct (s_lt F x hi); auto.
  - destruct (s_isnan F lo); auto. destruct (s_lt F lo hi); auto.
Qed.

Lemma np_clip_finite (a : ndarray spec_float) (lo hi : spec_float) :
  SF_is_finite lo = true -> SF_is_finite hi = true ->
  Forall (fun x => SF_is_finite x = true) (data a) ->
  Forall (fun x => SF_is_finite x = true) (data (np_clip F a lo hi)).
Proof.
  intros Hlo Hhi. apply np_map_Forall. intros x Hx.
  destruct (clip_cases lo hi x) as [-> | [-> | ->]]; assumption.
Qed.

(** [x - x] is [+0] on finite values, so [L1(a, a)] and [L2(a, a)] are
    maps of [+0]. *)
Lemma L1_self (a : ndarray spec_float) :
  Forall (fun x => SF_is_finite x = true) (data a) ->
  exists m, L1 F a a = Ok m /\ shape m = shape a
            /\ length (data m) = length (data a)
            /\ Forall (fun x => x = S754_zero false) (data m).
Proof.
  intros Hfin. unfold L1, np_subtract.
  rewrite np_binop_same_shape by reflexivity. cbn [bind].
  eexists. split; [reflexivity | ]. split; [reflexivity | ].
  cbn [np_abs np_map data shape]. rewrite map2_diag, map_map.
  split; [apply length_map | ].
  rewrite Forall_forall in *. intros z Hz.
  apply in_map_iff in Hz. destruct Hz as [x [<- Hx]].
  cbn [s_sub s_abs f32_scalar]. now rewrite SFsub_diag by auto.
Qed.

Lemma L2_self (a : ndarray spec_float) :
  Forall (fun x => SF_is_finite x = true) (data a) ->
  exists m, L2 F a a = Ok m /\ shape m = shape a
            /\ length (data m) = length (data a)
            /\ Forall (fun x => x = S754_zero false) (data m).
Proof.
  intros Hfin. unfold L2, np_subtract.
  rewrite np_binop_same_shape by reflexivity. cbn [bind].
  eexists. split; [reflexivity | ]. split; [reflexivity | ].
  cbn [np_square np_map data shape]. rewrite map2_diag, map_map.
  split; [apply length_map | ].
  rewrite Forall_forall in *. intros z Hz.
  apply in_map_iff in Hz. destruct Hz as [x [<- Hx]].
  cbn [s_sub s_mul f32_scalar]. now rewrite SFsub_diag by auto.
Qed.

(** A map of [+0] divided by an array of its shape is a map of zeros and
    NaNs. *)
Lemma np_divide_zero_map (n d : ndarray spec_float) :
  shape n = shape d -> length (data n) = length (data d) ->
  Forall (fun x => x = S754_zero false) (data n) ->
  exists m, np_divide F n d = Ok m /\ shape m = shape n
            /\ length (data m) = length (data n)
            /\ Forall (fun x => SF_is_zero x = true \/ x = S754_nan) (data m).
Proof.
  intros Hs Hl Hn. unfold np_divide. rewrite np_binop_same_shape by assumption.
  eexists. split; [reflexivity | ]. split; [reflexivity | ].
  cbn [data]. split; [now apply map2_length | ].
  rewrite Forall_forall in *. intros z Hz.
  apply map2_In in Hz. destruct Hz as [x [y [Hx [_ ->]]]].
  rewrite (Hn x Hx). apply SFdiv_zero_l.
Qed.

Lemma Forall_zero_weaken (l : list spec_float) :
  Forall (fun x => x = S754_zero false) l ->
  Forall (fun x => SF_is_zero x = true \/ x = S754_nan) l.
Proof. apply Forall_impl. intros x ->. now left. Qed.

(** Each of the seven metrics, on an array of finite values against itself,
    is a map of zeros and NaNs of the same shape. *)
Lemma metric_self_zero_map (metric : string) (a : ndarray spec_float) :
  In metric elementwise_metrics ->
  Forall (fun x => SF_is_finite x = true) (data a) ->
  exists m, metric_dispatch F metric a a = Ok (VArray m)
            /\ shape m = shape a
            /\ length (data m) = length (data a)
            /\ Forall (fun x => SF_is_zero x = true \/ x = S754_nan) (data m).
Proof.
  intros Hin Hfin. simpl in Hin.
  destruct Hin as [<- | [<- | [<- | [<- | [<- | [<- | [<- | []]]]]]]].
  - rewrite metric_dispatch_MAE.
    destruct (L1_self a Hfin) as [m [E [Hs [Hl Hz]]]]. rewrite E.
    exists m. auto using Forall_zero_weaken.
  - rewrite metric_dispatch_MAPE. unfold APE.
    destruct (L1_self a Hfin) as [n [E [Hs [Hl Hz]]]]. rewrite E. cbn [bind].
    destruct (np_divide_zero_map n (np_map (s_add F (lit F 1 2)) a))
      as [m [E' [Hs' [Hl' Hz']]]]; try assumption.
    { cbn [np_map data]. now rewrite length_map. }
    rewrite E'. exists m. repeat split; try congruence; assumption.
  - rewrite metric_dispatch_SMAPE. unfold SAPE.
    destruct (L1_self a Hfin) as [n [E [Hs [Hl Hz]]]]. rewrite E. cbn [bind].
    unfold np_add. rewrite np_binop_same_shape by reflexivity. cbn [bind].
    match goal with |- context [np_divide F n ?d] =>
      destruct (np_divide_zero_map n d) as [m [E' [Hs' [Hl' Hz']]]];
        try assumption
    end.
    { cbn [np_map data]. rewrite length_map, map2_length by reflexivity. exact Hl. }
    rewrite E'. exists m. repeat split; try congruence; assumption.
  - rewrite metric_dispatch_MSE.
    destruct (L2_self a Hfin) as [m [E [Hs [Hl Hz]]]]. rewrite E.
    exists m. auto using Forall_zero_weaken.
  - rewrite metric_dispatch_MScE.
    destruct (L2_self (np_clip F a (lit F 0 0) (lit F 1 0))) as [m [E [Hs [Hl Hz]]]].
    { apply np_clip_finite; try assumption; [rewrite lit_0 | rewrite lit_1]; reflexivity. }
    rewrite E. exists m. cbn [np_clip np_map data shape] in *.
    rewrite length_map in Hl. auto using Forall_zero_weaken.
  - rewrite metric_dispatch_MRSE. unfold RSE.
    destruct (L2_self a Hfin) as [n [E [Hs [Hl Hz]]]]. rewrite E. cbn [bind].
    destruct (np_divide_zero_map n (np_map (s_add F (lit F 1 2)) (np_square F a)))
      as [m [E' [Hs' [Hl' Hz']]]]; try assumption.
    { cbn [np_square np_map data]. now rewrite !length_map. }
    rewrite E'. exists m. repeat split; try congruence; assumption.
  - rewrite metric_dispatch_MRScE. unfold RSE.
    set (c := np_clip F a (lit F 0 0) (lit F 100 0)).
    destruct (L2_self c) as [n [E [Hs [Hl Hz]]]].
    { apply np_clip_finite; try assumption; [rewrite lit_0 | rewrite lit_100]; reflexivity. }
    rewrite E. cbn [bind].
    destruct (np_divide_zero_map n (np_map (s_add F (lit F 1 2)) (np_square F c)))
      as [m [E' [Hs' [Hl' Hz']]]]; try assumption.
    { cbn [np_square np_map data]. now rewrite !length_map. }
    rewrite E'. exists m. subst c. cbn [np_clip np_map data shape] in *.
    rewrite length_map in Hl. repeat split; try congruence; assumption.
Qed.

Lemma sanitized_entry (x : spec_float) :
  (SF_is_finite x = true -> SF_negative x = false) ->
  let y := if negb (s_isfinite F x) then zero F else x in
  SF_is_finite y = true /\ maximum F y (zero F) = y.
Proof.
  unfold maximum. rewrite zero_F.
  destruct x as [s | s | | s m e]; simpl; intros H; auto.
  destruct s; [specialize (H eq_refl); discriminate | auto].
Qed.

Lemma zero_nonfinite_all_finite (a : ndarray spec_float) :
  Forall (fun x => SF_is_finite x = true) (data (zero_nonfinite F a)).
Proof.
  unfold zero_nonfinite. apply np_map_Forall with (P := fun _ => True).
  - intros x _. cbn [s_isfinite f32_scalar]. rewrite zero_F.
    now destruct x.
  - apply Forall_forall. auto.
Qed.

(** Clamping to [[0, hi]] undoes [np.maximum(x, 0.)] on a finite value. *)
Lemma clip_max0 (hi x : spec_float) :
  SF_is_finite x = true ->
  clip F (S754_zero false) hi (maximum F x (zero F))
  = clip F (S754_zero false) hi x.
Proof.
  rewrite zero_F. unfold maximum, clip.
  destruct x as [[ | ] | | | [ | ] m e]; try discriminate; intros _; reflexivity.
Qed.

Lemma np_clip_max0 (a : ndarray spec_float) (hi : spec_float) :
  Forall (fun x => SF_is_finite x = true) (data a) ->
  np_clip F (np_map (fun x => maximum F x (zero F)) a) (S754_zero false) hi
  = np_clip F a (S754_zero false) hi.
Proof.
  intros H. unfold np_clip. rewrite np_map_map. unfold np_map. f_equal.
  apply map_ext_in. intros x Hx. apply clip_max0.
  rewrite Forall_forall in H. now apply H.
Qed.

(** The two clamping metrics do not see the clamp to [0.] of the
    candidate. *)
Lemma clamping_dispatch_max0 (metric : string) (a : ndarray spec_float) :
  In metric clamping_metrics ->
  Forall (fun x => SF_is_finite x = true) (data a) ->
  metric_dispatch F metric (np_map (fun x => maximum F x (zero F)) a) a
  = metric_dispatch F metric a a.
Proof.
  intros Hin Hfin. simpl in Hin. destruct Hin as [<- | [<- | []]].
  - rewrite !metric_dispatch_MScE, lit_0. now rewrite np_clip_max0.
  - rewrite !metric_dispatch_MRScE, lit_0. now rewrite np_clip_max0.
Qed.

(** C1, as amended.  [compute_error(m, img, img)], called with the same
    array as candidate and reference (positive height, width and channel
    count), is zero
    - for MScE and MRScE, on every image: both sides are clamped alike;
    - for MAE, MAPE, SMAPE, MSE and MRSE, on every image whose finite
      entries are not below zero: there the clamp of the candidate to [0.]
      changes nothing that the reference does not show too. *)
Theorem self_error_is_zero
    (metric : string) (l : loc) (h : heap spec_float) (img : ndarray spec_float)
    (hh w c : nat) :
  load h l = Some img ->
  shape img = [hh; w; c] ->
  (0 < hh)%nat -> (0 < w)%nat -> (0 < c)%nat ->
  length (data img) = hh * w * c ->
  In metric clamping_metrics
  \/ (In metric plain_metrics
      /\ Forall (fun x => SF_is_finite x = true -> SF_negative x = false)
                (data img)) ->
  exists z, fst (compute_error F metric l l h) = Ok z /\ SF_is_zero z = true.
Proof.
  intros Hload Hs Hh Hw Hc Hlen Hcase.
  unfold compute_error, compute_error_img. rewrite Hload.
  rewrite (load_store_same _ _ _ _ _ Hload).
  set (a0 := zero_nonfinite F img).
  assert (Hfin : Forall (fun x => SF_is_finite x = true) (data a0))
    by apply zero_nonfinite_all_finite.
  assert (Hin : In metric elementwise_metrics).
  { destruct Hcase as [Hin | [Hin _]]; simpl in Hin; simpl; intuition. }
  assert (Hd : metric_dispatch F metric (np_map (fun x => maximum F x (zero F)) a0) a0
               = metric_dispatch F metric a0 a0).
  { destruct Hcase as [Hcl | [_ Hnn]].
    - now apply clamping_dispatch_max0.
    - f_equal. apply np_map_id.
      assert (Hgood : Forall (fun y => SF_is_finite y = true
                                       /\ maximum F y (zero F) = y) (data a0)).
      { subst a0. eapply np_map_Forall; [ | exact Hnn]. exact sanitized_entry. }
      eapply Forall_impl; [ | exact Hgood]. now intros y [_ Hy]. }
  rewrite Hd.
  destruct (metric_self_zero_map metric a0 Hin Hfin) as [m [E [Hsm [Hlm Hz]]]].
  rewrite E. cbn [bind fst]. eexists. split; [reflexivity | ].
  apply reduce_zero_map with (hh := hh) (w := w) (c := c); try assumption.
  - rewrite Hsm. exact Hs.
  - rewrite Hlm. subst a0. cbn [zero_nonfinite np_map data].
    now rewrite length_map.
Qed.

(** ** Alpha un-premultiplication *)

Lemma nth_map_seq (A : Type) (f : nat -> A) (n i : nat) (d : A) :
  (i < n)%nat -> nth i (map f (seq 0 n)) d = f i.
Proof.
  intros H. rewrite (nth_indep _ d (f 0)) by (now rewrite length_map, length_seq).
  rewrite map_nth. f_equal. now rewrite seq_nth.
Qed.

Lemma pixel_index (p c : nat) :
  (c < 4)%nat -> ((4 * p + c) mod 4 = c /\ (4 * p + c) / 4 = p)%nat.
Proof.
  intros H. split.
  - symmetry. apply Nat.mod_unique with (q := p); lia.
  - symmetry. apply Nat.div_unique with (r := c); lia.
Qed.

Lemma SFeqb_zero_false (a : spec_float) :
  SFeqb a (S754_zero false) = false -> SF_is_zero a = false.
Proof. destruct a as [s | s | | s m e]; simpl; auto; discriminate. Qed.

(** C8, as amended.  On a four-channel image of finite values the
    un-premultiplication is total: at every pixel whose alpha is not 0 each
    colour channel becomes [rgb / alpha], at every pixel whose alpha is 0 it
    becomes 0, alpha is kept, and no entry of the result is NaN. *)
Theorem unmultiply_alpha_total (img : ndarray spec_float) (hh w : nat) :
  shape img = [hh; w; 4] ->
  length (data img) = hh * w * 4 ->
  Forall (fun x => SF_is_finite x = true) (data img) ->
  let out := unmultiply_alpha F img in
  shape out = [hh; w; 4]
  /\ length (data out) = hh * w * 4
  /\ (forall p c, (p < hh * w)%nat -> (c < 3)%nat ->
        let a := nth (4 * p + 3) (data img) (zero F) in
        nth (4 * p + c) (data out) (zero F)
        = if SFeqb a (S754_zero false) then S754_zero false
          else SFdiv 24 128 (nth (4 * p + c) (data img) (zero F)) a)
  /\ (forall p, (p < hh * w)%nat ->
        nth (4 * p + 3) (data out) (zero F) = nth (4 * p + 3) (data img) (zero F))
  /\ Forall (fun x => SF_is_nan x = false) (data out).
Proof.
  intros Hs Hlen Hfin. cbn zeta. unfold unmultiply_alpha. cbn [shape data].
  split; [exact Hs | ].
  split; [now rewrite length_map, length_seq | ].
  split; [ | split].
  - intros p c Hp Hc.
    rewrite nth_map_seq by lia.
    destruct (pixel_index p c ltac:(lia)) as [-> ->].
    destruct (Nat.ltb_spec c 3); [ | lia].
    replace (p * 4 + 3)%nat with (4 * p + 3)%nat by lia.
    cbn [s_eq s_div f32_scalar]. rewrite zero_F.
    now destruct (SFeqb _ _).
  - intros p Hp.
    rewrite nth_map_seq by lia.
    destruct (pixel_index p 3 ltac:(lia)) as [-> _]. reflexivity.
  - rewrite Forall_forall in *. intros x Hx.
    apply in_map_iff in Hx. destruct Hx as [i [<- Hi]]. apply in_seq in Hi.
    assert (Hnth : forall j, (j < length (data img))%nat ->
                             SF_is_finite (nth j (data img) (S754_zero false)) = true).
    { intros j Hj. apply Hfin. now apply nth_In. }
    assert (Hfinite_not_nan : forall y, SF_is_finite y = true -> SF_is_nan y = false).
    { now intros [ | | | ]. }
    pose proof (Nat.div_mod_eq i 4) as Hdm.
    pose proof (Nat.mod_upper_bound i 4 ltac:(lia)) as Hmod.
    destruct (i mod 4 <? 3)%nat.
    + cbn [s_eq s_div f32_scalar]. rewrite zero_F.
      destruct (SFeqb _ _) eqn:E; cbn [negb]; [reflexivity | ].
      apply SFdiv_finite_not_nan; [apply Hnth; lia | apply Hnth; lia | ].
      now apply SFeqb_zero_false.
    + rewrite zero_F. apply Hfinite_not_nan, Hnth. lia.
Qed.

End Binary32.

(** * Unknown metric names *)

Section Errors.
Variable T : Type.
Variable S : Scalar T.

Lemma bind_Raise (A B : Type) (r : result A) (k : A -> result B) (e : exn) :
  bind r k = Raise e -> r = Raise e \/ exists a, r = Ok a /\ k a = Raise e.
Proof. destruct r as [a | e']; simpl; [eauto | intros [= ->]; auto]. Qed.

Lemma np_binop_Raise (f : T -> T -> T) (a b : ndarray T) (e : exn) :
  np_binop S f a b = Raise e -> other_error e = true.
Proof.
  unfold np_binop. destruct (shape_eqb _ _); [discriminate | ].
  destruct (broadcast_shapes _ _); [discriminate | ].
  now intros [= <-].
Qed.

Lemma channel_Raise (a : ndarray T) (i : nat) (e : exn) :
  channel S a i = Raise e -> other_error e = true.
Proof.
  unfold channel.
  destruct (shape a) as [ | ? [ | ? [ | c [ | ]]]]; try (now intros [= <-]).
  destruct (i <? c); [discriminate | now intros [= <-]].
Qed.

Lemma convolve1d_Raise (a : ndarray T) (k : list T) (axis : nat) (e : exn) :
  convolve1d S a k axis = Raise e -> other_error e = true.
Proof.
  unfold convolve1d.
  destruct (shape a) as [ | ? [ | ? [ | ]]]; try (now intros [= <-]).
  destruct axis as [ | [ | ]]; try discriminate. now intros [= <-].
Qed.

Lemma trim_skip_Raise (skip : pyfloat) (n : nat) (e : exn) :
  trim_skip skip n = Raise e -> other_error e = true.
Proof.
  unfold trim_skip, SF_trunc. destruct (SFmul _ _ _ _); try discriminate;
    now intros [= <-].
Qed.

(** Splits a failing chain of binds into its failing step. *)
Ltac raise_inv H :=
  repeat (apply bind_Raise in H;
          destruct H as [H | [? [_ H]]];
          [ first [ apply np_binop_Raise in H; exact H
                  | apply channel_Raise in H; exact H
                  | apply convolve1d_Raise in H; exact H
                  | apply trim_skip_Raise in H; exact H
                  | idtac ]
          | ]);
  try discriminate;
  try (first [ apply np_binop_Raise in H; exact H
             | apply channel_Raise in H; exact H
             | apply convolve1d_Raise in H; exact H
             | apply trim_skip_Raise in H; exact H ]).

Lemma L1_Raise (a b : ndarray T) (e : exn) :
  L1 S a b = Raise e -> other_error e = true.
Proof. unfold L1, np_subtract. intros H. raise_inv H. Qed.

Lemma L2_Raise (a b : ndarray T) (e : exn) :
  L2 S a b = Raise e -> other_error e = true.
Proof. unfold L2, np_subtract. intros H. raise_inv H. Qed.

Lemma APE_Raise (a b : ndarray T) (e : exn) :
  APE S a b = Raise e -> other_error e = true.
Proof.
  unfold APE, np_divide. intros H.
  apply bind_Raise in H. destruct H as [H | [? [_ H]]].
  - now apply L1_Raise in H.
  - now apply np_binop_Raise in H.
Qed.

Lemma SAPE_Raise (a b : ndarray T) (e : exn) :
  SAPE S a b = Raise e -> other_error e = true.
Proof.
  unfold SAPE, np_divide, np_add. intros H.
  apply bind_Raise in H. destruct H as [H | [? [_ H]]].
  - now apply L1_Raise in H.
  - raise_inv H.
Qed.

Lemma RSE_Raise (a b : ndarray T) (e : exn) :
  RSE S a b = Raise e -> other_error e = true.
Proof.
  unfold RSE, np_divide. intros H.
  apply bind_Raise in H. destruct H as [H | [? [_ H]]].
  - now apply L2_Raise in H.
  - now apply np_binop_Raise in H.
Qed.

Lemma luminance_Raise (a : ndarray T) (e : exn) :
  luminance S a = Raise e -> other_error e = true.
Proof. unfold luminance, np_add. intros H. raise_inv H. Qed.

Lemma blur_Raise (a : ndarray T) (e : exn) :
  blur S a = Raise e -> other_error e = true.
Proof. unfold blur. intros H. raise_inv H. Qed.

Lemma SSIM_Raise (a b : ndarray T) (e : exn) :
  SSIM S a b = Raise e -> other_error e = true.
Proof.
  unfold SSIM, np_multiply, np_subtract, np_add, np_divide. intros H.
  repeat (apply bind_Raise in H;
          destruct H as [H | [? [_ H]]];
          [ first [ apply np_binop_Raise in H; exact H
                  | apply luminance_Raise in H; exact H
                  | apply blur_Raise in H; exact H ]
          | ]).
  now apply np_binop_Raise in H.
Qed.

Lemma as_array_Raise (r : result (ndarray T)) (e : exn) :
  as_array r = Raise e -> r = Raise e.
Proof. destruct r; simpl; [discriminate | now intros [= ->]]. Qed.

(** A known metric never fails with the unknown-metric error. *)
Lemma known_metric_Raise (metric : string) (a b : ndarray T) (e : exn) :
  In metric metric_names ->
  metric_dispatch S metric a b = Raise e -> other_error e = true.
Proof.
  intros Hin H. simpl in Hin.
  destruct Hin as [<- | [<- | [<- | [<- | [<- | [<- | [<- | [<- | [<- | []]]]]]]]]].
  - rewrite metric_dispatch_MAE in H. apply as_array_Raise in H.
    now apply L1_Raise in H.
  - rewrite metric_dispatch_MAPE in H. apply as_array_Raise in H.
    now apply APE_Raise in H.
  - rewrite metric_dispatch_SMAPE in H. apply as_array_Raise in H.
    now apply SAPE_Raise in H.
  - rewrite metric_dispatch_MSE in H. apply as_array_Raise in H.
    now apply L2_Raise in H.
  - rewrite metric_dispatch_MScE in H. apply as_array_Raise in H.
    now apply L2_Raise in H.
  - rewrite metric_dispatch_MRSE in H. apply as_array_Raise in H.
    now apply RSE_Raise in H.
  - rewrite metric_dispatch_MtRSE in H.
    apply bind_Raise in H. destruct H as [H | [? [_ H]]].
    + now apply RSE_Raise in H.
    + unfold trim in H. raise_inv H.
  - rewrite metric_dispatch_MRScE in H. apply as_array_Raise in H.
    now apply RSE_Raise in H.
  - rewrite metric_dispatch_SSIM in H. apply as_array_Raise in H.
    now apply SSIM_Raise in H.
Qed.

Lemma unknown_metric_dispatch (metric : string) (a b : ndarray T) :
  ~ In metric metric_names ->
  metric_dispatch S metric a b
  = Raise (ValueError ("Unknown metric: " ++ metric ++ ".")).
Proof.
  intros Hnot. unfold metric_dispatch.
  repeat match goal with
         | |- context [String.eqb metric ?s] =>
             destruct (String.eqb_spec metric s) as [-> | _];
             [exfalso; apply Hnot; simpl; tauto | ]
         end.
  reflexivity.
Qed.

(** C4. [compute_error_img] fails with the error [ValueError("Unknown
    metric: <metric>.")], whose message carries the metric string, exactly
    when the metric is not one of the nine known names. *)
Theorem unknown_metric_iff
    (metric : string) (img ref : loc) (h : heap T) (a r : ndarray T) :
  load h img = Some a ->
  load (store h img (zero_nonfinite S a)) ref = Some r ->
  fst (compute_error_img S metric img ref h)
  = Raise (ValueError ("Unknown metric: " ++ metric ++ "."))
  <-> ~ In metric metric_names.
Proof.
  intros Ha Hr. unfold compute_error_img. rewrite Ha, Hr. cbn [fst]. split.
  - intros H Hin. apply (known_metric_Raise _ _ _ _ Hin) in H. discriminate.
  - apply unknown_metric_dispatch.
Qed.

End Errors.

(** * The [.bin] container *)

Lemma Z_of_byte_of_Z (z : Z) : Z_of_byte (byte_of_Z z) = (z mod 256)%Z.
Proof.
  unfold Z_of_byte, byte_of_Z.
  pose proof (Z.mod_pos_bound z 256 ltac:(lia)) as Hb.
  destruct (Byte.of_N (Z.to_N (z mod 256))) as [b | ] eqn:E.
  - apply Byte.to_of_N in E. rewrite E. apply Z2N.id. lia.
  - apply Byte.of_N_None_iff in E. lia.
Qed.


Lemma le_bytes_length (n : nat) (z : Z) : length (le_bytes n z) = n.
Proof. revert z. induction n; intros z; simpl; [reflexivity | now rewrite IHn]. Qed.

Lemma le_value_le_bytes (n : nat) (z : Z) :
  le_value (le_bytes n z) = (z mod 256 ^ Z.of_nat n)%Z.
Proof.
  revert z. induction n as [ | n IH]; intros z.
  - simpl. now rewrite Z.mod_1_r.
  - cbn [le_bytes le_value]. rewrite Z_of_byte_of_Z, IH.
    rewrite Nat2Z.inj_succ, Z.pow_succ_r by lia.
    rewrite Z.rem_mul_r by lia. reflexivity.
Qed.

Lemma half_bits_range (x : spec_float) : (0 <= half_bits x < 65536)%Z.
Proof.
  unfold half_bits, sign_bit.
  destruct x as [s | s | | s m e]; try (destruct s; lia); try lia.
  pose proof (Z.mod_pos_bound ((e + 24) * 1024 + Z.pos m) 32768 ltac:(lia)).
  destruct s; lia.
Qed.

Lemma halves_of_tobytes (l : list Z) :
  Forall (fun z => 0 <= z < 65536)%Z l -> halves_of_bytes (tobytes_f16 l) = l.
Proof.
  induction 1 as [ | z l Hz _ IH]; [reflexivity | ].
  change (tobytes_f16 (z :: l))
    with (byte_of_Z z :: byte_of_Z (z / 256) :: tobytes_f16 l).
  cbn [halves_of_bytes]. rewrite IH, !Z_of_byte_of_Z. f_equal.
  pose proof (Z.div_mod z 256 ltac:(lia)).
  assert (0 <= z / 256 < 256)%Z.
  { split; [apply Z.div_pos; lia | apply Z.div_lt_upper_bound; lia]. }
  rewrite (Z.mod_small (z / 256)) by lia. lia.
Qed.

Lemma tobytes_f16_length (l : list Z) : length (tobytes_f16 l) = 2 * length l.
Proof.
  induction l as [ | z l IH]; [reflexivity | ].
  change (tobytes_f16 (z :: l))
    with (byte_of_Z z :: byte_of_Z (z / 256) :: tobytes_f16 l).
  cbn [length]. rewrite IH. lia.
Qed.

Lemma halves_of_bytes_length (bs : list byte) :
  length (halves_of_bytes bs) = length bs / 2.
Proof.
  revert bs. fix IH 1. intros [ | b0 [ | b1 r]]; try reflexivity.
  cbn [halves_of_bytes length]. rewrite IH.
  replace (Datatypes.S (Datatypes.S (length r))) with (length r + 1 * 2) by lia.
  rewrite Nat.div_add by lia. lia.
Qed.

Lemma firstn_skipn_app (A : Type) (x y : list A) (n : nat) :
  length x = n -> firstn n (x ++ y) = x /\ skipn n (x ++ y) = y.
Proof.
  intros <-. split.
  - rewrite firstn_app, Nat.sub_diag, firstn_all. simpl. apply app_nil_r.
  - rewrite skipn_app, Nat.sub_diag, skipn_all. reflexivity.
Qed.




Lemma struct_unpack_pack (a b : Z) :
  (0 <= a < 2 ^ 31)%Z -> (0 <= b < 2 ^ 31)%Z ->
  exists hdr, struct_pack_ii a b = Ok hdr /\ length hdr = 8
              /\ struct_unpack_ii hdr = Ok (a, b).
Proof.
  intros Ha Hb. unfold struct_pack_ii, in_int32.
  replace ((- 2 ^ 31 <=? a) && (a <? 2 ^ 31))%Z with true
    by (symmetry; apply andb_true_intro; split; [apply Z.leb_le | apply Z.ltb_lt]; lia).
  replace ((- 2 ^ 31 <=? b) && (b <? 2 ^ 31))%Z with true
    by (symmetry; apply andb_true_intro; split; [apply Z.leb_le | apply Z.ltb_lt]; lia).
  cbn [andb]. eexists. split; [reflexivity | ].
  assert (Hlen : length (le_bytes 4 (a mod 2 ^ 32) ++ le_bytes 4 (b mod 2 ^ 32)) = 8).
  { now rewrite length_app, !le_bytes_length. }
  split; [exact Hlen | ].
  unfold struct_unpack_ii. rewrite Hlen. cbn [Nat.eqb].
  destruct (firstn_skipn_app _ (le_bytes 4 (a mod 2 ^ 32)) (le_bytes 4 (b mod 2 ^ 32)) 4
              (le_bytes_length _ _)) as [-> ->].
  rewrite !le_value_le_bytes.
  change (256 ^ Z.of_nat 4)%Z with (2 ^ 32)%Z.
  rewrite !Z.mod_mod by lia.
  rewrite !Z.mod_small by lia.
  unfold to_int32.
  destruct (Z.ltb_spec a (2 ^ 31)); [ | lia].
  destruct (Z.ltb_spec b (2 ^ 31)); [ | lia].
  reflexivity.
Qed.

Lemma np_reshape_hw4 (T : Type) (d : list T) (h w : Z) :
  (0 <= h)%Z -> (0 <= w)%Z -> Z.of_nat (length d) = (h * w * 4)%Z ->
  (h < 2 ^ 31)%Z -> (h * w * 4 < 2 ^ 63)%Z ->
  np_reshape d [h; w; 4%Z]
  = Ok {| shape := [Z.to_nat h; Z.to_nat w; 4]; data := d |}.
Proof.
  intros Hh Hw Hlen Hh31 Hfit. unfold np_reshape. cbn [fix_unknown_dimension].
  destruct (Z.ltb_spec h 0); [lia | ].
  destruct (Z.leb_spec (2 ^ 63) (1 * h)); [lia | ].
  destruct (Z.ltb_spec w 0); [lia | ].
  destruct (Z.leb_spec (2 ^ 63) (1 * h * w)); [nia | ].
  change (4 <? 0)%Z with false. cbv iota.
  destruct (Z.leb_spec (2 ^ 63) (1 * h * w * 4)); [lia | ].
  cbn [bind].
  replace (1 * h * w * 4)%Z with (h * w * 4)%Z by lia.
  rewrite <- Hlen, Z.eqb_refl. reflexivity.
Qed.

Lemma flat_map_length_const (A B : Type) (f : A -> list B) (l : list A) (k : nat) :
  (forall x, In x l -> length (f x) = k) -> length (flat_map f l) = k * length l.
Proof.
  induction l as [ | x l IH]; intros H; simpl; [lia | ].
  rewrite length_app, IH, H by (simpl in *; auto). lia.
Qed.

Section BinCodec.
Variable powf : spec_float -> spec_float -> spec_float.
Variable cd : codecs.

Lemma dstack_ones_length (hh w c : nat) (d : list spec_float) :
  length d = hh * w * c -> c <= 4 ->
  length (data (dstack_ones hh w c d)) = hh * w * 4.
Proof.
  intros Hd Hc. unfold dstack_ones. cbn [data].
  rewrite flat_map_length_const with (k := 4).
  - rewrite length_seq. lia.
  - intros p Hp. apply in_seq in Hp.
    rewrite length_app, length_map, repeat_length.
    rewrite (chunk_length _ d (hh * w) c p) by lia. lia.
Qed.

(** The four-channel image the writer serialises. *)
Lemma bin_image_shape (img : ndarray spec_float) (hh w c : nat) :
  shape img = [hh; w; c] -> c <= 4 -> length (data img) = hh * w * c ->
  bin_image img
  = Ok (if c <? 4 then dstack_ones hh w c (data img) else img)
  /\ shape (if c <? 4 then dstack_ones hh w c (data img) else img) = [hh; w; 4]
  /\ length (data (if c <? 4 then dstack_ones hh w c (data img) else img))
     = hh * w * 4.
Proof.
  intros Hs Hc Hlen. unfold bin_image. rewrite Hs.
  destruct (Nat.ltb_spec c 4).
  - split; [reflexivity | ]. split; [reflexivity | ].
    now apply dstack_ones_length.
  - assert (c = 4) as -> by lia. auto.
Qed.

(** Reading the bytes the writer produces. *)
Lemma read_bin_written (hdr : list byte) (halves : list Z) (h w : Z) :
  length hdr = 8 ->
  struct_unpack_ii hdr = Ok (h, w) ->
  (0 <= h)%Z -> (0 <= w)%Z ->
  Z.of_nat (length halves) = (h * w * 4)%Z ->
  (h < 2 ^ 31)%Z ->
  (h * w * 4 < 2 ^ 63)%Z ->
  Forall (fun z => 0 <= z < 65536)%Z halves ->
  read_bin (hdr ++ tobytes_f16 halves)
  = Ok {| shape := [Z.to_nat h; Z.to_nat w; 4];
          data := map half_to_float32 halves |}.
Proof.
  intros Hhdr Hun Hh Hw Hlen Hh31 Hmax Hrange. unfold read_bin.
  destruct (firstn_skipn_app _ hdr (tobytes_f16 halves) 8 Hhdr) as [E1 E2].
  rewrite E1, Hun. cbn [bind].
  unfold np_frombuffer_f16.
  rewrite length_app, Hhdr, tobytes_f16_length.
  destruct (Nat.ltb_spec (8 + 2 * length halves) 8); [lia | ].
  destruct (Z.leb_spec (2 ^ 63) (h * w * 4)); [lia | ].
  destruct (Z.ltb_spec (h * w * 4) (- 2 ^ 63)); [lia | ].
  cbn [orb].
  destruct (Z.ltb_spec (h * w * 4) 0); [lia | ].
  destruct (Z.ltb_spec (Z.of_nat (8 + 2 * length halves - 8)) (2 * (h * w * 4))); [lia | ].
  rewrite E2, <- Hlen, Nat2Z.id, <- tobytes_f16_length, firstn_all.
  rewrite halves_of_tobytes by assumption. cbn [bind].
  apply np_reshape_hw4; try assumption. now rewrite length_map.
Qed.

Lemma read_image_bin (file : string) (fs : filesystem) :
  splitext_ext file = ".bin"%string ->
  read_image powf cd file fs = (bytes <- fs_read fs file ;; read_bin bytes).
Proof. intros H. unfold read_image. rewrite H. reflexivity. Qed.


End BinCodec.

Section ExactColour.

(** * Exact arithmetic: the sRGB transfer functions *)

Local Open Scope R_scope.

Lemma Rpower_root (u : R) (n : nat) :
  0 < u -> (0 < n)%nat -> Rpower (u ^ n) (/ INR n) = u.
Proof.
  intros Hu Hn. rewrite <- Rpower_pow by assumption.
  rewrite Rpower_mult, Rinv_r, Rpower_1; auto.
  apply not_0_INR. lia.
Qed.

Lemma Rpower_ratio (y : R) (p q : nat) :
  0 < y -> Rpower y (INR p / INR q) = Rpower (y ^ p) (/ INR q).
Proof.
  intros Hy. rewrite <- Rpower_pow by assumption. now rewrite Rpower_mult.
Qed.

(** Bounds on [y^(p/q)] from comparisons of integer powers. *)
Lemma Rpower_ratio_lower (a y : R) (p q : nat) :
  0 < a -> 0 < y -> (0 < q)%nat -> a ^ q <= y ^ p ->
  a <= Rpower y (INR p / INR q).
Proof.
  intros Ha Hy Hq H. rewrite Rpower_ratio by assumption.
  rewrite <- (Rpower_root a q) at 1 by assumption.
  apply Rle_Rpower_l.
  - left. apply Rinv_0_lt_compat, lt_0_INR. lia.
  - split; [now apply pow_lt | assumption].
Qed.

Lemma Rpower_ratio_upper (b y : R) (p q : nat) :
  0 < b -> 0 < y -> (0 < q)%nat -> y ^ p <= b ^ q ->
  Rpower y (INR p / INR q) <= b.
Proof.
  intros Hb Hy Hq H. rewrite Rpower_ratio by assumption.
  rewrite <- (Rpower_root b q) at 1 by assumption.
  apply Rle_Rpower_l.
  - left. apply Rinv_0_lt_compat, lt_0_INR. lia.
  - split; [now apply pow_lt | assumption].
Qed.

Lemma Rpower_ratio_lower_strict (a y : R) (p q : nat) :
  0 < a -> 0 < y -> (0 < q)%nat -> a ^ q < y ^ p ->
  a < Rpower y (INR p / INR q).
Proof.
  intros Ha Hy Hq H. rewrite Rpower_ratio by assumption.
  rewrite <- (Rpower_root a q) at 1 by assumption.
  apply Rlt_Rpower_l.
  - apply Rinv_0_lt_compat, lt_0_INR. lia.
  - split; [now apply pow_lt | assumption].
Qed.

Lemma Rpower_ratio_upper_strict (b y : R) (p q : nat) :
  0 < b -> 0 < y -> (0 < q)%nat -> y ^ p < b ^ q ->
  Rpower y (INR p / INR q) < b.
Proof.
  intros Hb Hy Hq H. rewrite Rpower_ratio by assumption.
  rewrite <- (Rpower_root b q) at 1 by assumption.
  apply Rlt_Rpower_l.
  - apply Rinv_0_lt_compat, lt_0_INR. lia.
  - split; [now apply pow_lt | assumption].
Qed.

Lemma lit_24_1 : lit R_scalar 24 1 = INR 12 / INR 5.
Proof. unfold lit. simpl. lra. Qed.

Lemma lit_inv_24 :
  s_of_py R_scalar (PyDiv (PyLit 1 0) (PyLit 24 1)) = INR 5 / INR 12.
Proof. simpl. lra. Qed.

Lemma R_pow_pos (x y : R) : 0 < x -> R_pow x y = Rpower x y.
Proof. intros H. unfold R_pow. destruct (Req_dec_T x 0); [lra | reflexivity]. Qed.

Lemma srgb_power_branch_R (x : R) :
  0 < x + 55 / 1000 ->
  srgb_power_branch R_scalar x = Rpower ((x + 55 / 1000) / (1055 / 1000)) (INR 12 / INR 5).
Proof.
  intros H. unfold srgb_power_branch. rewrite lit_24_1.
  cbn [s_pow s_div s_add R_scalar]. unfold lit. cbn [s_of_py R_scalar py_real].
  replace (IZR 55 / 10 ^ 3) with (55 / 1000) by (simpl; lra).
  replace (IZR 1055 / 10 ^ 3) with (1055 / 1000) by (simpl; lra).
  apply R_pow_pos. apply Rdiv_lt_0_compat; lra.
Qed.

Lemma linear_power_branch_R (y : R) :
  0 < y ->
  linear_power_branch R_scalar y
  = 1055 / 1000 * Rpower y (INR 5 / INR 12) - 55 / 1000.
Proof.
  intros H. unfold linear_power_branch. rewrite lit_inv_24.
  cbn [s_pow s_sub s_mul R_scalar]. unfold lit. cbn [s_of_py R_scalar py_real].
  replace (IZR 55 / 10 ^ 3) with (55 / 1000) by (simpl; lra).
  replace (IZR 1055 / 10 ^ 3) with (1055 / 1000) by (simpl; lra).
  now rewrite R_pow_pos.
Qed.

Lemma srgb_linear_branch_R (x : R) :
  srgb_linear_branch R_scalar x = x / (1292 / 100).
Proof.
  unfold srgb_linear_branch, lit. cbn [s_div s_of_py R_scalar py_real].
  replace (IZR 1292 / 10 ^ 2) with (1292 / 100) by (simpl; lra). reflexivity.
Qed.

Lemma linear_linear_branch_R (y : R) :
  linear_linear_branch R_scalar y = 1292 / 100 * y.
Proof.
  unfold linear_linear_branch, lit. cbn [s_mul s_of_py R_scalar py_real].
  replace (IZR 1292 / 10 ^ 2) with (1292 / 100) by (simpl; lra). reflexivity.
Qed.

Lemma srgb_to_linear_elt_R (x : R) :
  srgb_to_linear_elt R_scalar x
  = if Rlt_dec (4045 / 100000) x
    then srgb_power_branch R_scalar x else srgb_linear_branch R_scalar x.
Proof.
  unfold srgb_to_linear_elt, lit. cbn [s_lt s_of_py R_scalar py_real].
  replace (IZR 4045 / 10 ^ 5) with (4045 / 100000) by (simpl; lra).
  unfold Rltb. now destruct (Rlt_dec _ _).
Qed.

Lemma linear_to_srgb_elt_R (y : R) :
  linear_to_srgb_elt R_scalar y
  = if Rlt_dec (31308 / 10000000) y
    then linear_power_branch R_scalar y else linear_linear_branch R_scalar y.
Proof.
  unfold linear_to_srgb_elt, lit. cbn [s_lt s_of_py R_scalar py_real].
  replace (IZR 31308 / 10 ^ 7) with (31308 / 10000000) by (simpl; lra).
  unfold Rltb. now destruct (Rlt_dec _ _).
Qed.

(** The power branch of [srgb_to_linear] just above its threshold. *)
Lemma srgb_power_at_threshold :
  4045 / 1292000 < Rpower (9545 / 105500) (INR 12 / INR 5)
  /\ Rpower (9545 / 105500) (INR 12 / INR 5) <= 4045 / 1292000 + 1 / 10000000.
Proof.
  split.
  - apply Rpower_ratio_lower_strict; try lra; try lia.
  - apply Rpower_ratio_upper; try lra; try lia.
Qed.

(** The power branch of [linear_to_srgb] at its threshold. *)
Lemma linear_power_at_threshold :
  Rpower (31308 / 10000000) (INR 5 / INR 12) < (40449936 / 1000000000 + 55 / 1000) / (1055 / 1000)
  /\ (40449936 / 1000000000 - 1 / 10000000 + 55 / 1000) / (1055 / 1000)
     <= Rpower (31308 / 10000000) (INR 5 / INR 12).
Proof.
  split.
  - apply Rpower_ratio_upper_strict; try lra; try lia.
  - apply Rpower_ratio_lower; try lra; try lia.
Qed.





End ExactColour.

(** * Exact arithmetic: sums

    Over the reals the order of the additions is immaterial: NumPy's
    pairwise sum is the sum. *)

Section ExactSums.
Local Open Scope R_scope.

Lemma zero_R_scalar : zero R_scalar = 0.
Proof. unfold zero, lit. cbn [s_of_py R_scalar py_real]. simpl. lra. Qed.

Lemma fold_left_Rplus_sum (l : list R) (x : R) :
  fold_left Rplus l x = x + fold_right Rplus 0 l.
Proof.
  revert x. induction l as [ | y l IH]; intros x; simpl; [lra | ].
  rewrite IH. lra.
Qed.

Lemma sum_app (l1 l2 : list R) :
  fold_right Rplus 0 (l1 ++ l2) = fold_right Rplus 0 l1 + fold_right Rplus 0 l2.
Proof. induction l1 as [ | x l IH]; simpl; [lra | rewrite IH; lra]. Qed.

Lemma sum_split (n : nat) (l : list R) :
  fold_right Rplus 0 l
  = fold_right Rplus 0 (firstn n l) + fold_right Rplus 0 (skipn n l).
Proof. now rewrite <- sum_app, firstn_skipn. Qed.

Lemma sum_map2 (r a : list R) :
  length r = length a ->
  fold_right Rplus 0 (map2 Rplus r a)
  = fold_right Rplus 0 r + fold_right Rplus 0 a.
Proof.
  revert a. induction r as [ | x r IH]; intros [ | y a] H; try discriminate.
  - simpl. lra.
  - unfold map2 in *. cbn [combine map fold_right fst snd].
    rewrite IH by (simpl in H; lia). lra.
Qed.

Lemma block_rows_R (g : nat) (r l : list R) :
  length r = 8%nat -> (8 * g <= length l)%nat ->
  length (fst (block_rows R_scalar g r l)) = 8%nat
  /\ fold_right Rplus 0 (fst (block_rows R_scalar g r l))
     + fold_right Rplus 0 (snd (block_rows R_scalar g r l))
     = fold_right Rplus 0 r + fold_right Rplus 0 l.
Proof.
  revert r l. induction g as [ | g IH]; intros r l Hr Hl; cbn [block_rows fst snd].
  - now split.
  - assert (Hf : length (firstn 8 l) = 8%nat) by (rewrite length_firstn; lia).
    destruct (IH (map2 (s_add R_scalar) r (firstn 8 l)) (skipn 8 l)) as [H1 H2].
    + rewrite map2_length; lia.
    + rewrite length_skipn. lia.
    + split; [exact H1 | ]. rewrite H2. cbn [s_add R_scalar].
      rewrite sum_map2 by lia. rewrite (sum_split 8 l). lra.
Qed.

Lemma tree8_R (r : list R) :
  length r = 8%nat -> tree8 R_scalar r = fold_right Rplus 0 r.
Proof.
  intros H. do 8 (destruct r as [ | ? r]; [discriminate | ]).
  destruct r; [ | discriminate]. cbn [tree8 s_add R_scalar fold_right]. lra.
Qed.

Lemma pairwise_block_R (l : list R) :
  (8 <= length l)%nat -> pairwise_block R_scalar l = fold_right Rplus 0 l.
Proof.
  intros Hl. unfold pairwise_block.
  destruct (block_rows_R (length l / 8 - 1) (firstn 8 l) (skipn 8 l)) as [H1 H2].
  - rewrite length_firstn. lia.
  - rewrite length_skipn.
    pose proof (Nat.Div0.mul_div_le (length l) 8). lia.
  - destruct (block_rows R_scalar (length l / 8 - 1) (firstn 8 l) (skipn 8 l))
      as [r rest].
    cbn [fst snd] in H1, H2. cbn [s_add R_scalar].
    rewrite fold_left_Rplus_sum, tree8_R by exact H1.
    rewrite H2. symmetry. apply sum_split.
Qed.

Lemma pairwise_sum_R (fuel : nat) (l : list R) :
  (length l <= fuel)%nat -> pairwise_sum R_scalar fuel l = fold_right Rplus 0 l.
Proof.
  revert l. induction fuel as [ | fuel IH]; intros l Hl; cbn [pairwise_sum].
  - destruct l; [ | simpl in Hl; lia]. simpl. apply zero_R_scalar.
  - destruct (Nat.ltb_spec (length l) 8).
    + cbn [s_add R_scalar]. rewrite fold_left_Rplus_sum, zero_R_scalar. lra.
    + destruct (Nat.leb_spec (length l) 128).
      * now apply pairwise_block_R.
      * cbn [s_add R_scalar].
        pose proof (Nat.Div0.mod_le (length l / 2) 8).
        pose proof (Nat.mod_upper_bound (length l / 2) 8 ltac:(lia)).
        pose proof (Nat.Div0.mul_div_le (length l) 2).
        assert (length l / 2 <= fuel)%nat by lia.
        assert (64 <= length l / 2)%nat.
        { apply Nat.div_le_lower_bound; lia. }
        rewrite !IH.
        -- symmetry. apply sum_split.
        -- rewrite length_skipn.
           pose proof (Nat.div_mod_eq (length l) 2).
           pose proof (Nat.mod_upper_bound (length l) 2 ltac:(lia)). lia.
        -- rewrite length_firstn. lia.
Qed.

(** [np.sum] over the reals. *)
Lemma np_sum_R (l : list R) : np_sum R_scalar l = fold_right Rplus 0 l.
Proof.
  unfold np_sum. cbn [s_add R_scalar].
  rewrite pairwise_sum_R, zero_R_scalar by lia. lra.
Qed.


End ExactSums.

(** * Exact arithmetic: structural similarity of an image with itself *)

Section ExactSSIM.
Local Open Scope R_scope.

(** The five-tap blur at one output position, written out. *)
Lemma correlate_blur (x : Z -> R) (s : Z) :
  correlate_at R_scalar (rev (blur_kernel R_scalar)) x s (zero R_scalar)
  = 120078 / 1000000 * x s
    + 233881 / 1000000 * x (s + 1)%Z
    + 292082 / 1000000 * x (s + 1 + 1)%Z
    + 233881 / 1000000 * x (s + 1 + 1 + 1)%Z
    + 120078 / 1000000 * x (s + 1 + 1 + 1 + 1)%Z.
Proof.
  unfold blur_kernel, zero, lit.
  cbn [rev app correlate_at s_add s_mul s_of_py R_scalar py_real].
  simpl pow. field.
Qed.

(** The blur of squares dominates the square of the blur: the weights are
    positive and sum to 1. *)
Lemma correlate_blur_square (a b : Z -> R) (s : Z) :
  (forall q, a q * a q <= b q) ->
  correlate_at R_scalar (rev (blur_kernel R_scalar)) a s (zero R_scalar)
  * correlate_at R_scalar (rev (blur_kernel R_scalar)) a s (zero R_scalar)
  <= correlate_at R_scalar (rev (blur_kernel R_scalar)) b s (zero R_scalar).
Proof.
  intros H. rewrite !correlate_blur.
  pose proof (H s) as H0. pose proof (H (s + 1)%Z) as H1.
  pose proof (H (s + 1 + 1)%Z) as H2. pose proof (H (s + 1 + 1 + 1)%Z) as H3.
  pose proof (H (s + 1 + 1 + 1 + 1)%Z) as H4.
  set (v0 := a s) in *. set (v1 := a (s + 1)%Z) in *.
  set (v2 := a (s + 1 + 1)%Z) in *. set (v3 := a (s + 1 + 1 + 1)%Z) in *.
  set (v4 := a (s + 1 + 1 + 1 + 1)%Z) in *.
  pose proof (Rle_0_sqr (v0 - v1)). pose proof (Rle_0_sqr (v0 - v2)).
  pose proof (Rle_0_sqr (v0 - v3)). pose proof (Rle_0_sqr (v0 - v4)).
  pose proof (Rle_0_sqr (v1 - v2)). pose proof (Rle_0_sqr (v1 - v3)).
  pose proof (Rle_0_sqr (v1 - v4)). pose proof (Rle_0_sqr (v2 - v3)).
  pose proof (Rle_0_sqr (v2 - v4)). pose proof (Rle_0_sqr (v3 - v4)).
  unfold Rsqr in *. lra.
Qed.

Lemma zero_R : zero R_scalar = 0.
Proof. unfold zero, lit. simpl. lra. Qed.

Lemma nth_tab (g : nat -> R) (n j : nat) :
  nth j (map g (seq 0 n)) 0 = if (j <? n)%nat then g j else 0.
Proof.
  destruct (Nat.ltb_spec j n).
  - now apply nth_map_seq.
  - apply nth_overflow. now rewrite length_map, length_seq.
Qed.

Lemma map2_tab (f : R -> R -> R) (g k : nat -> R) (l : list nat) :
  map2 f (map g l) (map k l) = map (fun p => f (g p) (k p)) l.
Proof.
  unfold map2. induction l as [ | x l IH]; simpl; [reflexivity | now rewrite IH].
Qed.

Lemma list_tab (l : list R) (n : nat) :
  length l = n -> l = map (fun p => nth p l 0) (seq 0 n).
Proof.
  intros H. apply nth_ext with (d := 0) (d' := 0).
  - now rewrite length_map, length_seq.
  - intros i Hi. rewrite nth_tab.
    destruct (Nat.ltb_spec i n); [reflexivity | lia].
Qed.

(** The dominance of squares passes through each one-dimensional
    convolution. *)
Lemma convolve_axis0_square (hh w : nat) (d d2 : list R) :
  (forall i, nth i d 0 * nth i d 0 <= nth i d2 0) ->
  forall j,
    nth j (convolve_axis0 R_scalar hh w (blur_kernel R_scalar) d) 0
    * nth j (convolve_axis0 R_scalar hh w (blur_kernel R_scalar) d) 0
    <= nth j (convolve_axis0 R_scalar hh w (blur_kernel R_scalar) d2) 0.
Proof.
  intros H j. unfold convolve_axis0. rewrite !nth_tab.
  destruct (j <? hh * w)%nat; [ | lra].
  apply correlate_blur_square. intros q. rewrite zero_R. apply H.
Qed.

Lemma convolve_axis1_square (hh w : nat) (d d2 : list R) :
  (forall i, nth i d 0 * nth i d 0 <= nth i d2 0) ->
  forall j,
    nth j (convolve_axis1 R_scalar hh w (blur_kernel R_scalar) d) 0
    * nth j (convolve_axis1 R_scalar hh w (blur_kernel R_scalar) d) 0
    <= nth j (convolve_axis1 R_scalar hh w (blur_kernel R_scalar) d2) 0.
Proof.
  intros H j. unfold convolve_axis1. rewrite !nth_tab.
  destruct (j <? hh * w)%nat; [ | lra].
  apply correlate_blur_square. intros q. rewrite zero_R. apply H.
Qed.

(** The local variance [blur(a*a) - blur(a)^2] is not negative. *)
Lemma blur_variance_nonneg (hh w : nat) (l : nat -> R) (p : nat) :
  let K := blur_kernel R_scalar in
  let L := map l (seq 0 (hh * w)) in
  let L2 := map (fun i => l i * l i) (seq 0 (hh * w)) in
  nth p (convolve_axis1 R_scalar hh w K (convolve_axis0 R_scalar hh w K L)) 0
  * nth p (convolve_axis1 R_scalar hh w K (convolve_axis0 R_scalar hh w K L)) 0
  <= nth p (convolve_axis1 R_scalar hh w K (convolve_axis0 R_scalar hh w K L2)) 0.
Proof.
  cbn zeta. apply convolve_axis1_square. apply convolve_axis0_square.
  intros i. rewrite !nth_tab. destruct (i <? hh * w)%nat; lra.
Qed.


(** Lengths of lists built from [map], [map2] and [seq]. *)
Ltac list_length :=
  first [ reflexivity
        | rewrite length_map; list_length
        | rewrite length_seq; list_length
        | rewrite map2_length; [list_length | list_length] ].

Lemma luminance_shape (a : ndarray R) (hh w c : nat) :
  shape a = [hh; w; c] -> (3 <= c)%nat ->
  exists L, luminance R_scalar a = Ok {| shape := [hh; w]; data := L |}
            /\ length L = (hh * w)%nat.
Proof.
  intros Hs Hc. unfold luminance, channel. cbn [np_map shape data]. rewrite Hs.
  destruct (Nat.ltb_spec 0 c); [ | lia].
  destruct (Nat.ltb_spec 1 c); [ | lia].
  destruct (Nat.ltb_spec 2 c); [ | lia].
  cbn [bind]. unfold np_add.
  rewrite np_binop_same_shape by reflexivity. cbn [bind].
  rewrite np_binop_same_shape by reflexivity. cbn [shape data].
  eexists. split; [reflexivity | ].
  cbn [np_map data]. list_length.
Qed.


Lemma blur_data (hh w : nat) (d : list R) :
  blur R_scalar {| shape := [hh; w]; data := d |}
  = Ok {| shape := [hh; w];
          data := convolve_axis1 R_scalar hh w (blur_kernel R_scalar)
                    (convolve_axis0 R_scalar hh w (blur_kernel R_scalar) d) |}.
Proof. reflexivity. Qed.

Lemma binop_data (f : R -> R -> R) (sh : list nat) (d1 d2 : list R) :
  np_binop R_scalar f {| shape := sh; data := d1 |} {| shape := sh; data := d2 |}
  = Ok {| shape := sh; data := map2 f d1 d2 |}.
Proof. now rewrite np_binop_same_shape. Qed.



Lemma zero_nonfinite_R (a : ndarray R) : zero_nonfinite R_scalar a = a.
Proof. apply np_map_id. apply Forall_forall. reflexivity. Qed.




End ExactSSIM.

(** * Round to nearest: the value of a rounded mantissa *)

Lemma digits2_upper (p : positive) : (Z.pos p < 2 ^ Z.pos (digits2_pos p))%Z.
Proof.
  induction p as [p IH | p IH | ]; simpl digits2_pos;
    try (rewrite Pos2Z.inj_succ, Z.pow_succ_r by lia; lia).
  simpl. lia.
Qed.

Lemma shr_1_record (m : Z) (r s : bool) :
  (0 <= m)%Z ->
  shr_1 {| shr_m := m; shr_r := r; shr_s := s |}
  = {| shr_m := (m / 2)%Z; shr_r := Z.odd m; shr_s := r || s |}.
Proof.
  intros H.
  pose proof (shr_1_m {| shr_m := m; shr_r := r; shr_s := s |} H) as Hm.
  cbn [shr_m] in Hm. rewrite <- Hm.
  destruct m as [ | [p | p | ] | p ]; try lia; reflexivity.
Qed.

(** After [k + 1] right shifts of [P]: the quotient, the last bit shifted
    out, and whether anything was shifted out before it. *)
Lemma shr_iter_record (P : Z) (k : nat) :
  (0 <= P)%Z ->
  Nat.iter (Datatypes.S k) shr_1 {| shr_m := P; shr_r := false; shr_s := false |}
  = {| shr_m := (P / 2 ^ (Z.of_nat k + 1))%Z;
       shr_r := Z.odd (P / 2 ^ Z.of_nat k);
       shr_s := negb (P mod 2 ^ Z.of_nat k =? 0)%Z |}.
Proof.
  intros HP. induction k as [ | k IH].
  - cbn [Nat.iter nat_rect]. rewrite shr_1_record by assumption.
    simpl Z.of_nat. rewrite Z.pow_0_r, Z.div_1_r, Z.mod_1_r. reflexivity.
  - rewrite Nat.iter_succ, IH.
    rewrite shr_1_record by (apply Z.div_pos; [assumption | apply Z.pow_pos_nonneg; lia]).
    rewrite Nat2Z.inj_succ.
    replace (Z.succ (Z.of_nat k) + 1)%Z with (Z.of_nat k + 1 + 1)%Z by lia.
    rewrite (Z.pow_add_r 2 (Z.of_nat k + 1) 1) by lia.
    rewrite Z.div_div by (try apply Z.pow_pos_nonneg; lia).
    replace (Z.succ (Z.of_nat k)) with (Z.of_nat k + 1)%Z by lia.
    f_equal.
    rewrite (Z.pow_add_r 2 (Z.of_nat k) 1) by lia.
    change (2 ^ 1)%Z with 2%Z.
    set (t := (2 ^ Z.of_nat k)%Z).
    assert (Ht : (0 < t)%Z) by (apply Z.pow_pos_nonneg; lia).
    rewrite (Z.rem_mul_r P t 2) by lia.
    pose proof (Z.mod_pos_bound P t Ht) as Ha.
    pose proof (Z.mod_pos_bound (P / t) 2 ltac:(lia)) as Hb.
    rewrite Zodd_mod.
    destruct (Z.eqb_spec ((P / t) mod 2) 1) as [E | E].
    + rewrite E. cbn [orb].
      destruct (Z.eqb_spec (P mod t + t * 1) 0); [lia | reflexivity].
    + assert (E0 : ((P / t) mod 2 = 0)%Z) by lia. rewrite E0. cbn [orb].
      replace (P mod t + t * 0)%Z with (P mod t)%Z by lia. reflexivity.
Qed.

(** Shifting [P] right by [n > 0] bits and rounding to nearest even moves
    it by at most half a unit of the new last place. *)
Lemma shr_round_nearest (P e n : Z) :
  (0 <= P)%Z -> (0 < n)%Z ->
  let rc := fst (shr {| shr_m := P; shr_r := false; shr_s := false |} e n) in
  let m := round_nearest_even (shr_m rc) (loc_of_shr_record rc) in
  (P / 2 ^ n <= m <= P / 2 ^ n + 1)%Z
  /\ (- 2 ^ n <= 2 * (m * 2 ^ n - P) <= 2 ^ n)%Z.
Proof.
  intros HP Hn. destruct n as [ | pn | pn ]; try lia.
  cbn zeta. cbn [shr fst]. rewrite iter_pos_nat.
  destruct (Pos2Nat.is_succ pn) as [k Hk]. rewrite Hk.
  rewrite shr_iter_record by assumption.
  assert (En : Z.pos pn = (Z.of_nat k + 1)%Z) by lia.
  rewrite En. cbn [shr_m loc_of_shr_record].
  rewrite (Z.pow_add_r 2 (Z.of_nat k) 1) by lia. change (2 ^ 1)%Z with 2%Z.
  set (t := (2 ^ Z.of_nat k)%Z).
  assert (Ht : (0 < t)%Z) by (apply Z.pow_pos_nonneg; lia).
  pose proof (Z.div_mod P (t * 2) ltac:(lia)) as Hdm.
  pose proof (Z.rem_mul_r P t 2 ltac:(lia) ltac:(lia)) as Hrem.
  pose proof (Z.mod_pos_bound P t Ht) as Ha.
  pose proof (Z.mod_pos_bound (P / t) 2 ltac:(lia)) as Hb.
  set (q := (P / (t * 2))%Z) in *.
  rewrite Zodd_mod.
  destruct (Z.eqb_spec ((P / t) mod 2) 1) as [E | E];
    destruct (Z.eqb_spec (P mod t) 0) as [E' | E']; cbn [negb round_nearest_even].
  - destruct (Z.even q); nia.
  - nia.
  - nia.
  - nia.
Qed.

Lemma digits2_unique (p : positive) (k : Z) :
  (2 ^ (k - 1) <= Z.pos p < 2 ^ k)%Z -> Z.pos (digits2_pos p) = k.
Proof.
  intros [Hlo Hhi].
  pose proof (digits2_lower p) as Hl. pose proof (digits2_upper p) as Hu.
  assert (Hk : (0 < k)%Z).
  { destruct (Z.ltb_spec 0 k); [assumption | ].
    assert (2 ^ k <= 2 ^ 0)%Z by (destruct (Z.eq_dec k 0) as [-> | ];
      [lia | rewrite Z.pow_neg_r by lia; simpl; lia]).
    simpl in *. lia. }
  assert (Z.pos (digits2_pos p) - 1 < k)%Z.
  { apply (Z.pow_lt_mono_r_iff 2); lia. }
  assert (k - 1 < Z.pos (digits2_pos p))%Z.
  { apply (Z.pow_lt_mono_r_iff 2); lia. }
  lia.
Qed.

Section RoundNearest.
Variables prec emax : Z.
Hypothesis Hprec : (1 < prec)%Z.

(** A mantissa of exactly [prec] digits at an exponent of the format is
    kept as it is. *)
Lemma binary_round_aux_exact (s : bool) (m : positive) (e : Z) :
  Z.pos (digits2_pos m) = prec ->
  (emin prec emax <= e <= emax - prec)%Z ->
  binary_round_aux prec emax s (Z.pos m) e loc_Exact = S754_finite s m e.
Proof.
  intros Hd He. unfold binary_round_aux, shr_fexp.
  cbn [Zdigits2]. rewrite Hd.
  assert (Hn : (fexp prec emax (prec + e) - e = 0)%Z) by (unfold fexp; lia).
  rewrite Hn. cbn [shr shr_record_of_loc shr_m loc_of_shr_record round_nearest_even].
  cbn [Zdigits2]. rewrite Hd, Hn. cbn [shr shr_record_of_loc shr_m].
  destruct (Z.leb_spec e (emax - prec)); [reflexivity | lia].
Qed.

(** A mantissa of more than [prec] digits, away from underflow and
    overflow, is rounded to nearest: the result is [m'' * 2^(e + n)] for an
    integer [m''] within half a unit of [m / 2^n]. *)
Lemma binary_round_aux_nearest (s : bool) (m : positive) (e : Z) :
  let n := (Z.pos (digits2_pos m) - prec)%Z in
  (0 < n)%Z ->
  (emin prec emax <= e + n)%Z ->
  (e + n + 1 <= emax - prec)%Z ->
  exists (mr : positive) (er m'' : Z),
    binary_round_aux prec emax s (Z.pos m) e loc_Exact = S754_finite s mr er
    /\ ((er = e + n /\ Z.pos mr = m'')%Z \/ (er = e + n + 1 /\ 2 * Z.pos mr = m'')%Z)
    /\ (- 2 ^ n <= 2 * (m'' * 2 ^ n - Z.pos m) <= 2 ^ n)%Z.
Proof.
  intros n Hn Hlo Hhi. unfold binary_round_aux, shr_fexp.
  cbn [Zdigits2 shr_record_of_loc].
  assert (Hf : (fexp prec emax (Z.pos (digits2_pos m) + e) - e = n)%Z)
    by (unfold fexp, n in *; lia).
  rewrite Hf.
  pose proof (shr_round_nearest (Z.pos m) e n ltac:(lia) Hn) as Hr.
  cbn zeta in Hr.
  pose proof (shr_m_value {| shr_m := Z.pos m; shr_r := false; shr_s := false |}
                e n ltac:(simpl; lia)) as [_ Hsnd].
  destruct (shr {| shr_m := Z.pos m; shr_r := false; shr_s := false |} e n)
    as [rc e'].
  cbn [fst snd] in Hr, Hsnd. rewrite Z.max_l in Hsnd by lia. subst e'.
  set (m'' := round_nearest_even (shr_m rc) (loc_of_shr_record rc)) in *.
  destruct Hr as [[Hq1 Hq2] Hnear].
  (* the quotient has exactly [prec] digits *)
  pose proof (digits2_lower m) as Hml. pose proof (digits2_upper m) as Hmu.
  assert (Hpn : (0 < 2 ^ n)%Z) by (apply Z.pow_pos_nonneg; lia).
  assert (Hsplit : (2 ^ Z.pos (digits2_pos m) = 2 ^ prec * 2 ^ n)%Z).
  { rewrite <- Z.pow_add_r by lia. f_equal. unfold n. lia. }
  assert (Hsplit' : (2 ^ (Z.pos (digits2_pos m) - 1) = 2 ^ (prec - 1) * 2 ^ n)%Z).
  { rewrite <- Z.pow_add_r by lia. f_equal. unfold n. lia. }
  assert (Hqlo : (2 ^ (prec - 1) <= Z.pos m / 2 ^ n)%Z).
  { apply Z.div_le_lower_bound; lia. }
  assert (Hqhi : (Z.pos m / 2 ^ n < 2 ^ prec)%Z).
  { apply Z.div_lt_upper_bound; lia. }
  assert (Hp1 : (0 < 2 ^ (prec - 1))%Z) by (apply Z.pow_pos_nonneg; lia).
  assert (Hpp : (2 ^ prec = 2 * 2 ^ (prec - 1))%Z).
  { rewrite <- Z.pow_succ_r by lia. f_equal. lia. }
  destruct m'' as [ | m''p | ] eqn:Em; try lia.
  cbn [Zdigits2].
  destruct (Z.ltb_spec (Z.pos m''p) (2 ^ prec)) as [Hlt | Hge].
  - (* no carry *)
    rewrite (digits2_unique m''p prec) by lia.
    assert (Hn2 : (fexp prec emax (prec + (e + n)) - (e + n) = 0)%Z)
      by (unfold fexp; lia).
    rewrite Hn2. cbn [shr shr_m].
    destruct (Z.leb_spec (e + n) (emax - prec)); [ | lia].
    exists m''p, (e + n)%Z, (Z.pos m''p). auto.
  - (* the rounding carried into a new digit *)
    assert (Ecarry : Z.pos m''p = (2 ^ prec)%Z) by lia.
    rewrite (digits2_unique m''p (prec + 1)).
    2:{ replace (prec + 1 - 1)%Z with prec by lia.
        rewrite Z.pow_add_r by lia. lia. }
    assert (Hn2 : (fexp prec emax (prec + 1 + (e + n)) - (e + n) = 1)%Z)
      by (unfold fexp; lia).
    rewrite Hn2. cbn [shr iter_pos]. rewrite shr_1_record by lia.
    cbn [shr_m]. rewrite Ecarry, Hpp.
    replace (2 * 2 ^ (prec - 1) / 2)%Z with (2 ^ (prec - 1))%Z
      by (rewrite Z.mul_comm, Z.div_mul; lia).
    destruct (2 ^ (prec - 1))%Z as [ | mr | ] eqn:Emr; try lia.
    destruct (Z.leb_spec (e + n + 1) (emax - prec)); [ | lia].
    exists mr, (e + n + 1)%Z, (Z.pos m''p).
    split; [reflexivity | ]. split; [right; lia | assumption].
Qed.

End RoundNearest.

Lemma iter_xO_value (p k : positive) :
  Z.pos (Pos.iter xO p k) = (Z.pos p * 2 ^ Z.pos k)%Z
  /\ digits2_pos (Pos.iter xO p k) = (digits2_pos p + k)%positive.
Proof.
  induction k as [ | k [IH1 IH2]] using Pos.peano_ind.
  - cbn [Pos.iter]. split; [rewrite Pos2Z.inj_xO; lia | ].
    cbn [digits2_pos]. lia.
  - rewrite Pos.iter_succ. split.
    + rewrite Pos2Z.inj_xO, IH1, Pos2Z.inj_succ, Z.pow_succ_r by lia. lia.
    + cbn [digits2_pos]. rewrite IH2. lia.
Qed.

(** An integer below 2^53 is a binary64 number: its conversion is exact,
    with a 53-bit mantissa. *)
Lemma SF_of_Z_exact64 (N : Z) :
  (0 < N < 2 ^ 53)%Z ->
  exists (mz : positive) (a : Z),
    SF_of_Z 53 1024 N = S754_finite false mz (- a)
    /\ (0 <= a <= 52)%Z
    /\ Z.pos (digits2_pos mz) = 53%Z
    /\ Z.pos mz = (N * 2 ^ a)%Z.
Proof.
  intros [HN0 HN]. destruct N as [ | p | p ]; try lia.
  pose proof (digits2_lower p) as Hl.
  assert (Hd : (Z.pos (digits2_pos p) <= 53)%Z).
  { destruct (Z.leb_spec (Z.pos (digits2_pos p)) 53); [assumption | ].
    assert (2 ^ 53 <= 2 ^ (Z.pos (digits2_pos p) - 1))%Z
      by (apply Z.pow_le_mono_r; lia).
    lia. }
  unfold SF_of_Z, binary_normalize, binary_round.
  assert (Hf : fexp 53 1024 (Z.pos (digits2_pos p) + 0)
               = (Z.pos (digits2_pos p) - 53)%Z)
    by (unfold fexp, emin; lia).
  rewrite Hf. unfold shl_align.
  destruct (Z.pos (digits2_pos p) - 53 - 0)%Z as [ | k | k ] eqn:Ek; try lia.
  - rewrite (binary_round_aux_exact 53 1024 false p 0 ltac:(lia)
               ltac:(unfold emin; lia)).
    exists p, 0%Z. simpl Z.opp. rewrite Z.pow_0_r.
    repeat split; try lia.
  - destruct (iter_xO_value p k) as [Hv Hdig].
    rewrite (binary_round_aux_exact 53 1024 false (Pos.iter xO p k)
               (Z.pos (digits2_pos p) - 53) ltac:(lia) ltac:(unfold emin; lia)).
    exists (Pos.iter xO p k), (Z.pos k).
    replace (Z.pos (digits2_pos p) - 53)%Z with (- Z.pos k)%Z by lia.
    repeat split; try lia.
Qed.

(** [int(0.000001 * size)] is [size // 1000000] for every size below 2^50:
    the double nearest to [1e-6] is [4722366482869645 * 2^-72], a little
    below [1e-6], and the product is rounded back up to the integer when
    [size] is a multiple of a million. *)
Lemma trim_skip_floor (n : nat) :
  (Z.of_nat n < 2 ^ 50)%Z ->
  trim_skip (PyLit 1 6) n = Ok (Z.of_nat n / 1000000)%Z.
Proof.
  intros Hn. unfold trim_skip.
  assert (Hc : py_eval (PyLit 1 6) = S754_finite false 4722366482869645 (-72))
    by (vm_compute; reflexivity).
  rewrite Hc. set (N := Z.of_nat n) in *.
  destruct (Z.eq_dec N 0) as [E0 | Hpos]; [rewrite E0; reflexivity | ].
  destruct (SF_of_Z_exact64 N) as [mz [a [EN [Ha [Hdz Hmz]]]]]; [lia | ].
  rewrite EN. cbn [SFmul xorb].
  set (mc := 4722366482869645%positive).
  pose proof (digits2_lower mz) as Hzl. pose proof (digits2_upper mz) as Hzu.
  rewrite Hdz in Hzl, Hzu. change (2 ^ (53 - 1))%Z with (2 ^ 52)%Z in Hzl.
  pose proof (digits2_lower (mc * mz)) as HPl.
  pose proof (digits2_upper (mc * mz)) as HPu.
  set (dP := Z.pos (digits2_pos (mc * mz))) in *.
  assert (HP104 : (2 ^ 104 <= Z.pos (mc * mz))%Z).
  { rewrite Pos2Z.inj_mul. change (2 ^ 104)%Z with (2 ^ 52 * 2 ^ 52)%Z.
    apply Z.mul_le_mono_nonneg; unfold mc; lia. }
  assert (HP106 : (Z.pos (mc * mz) < 2 ^ 106)%Z).
  { rewrite Pos2Z.inj_mul. change (2 ^ 106)%Z with (2 ^ 53 * 2 ^ 53)%Z.
    apply Z.mul_lt_mono_nonneg; unfold mc; lia. }
  assert (HdP : (105 <= dP <= 106)%Z).
  { split.
    - destruct (Z.leb_spec 105 dP); [assumption | ].
      assert (2 ^ dP <= 2 ^ 104)%Z by (apply Z.pow_le_mono_r; lia). lia.
    - destruct (Z.leb_spec dP 106); [assumption | ].
      assert (2 ^ 106 <= 2 ^ (dP - 1))%Z by (apply Z.pow_le_mono_r; lia). lia. }
  destruct (binary_round_aux_nearest 53 1024 ltac:(lia) false (mc * mz) (-72 + - a))
    as [mr [er [m'' [Eres [Her Hnear]]]]];
    try (fold dP; unfold emin; lia).
  fold dP in Her, Hnear. rewrite Eres.
  set (U := (2 ^ (dP - 53))%Z) in *.
  set (A := (2 ^ a)%Z) in *.
  set (g := (72 + a - (dP - 53))%Z).
  assert (Hg : (18 <= g)%Z) by (unfold g; lia).
  set (G := (2 ^ g)%Z).
  assert (HU : (0 < U)%Z) by (apply Z.pow_pos_nonneg; lia).
  assert (HA : (1 <= A)%Z) by (unfold A; apply (Z.pow_le_mono_r 2 0 a); lia).
  assert (HG : (0 < G)%Z) by (apply Z.pow_pos_nonneg; lia).
  assert (HGU : (G * U = 2 ^ 72 * A)%Z).
  { unfold G, U, A. rewrite <- !Z.pow_add_r by lia. f_equal. unfold g. lia. }
  assert (HU53 : (2 ^ dP = U * 2 ^ 53)%Z).
  { unfold U. rewrite <- Z.pow_add_r by lia. f_equal. lia. }
  assert (HUle : (U <= 2 ^ 53)%Z) by (unfold U; apply Z.pow_le_mono_r; lia).
  (* the float is [m'' / 2^g] after truncation *)
  assert (Htrunc : SF_trunc (S754_finite false mr er) = Ok (m'' / G)%Z).
  { unfold SF_trunc. cbn [cond_Zopp]. f_equal.
    destruct Her as [[Eer Emr] | [Eer Emr]].
    - destruct er as [ | pe | pe ]; try lia.
      rewrite Emr. f_equal. unfold G. f_equal. unfold g. lia.
    - destruct er as [ | pe | pe ]; try lia.
      rewrite <- Emr. unfold G.
      replace g with (1 + Z.pos pe)%Z by (unfold g; lia).
      rewrite Z.pow_add_r by lia. change (2 ^ 1)%Z with 2%Z.
      rewrite Z.div_mul_cancel_l; lia. }
  rewrite Htrunc. f_equal.
  (* the arithmetic *)
  rewrite Pos2Z.inj_mul, Hmz in Hnear, HPu.
  pose proof (Z.div_mod N 1000000 ltac:(lia)) as HNdiv.
  pose proof (Z.mod_pos_bound N 1000000 ltac:(lia)) as Hj.
  set (k := (N / 1000000)%Z) in *. set (j := (N mod 1000000)%Z) in *.
  assert (Hk : (0 <= k)%Z) by (apply Z.div_pos; lia).
  assert (Hm'' : (0 <= m'')%Z) by (destruct Her as [[_ <-] | [_ <-]]; lia).
  assert (HNA : (N * A = 1000000 * (k * A) + j * A)%Z) by (rewrite HNdiv; ring).
  assert (HjA : (0 <= j * A <= 999999 * A)%Z) by nia.
  assert (HkA : (0 <= k * A)%Z) by nia.
  assert (HP : (Z.pos mc * (N * A) = Z.pos mc * (N * A))%Z) by reflexivity.
  replace (Z.pos mc * (N * 2 ^ a))%Z with (Z.pos mc * (N * A))%Z in * by reflexivity.
  symmetry. apply Z.div_unique with (r := (m'' - G * k)%Z); [ | ring].
  left. split.
  - (* lower bound: m'' is on the grid at or above k * G *)
    destruct (Z.leb_spec (G * k) m''); [lia | exfalso].
    assert (H1 : (m'' * U <= (G * k - 1) * U)%Z) by (apply Z.mul_le_mono_nonneg_r; lia).
    assert (H2 : ((G * k - 1) * U = 2 ^ 72 * (k * A) - U)%Z).
    { replace ((G * k - 1) * U)%Z with (G * U * k - U)%Z by ring.
      rewrite HGU. ring. }
    assert (Hk1 : (1 <= k * A)%Z) by nia.
    unfold mc in *. lia.
  - (* upper bound *)
    destruct (Z.ltb_spec m'' (G * k + G)); [lia | exfalso].
    assert (H1 : ((G * k + G) * U <= m'' * U)%Z) by (apply Z.mul_le_mono_nonneg_r; lia).
    assert (H2 : ((G * k + G) * U = 2 ^ 72 * (k * A) + 2 ^ 72 * A)%Z).
    { replace ((G * k + G) * U)%Z with (G * U * k + G * U)%Z by ring.
      rewrite HGU. ring. }
    unfold mc in *. lia.
Qed.

(** * Round to nearest: what [binary_round] returns *)

Section RoundSpec.
Variables prec emax : Z.
Hypothesis Hprec : (1 < prec)%Z.
Hypothesis Hemax : (prec < emax)%Z.

Lemma bounded_intro (m : positive) (e : Z) :
  fexp prec emax (Z.pos (digits2_pos m) + e) = e ->
  (e <= emax - prec)%Z ->
  bounded prec emax m e = true.
Proof.
  intros Hc He. unfold bounded, canonical_mantissa.
  rewrite Hc. rewrite Z.eqb_refl.
  destruct (Z.leb_spec e (emax - prec)); [reflexivity | lia].
Qed.

Lemma binary_round_aux_spec (s : bool) (m : positive) (e : Z) :
  let t := fexp prec emax (Z.pos (digits2_pos m) + e) in
  (e <= t)%Z ->
  exists m1 : Z,
    (0 <= m1 <= 2 ^ prec)%Z
    /\ (Z.abs (2 * (m1 * 2 ^ (t - e) - Z.pos m)) <= 2 ^ (t - e))%Z
    /\ (t = e -> m1 = Z.pos m)
    /\ ((m1 = 0%Z
         /\ binary_round_aux prec emax s (Z.pos m) e loc_Exact = S754_zero s)
        \/ (exists (mr : positive) (er : Z),
               binary_round_aux prec emax s (Z.pos m) e loc_Exact
               = S754_finite s mr er
               /\ (t <= er)%Z /\ (Z.pos mr * 2 ^ (er - t) = m1)%Z
               /\ bounded prec emax mr er = true)
        \/ ((emax <= Z.pos (digits2_pos m) + e)%Z
            /\ binary_round_aux prec emax s (Z.pos m) e loc_Exact
               = S754_infinity s)).
Proof.
  intros t Ht.
  pose proof (digits2_lower m) as Hml. pose proof (digits2_upper m) as Hmu.
  set (d := Z.pos (digits2_pos m)) in *.
  assert (Hd : (0 < d)%Z) by (unfold d; lia).
  assert (Htdef : t = Z.max (d + e - prec) (emin prec emax)) by reflexivity.
  assert (Hemin : (emin prec emax <= emax - prec)%Z) by (unfold emin; lia).
  destruct (Z.eq_dec t e) as [Hte | Hte].
  - (* nothing to shift *)
    exists (Z.pos m).
    assert (Hdp : (d <= prec)%Z) by lia.
    assert (Hm2 : (Z.pos m < 2 ^ prec)%Z).
    { eapply Z.lt_le_trans; [exact Hmu | ]. apply Z.pow_le_mono_r; lia. }
    split; [lia | ]. split.
    { rewrite Hte, Z.sub_diag. change (2 ^ 0)%Z with 1%Z.
      rewrite Z.mul_1_r, Z.sub_diag. simpl. lia. }
    split; [reflexivity | ].
    right.
    assert (E : binary_round_aux prec emax s (Z.pos m) e loc_Exact
                = if (e <=? emax - prec)%Z then S754_finite s m e
                  else S754_infinity s).
    { unfold binary_round_aux, shr_fexp. cbn [Zdigits2].
      fold d. fold t. rewrite Hte, Z.sub_diag.
      cbn [shr shr_record_of_loc shr_m loc_of_shr_record round_nearest_even].
      cbn [Zdigits2]. fold d. fold t. rewrite Hte, Z.sub_diag.
      cbn [shr shr_record_of_loc shr_m]. reflexivity. }
    rewrite E.
    destruct (Z.leb_spec e (emax - prec)).
    + left. exists m, e. split; [reflexivity | ].
      split; [lia | ]. split.
      * rewrite Hte, Z.sub_diag. change (2 ^ 0)%Z with 1%Z. lia.
      * apply bounded_intro; [fold d; fold t; exact Hte | lia].
    + right. split; [lia | reflexivity].
  - (* a shift by [n > 0] *)
    set (n := (t - e)%Z).
    assert (Hn : (0 < n)%Z) by (unfold n; lia).
    pose proof (shr_round_nearest (Z.pos m) e n ltac:(lia) Hn) as Hr.
    cbn zeta in Hr.
    pose proof (shr_m_value {| shr_m := Z.pos m; shr_r := false; shr_s := false |}
                  e n ltac:(simpl; lia)) as [_ Hsnd].
    unfold binary_round_aux, shr_fexp.
    cbn [Zdigits2 shr_record_of_loc]. fold d. fold t. fold n.
    destruct (shr {| shr_m := Z.pos m; shr_r := false; shr_s := false |} e n)
      as [rc e'].
    cbn [fst snd] in Hr, Hsnd. rewrite Z.max_l in Hsnd by lia.
    replace (e + n)%Z with t in Hsnd by (unfold n; lia). subst e'.
    set (m'' := round_nearest_even (shr_m rc) (loc_of_shr_record rc)) in *.
    destruct Hr as [[Hq1 Hq2] Hnear].
    assert (Hpn : (0 < 2 ^ n)%Z) by (apply Z.pow_pos_nonneg; lia).
    assert (Hq0 : (0 <= Z.pos m / 2 ^ n)%Z) by (apply Z.div_pos; lia).
    assert (Hqhi : (Z.pos m / 2 ^ n < 2 ^ prec)%Z).
    { apply Z.div_lt_upper_bound; [lia | ].
      eapply Z.lt_le_trans; [exact Hmu | ].
      rewrite <- Z.pow_add_r by lia. apply Z.pow_le_mono_r; lia. }
    assert (Hp1 : (0 < 2 ^ (prec - 1))%Z) by (apply Z.pow_pos_nonneg; lia).
    assert (Hpp : (2 ^ prec = 2 * 2 ^ (prec - 1))%Z).
    { rewrite <- Z.pow_succ_r by lia. f_equal. lia. }
    exists m''.
    split; [lia | ]. split; [fold n; lia | ]. split; [intros; lia | ].
    destruct m'' as [ | m''p | ] eqn:Em; try lia.
    + (* the value rounds to zero *)
      left. split; [reflexivity | ].
      cbn [Zdigits2].
      assert (Hn2 : (fexp prec emax (0 + t) - t <= 0)%Z) by (unfold fexp; lia).
      destruct (fexp prec emax (0 + t) - t)%Z eqn:E2; try lia; reflexivity.
    + right. cbn [Zdigits2].
      destruct (Z.ltb_spec (Z.pos m''p) (2 ^ prec)) as [Hlt | Hge].
      * (* no carry *)
        pose proof (digits2_lower m''p) as Hl2.
        pose proof (digits2_upper m''p) as Hu2.
        set (d1 := Z.pos (digits2_pos m''p)) in *.
        assert (Hd1 : (d1 <= prec)%Z).
        { destruct (Z.leb_spec d1 prec); [assumption | ].
          assert (2 ^ prec <= 2 ^ (d1 - 1))%Z by (apply Z.pow_le_mono_r; lia).
          lia. }
        assert (Hcanon : fexp prec emax (d1 + t) = t).
        { unfold fexp. destruct (Z.eq_dec t (emin prec emax)) as [E | E]; [lia | ].
          (* normal range: the quotient has [prec] digits *)
          assert (Hnd : n = (d - prec)%Z) by (unfold n; lia).
          assert (Hqlo : (2 ^ (prec - 1) <= Z.pos m / 2 ^ n)%Z).
          { apply Z.div_le_lower_bound; [lia | ].
            eapply Z.le_trans; [ | exact Hml].
            rewrite <- Z.pow_add_r by lia. apply Z.pow_le_mono_r; lia. }
          assert (prec - 1 < d1)%Z.
          { apply (Z.pow_lt_mono_r_iff 2); lia. }
          lia. }
        rewrite Hcanon, Z.sub_diag. cbn [shr shr_m shr_record_of_loc].
        destruct (Z.leb_spec t (emax - prec)); [ | right; split; [lia | reflexivity]].
        left. exists m''p, t. split; [reflexivity | ]. split; [lia | ].
        split; [rewrite Z.sub_diag; change (2 ^ 0)%Z with 1%Z; lia | ].
        apply bounded_intro; [fold d1; exact Hcanon | lia].
      * (* the rounding carried into a new digit *)
        assert (Ecarry : Z.pos m''p = (2 ^ prec)%Z) by lia.
        rewrite (digits2_unique m''p (prec + 1)).
        2:{ replace (prec + 1 - 1)%Z with prec by lia.
            rewrite Z.pow_add_r by lia. lia. }
        assert (Hnorm : t = (d + e - prec)%Z).
        { destruct (Z.eq_dec t (d + e - prec)); [assumption | ].
          exfalso.
          assert (Hnd : (d - prec < n)%Z) by (unfold n; lia).
          assert (Z.pos m / 2 ^ n < 2 ^ (prec - 1))%Z.
          { apply Z.div_lt_upper_bound; [lia | ].
            eapply Z.lt_le_trans; [exact Hmu | ].
            rewrite <- Z.pow_add_r by lia. apply Z.pow_le_mono_r; lia. }
          lia. }
        assert (Hn2 : (fexp prec emax (prec + 1 + t) - t = 1)%Z)
          by (unfold fexp; lia).
        rewrite Hn2. cbn [shr iter_pos]. rewrite shr_1_record by lia.
        cbn [shr_m]. rewrite Ecarry, Hpp.
        replace (2 * 2 ^ (prec - 1) / 2)%Z with (2 ^ (prec - 1))%Z
          by (rewrite Z.mul_comm, Z.div_mul; lia).
        destruct (2 ^ (prec - 1))%Z as [ | mr | ] eqn:Emr; try lia.
        destruct (Z.leb_spec (t + 1) (emax - prec));
          [ | right; split; [lia | reflexivity]].
        left. exists mr, (t + 1)%Z. split; [reflexivity | ]. split; [lia | ].
        split.
        -- replace (t + 1 - t)%Z with 1%Z by lia. change (2 ^ 1)%Z with 2%Z. lia.
        -- apply bounded_intro; [ | lia].
           assert (Hdm : Z.pos (digits2_pos mr) = prec)
             by (apply digits2_unique; lia).
           rewrite Hdm. unfold fexp. lia.
Qed.

End RoundSpec.

Lemma shr_exact_shift (M j : positive) :
  Nat.iter (Pos.to_nat j) shr_1
    {| shr_m := Z.pos (Pos.iter xO M j); shr_r := false; shr_s := false |}
  = {| shr_m := Z.pos M; shr_r := false; shr_s := false |}.
Proof.
  destruct (Pos2Nat.is_succ j) as [k Hk]. rewrite Hk.
  rewrite shr_iter_record by lia.
  destruct (iter_xO_value M j) as [Hv _]. rewrite Hv.
  assert (Ej : Z.pos j = (Z.of_nat k + 1)%Z) by lia.
  rewrite Ej.
  assert (Hk2 : (0 < 2 ^ Z.of_nat k)%Z) by (apply Z.pow_pos_nonneg; lia).
  rewrite (Z.pow_add_r 2 (Z.of_nat k) 1) by lia. change (2 ^ 1)%Z with 2%Z.
  f_equal.
  - rewrite Z.div_mul; lia.
  - replace (Z.pos M * (2 ^ Z.of_nat k * 2))%Z
      with ((Z.pos M * 2) * 2 ^ Z.of_nat k)%Z by lia.
    rewrite Z.div_mul by lia. rewrite Z.odd_mul. simpl. apply andb_false_r.
  - replace (Z.pos M * (2 ^ Z.of_nat k * 2))%Z
      with ((Z.pos M * 2) * 2 ^ Z.of_nat k)%Z by lia.
    rewrite Z.mod_mul by lia. reflexivity.
Qed.

Section RoundShift.
Variables prec emax : Z.
Hypothesis Hprec : (1 < prec)%Z.

(** Rounding sees the value only: trailing zero bits of the mantissa can be
    moved into the exponent. *)
Lemma binary_round_aux_shift (s : bool) (M j : positive) (E : Z) :
  (E <= fexp prec emax (Z.pos (digits2_pos M) + E))%Z ->
  binary_round_aux prec emax s (Z.pos (Pos.iter xO M j)) (E - Z.pos j) loc_Exact
  = binary_round_aux prec emax s (Z.pos M) E loc_Exact.
Proof.
  intros Hn. unfold binary_round_aux.
  assert (H1 : shr_fexp prec emax (Z.pos (Pos.iter xO M j)) (E - Z.pos j) loc_Exact
               = shr_fexp prec emax (Z.pos M) E loc_Exact).
  { unfold shr_fexp. cbn [Zdigits2 shr_record_of_loc].
    destruct (iter_xO_value M j) as [_ Hd]. rewrite Hd.
    rewrite Pos2Z.inj_add.
    replace (Z.pos (digits2_pos M) + Z.pos j + (E - Z.pos j))%Z
      with (Z.pos (digits2_pos M) + E)%Z by lia.
    set (t := fexp prec emax (Z.pos (digits2_pos M) + E)) in *.
    destruct (t - E)%Z as [ | pn | pn ] eqn:En; try lia.
    - replace (t - (E - Z.pos j))%Z with (Z.pos j) by lia.
      cbn [shr]. rewrite iter_pos_nat, shr_exact_shift. f_equal. lia.
    - replace (t - (E - Z.pos j))%Z with (Z.pos (pn + j)) by lia.
      cbn [shr]. rewrite !iter_pos_nat, Pos2Nat.inj_add, Nat.iter_add.
      rewrite shr_exact_shift. f_equal. lia. }
  rewrite H1. reflexivity.
Qed.

Lemma shift_pos_iter (k m : positive) : shift_pos k m = Pos.iter xO m k.
Proof. reflexivity. Qed.

Lemma binary_round_shift (s : bool) (m k : positive) (e : Z) :
  binary_round prec emax s (Pos.iter xO m k) (e - Z.pos k)
  = binary_round prec emax s m e.
Proof.
  unfold binary_round.
  destruct (iter_xO_value m k) as [_ Hd]. rewrite Hd, Pos2Z.inj_add.
  replace (Z.pos (digits2_pos m) + Z.pos k + (e - Z.pos k))%Z
    with (Z.pos (digits2_pos m) + e)%Z by lia.
  set (t := fexp prec emax (Z.pos (digits2_pos m) + e)).
  unfold shl_align.
  destruct (t - e)%Z as [ | pn | pn ] eqn:En.
  - (* t = e *)
    replace (t - (e - Z.pos k))%Z with (Z.pos k) by lia.
    apply binary_round_aux_shift. fold t. lia.
  - replace (t - (e - Z.pos k))%Z with (Z.pos (pn + k)) by lia.
    apply binary_round_aux_shift. fold t. lia.
  - (* t < e: the mantissa of the right-hand side is shifted left *)
    destruct (t - (e - Z.pos k))%Z as [ | q | q ] eqn:Eq.
    + (* t = e - k *)
      assert (pn = k) by lia. subst pn.
      f_equal. lia.
    + (* e - k < t *)
      assert (Hk : (k = q + pn)%positive) by lia.
      subst k.
      rewrite Pos.iter_add.
      replace (e - Z.pos (q + pn))%Z with (t - Z.pos q)%Z by lia.
      apply binary_round_aux_shift.
      destruct (iter_xO_value m pn) as [_ Hd2]. rewrite Hd2, Pos2Z.inj_add.
      replace (Z.pos (digits2_pos m) + Z.pos pn + t)%Z
        with (Z.pos (digits2_pos m) + e + 0)%Z by lia.
      rewrite Z.add_0_r. fold t. lia.
    + (* t < e - k *)
      assert (Hq : (pn = k + q)%positive) by lia. subst pn.
      rewrite (Pos.add_comm k q), Pos.iter_add. reflexivity.
Qed.

End RoundShift.

Section RoundValid.
Variables prec emax : Z.
Hypothesis Hprec : (1 < prec)%Z.
Hypothesis Hemax : (prec < emax)%Z.

Lemma shl_align_spec (m : positive) (e t : Z) :
  exists (mz : positive) (ez : Z),
    shl_align m e t = (mz, ez)
    /\ ez = Z.min e t
    /\ Z.pos mz = (Z.pos m * 2 ^ (e - ez))%Z
    /\ (Z.pos (digits2_pos mz) + ez = Z.pos (digits2_pos m) + e)%Z.
Proof.
  unfold shl_align. destruct (t - e)%Z as [ | p | p ] eqn:E.
  - exists m, e. rewrite Z.sub_diag. change (2 ^ 0)%Z with 1%Z.
    repeat split; lia.
  - exists m, e. rewrite Z.sub_diag. change (2 ^ 0)%Z with 1%Z.
    repeat split; lia.
  - exists (Pos.iter xO m p), t.
    destruct (iter_xO_value m p) as [Hv Hd].
    split; [reflexivity | ]. split; [lia | ]. split.
    + rewrite Hv. f_equal. f_equal. lia.
    + rewrite Hd, Pos2Z.inj_add. lia.
Qed.

(** What [binary_round] returns is a number of the format. *)
Lemma binary_round_valid (s : bool) (m : positive) (e : Z) :
  valid_binary prec emax (binary_round prec emax s m e) = true.
Proof.
  unfold binary_round.
  destruct (shl_align_spec m e (fexp prec emax (Z.pos (digits2_pos m) + e)))
    as [mz [ez [E [Hez [_ Hd]]]]].
  rewrite E.
  destruct (binary_round_aux_spec prec emax Hprec Hemax s mz ez)
    as [m1 [_ [_ [_ [[_ R] | [[mr [er [R [_ [_ Hb]]]]] | [_ R]]]]]]].
  - rewrite Hd. lia.
  - now rewrite R.
  - rewrite R. exact Hb.
  - now rewrite R.
Qed.

Lemma SF_cast_valid (x : spec_float) :
  valid_binary prec emax (SF_cast prec emax x) = true.
Proof. destruct x; try reflexivity. apply binary_round_valid. Qed.

(** The shape of a number of the format: a full mantissa, or the least
    exponent. *)
Lemma bounded_canonical (m : positive) (e : Z) :
  bounded prec emax m e = true ->
  (e <= emax - prec)%Z
  /\ ((Z.pos (digits2_pos m) = prec /\ emin prec emax <= e)%Z
      \/ (Z.pos (digits2_pos m) < prec /\ e = emin prec emax)%Z).
Proof.
  unfold bounded, canonical_mantissa. intros H.
  apply andb_true_iff in H. destruct H as [H1 H2].
  apply Z.eqb_eq in H1. apply Z.leb_le in H2.
  split; [exact H2 | ]. unfold fexp in H1. lia.
Qed.

End RoundValid.

(** ** binary16 bit patterns *)

Lemma div_mod_1024 (a q r : Z) :
  (0 <= r < 1024)%Z -> a = (q * 1024 + r)%Z ->
  (a / 1024 = q /\ a mod 1024 = r)%Z.
Proof.
  intros Hr ->. split.
  - symmetry. apply Z.div_unique with (r := r); lia.
  - symmetry. apply Z.mod_unique with (q := q); lia.
Qed.

Lemma half_value_bits (y : spec_float) :
  valid_binary 11 16 y = true -> half_value (half_bits y) = y.
Proof.
  destruct y as [s | s | | s m e]; intros Hv.
  - destruct s; reflexivity.
  - destruct s; reflexivity.
  - reflexivity.
  - cbn [valid_binary] in Hv.
    destruct (bounded_canonical 11 16 m e Hv) as [He Hc].
    change (emin 11 16) with (-24)%Z in Hc. change (16 - 11)%Z with 5%Z in He.
    pose proof (digits2_lower m) as Hl. pose proof (digits2_upper m) as Hu.
    unfold half_bits, half_value.
    set (S := sign_bit s).
    assert (HS : (S = (if s then 32 else 0) * 1024)%Z) by (destruct s; reflexivity).
    set (B := ((e + 24) * 1024 + Z.pos m)%Z).
    assert (HB : (exists E f, B = E * 1024 + f /\ 0 <= f < 1024 /\ 0 <= E <= 30
                   /\ ((E = 0 /\ e = -24 /\ f = Z.pos m)
                       \/ (0 < E /\ E = e + 25 /\ f + 1024 = Z.pos m)))%Z).
    { destruct Hc as [[Hd Hlo] | [Hd Ee]].
      - rewrite Hd in Hl, Hu. change (2 ^ (11 - 1))%Z with 1024%Z in Hl.
        change (2 ^ 11)%Z with 2048%Z in Hu.
        exists (e + 25)%Z, (Z.pos m - 1024)%Z. unfold B.
        repeat split; lia.
      - assert (Hm : (Z.pos m < 2 ^ 10)%Z).
        { eapply Z.lt_le_trans; [exact Hu | ]. apply Z.pow_le_mono_r; lia. }
        change (2 ^ 10)%Z with 1024%Z in Hm.
        exists 0%Z, (Z.pos m). unfold B. subst e.
        repeat split; lia. }
    destruct HB as [E [f [HBeq [Hf [HE Hcase]]]]].
    rewrite (Z.mod_small B 32768) by lia.
    destruct (div_mod_1024 (S + B) ((if s then 32 else 0) + E) f Hf)
      as [Hq Hr]; [lia | ].
    rewrite Hq, Hr.
    assert (Hs : (32768 <=? (S + B) mod 65536)%Z = s).
    { rewrite Z.mod_small by (destruct s; lia).
      destruct s.
      - apply Z.leb_le. lia.
      - apply Z.leb_gt. lia. }
    rewrite Hs.
    assert (HEm : (((if s then 32 else 0) + E) mod 32 = E)%Z).
    { destruct s.
      - replace (32 + E)%Z with (E + 1 * 32)%Z by lia.
        rewrite Z.mod_add by lia. apply Z.mod_small. lia.
      - rewrite Z.add_0_l. apply Z.mod_small. lia. }
    rewrite HEm.
    destruct (Z.eqb_spec E 31); [lia | ].
    destruct Hcase as [[E0 [Ee Ef]] | [E0 [Ee Ef]]].
    + subst E e f. reflexivity.
    + destruct (Z.eqb_spec E 0); [lia | ].
      rewrite Ef. f_equal. lia.
Qed.

(** A half float read back is the binary32 conversion of the binary16
    rounding of what was written. *)
Lemma half_round_trip (x : spec_float) :
  half_to_float32 (astype_float16 x) = SF_cast 24 128 (SF_cast 11 16 x).
Proof.
  unfold half_to_float32, astype_float16.
  rewrite half_value_bits; [reflexivity | ].
  apply SF_cast_valid; lia.
Qed.

(** The conversion of a binary32 number to binary64 is exact: it only
    pads the mantissa to 53 bits. *)
Lemma SF_cast_64_of_32 (s : bool) (m : positive) (e : Z) :
  bounded 24 128 m e = true ->
  exists k : positive,
    SF_cast 53 1024 (S754_finite s m e)
    = S754_finite s (Pos.iter xO m k) (e - Z.pos k).
Proof.
  intros Hb.
  destruct (bounded_canonical 24 128 m e Hb) as [He Hc].
  change (emin 24 128) with (-149)%Z in Hc. change (128 - 24)%Z with 104%Z in He.
  cbn [SF_cast]. unfold binary_round.
  set (d := Z.pos (digits2_pos m)) in *.
  assert (Hd : (0 < d <= 24)%Z) by (unfold d; lia).
  assert (Hf : fexp 53 1024 (d + e) = (d + e - 53)%Z)
    by (unfold fexp, emin; lia).
  rewrite Hf. unfold shl_align.
  destruct (d + e - 53 - e)%Z as [ | k | k ] eqn:Ek; try lia.
  exists k.
  destruct (iter_xO_value m k) as [Hv Hdig].
  rewrite (binary_round_aux_exact 53 1024 s (Pos.iter xO m k)
             (d + e - 53)).
  - f_equal. lia.
  - rewrite Hdig, Pos2Z.inj_add. fold d. lia.
  - unfold emin. lia.
Qed.

(** So rounding to binary16 by way of binary64, as the padded image is,
    rounds once. *)
Lemma SF_cast_16_through_64 (x : spec_float) :
  valid_binary 24 128 x = true ->
  SF_cast 11 16 (SF_cast 53 1024 x) = SF_cast 11 16 x.
Proof.
  destruct x as [s | s | | s m e]; try reflexivity.
  cbn [valid_binary]. intros Hb.
  destruct (SF_cast_64_of_32 s m e Hb) as [k ->].
  cbn [SF_cast]. apply binary_round_shift.
Qed.

(** * The [.bin] round trip *)

Lemma nth_flat_map_const (A B : Type) (f : A -> list B) (l : list A)
    (n p k : nat) (d : B) (a0 : A) :
  (forall x, In x l -> length (f x) = n) -> p < length l -> k < n ->
  nth (p * n + k) (flat_map f l) d = nth k (f (nth p l a0)) d.
Proof.
  revert p. induction l as [ | x l IH]; intros p Hf Hp Hk.
  - simpl in Hp. lia.
  - cbn [flat_map]. destruct p as [ | p].
    + cbn [Nat.mul Nat.add nth].
      rewrite app_nth1 by (rewrite Hf; [lia | now left]). reflexivity.
    + rewrite app_nth2 by (rewrite Hf; [lia | now left]).
      rewrite Hf by now left.
      replace (Datatypes.S p * n + k - n) with (p * n + k) by lia.
      cbn [nth]. apply IH; [ | simpl in Hp; lia | assumption].
      intros y Hy. apply Hf. now right.
Qed.

Section BinRoundTrip.
Variable powf : spec_float -> spec_float -> spec_float.
Variable cd : codecs.

(** An element of the padded image the writer serialises. *)
Lemma dstack_ones_nth (hh w c : nat) (d : list spec_float) (p k : nat) :
  length d = hh * w * c -> c <= 4 -> p < hh * w -> k < 4 ->
  nth (p * 4 + k) (data (dstack_ones hh w c d)) S754_nan
  = if k <? c then SF_cast 53 1024 (nth (p * c + k) d S754_nan)
    else py_eval (PyLit 1 0).
Proof.
  intros Hlen Hc Hp Hk. unfold dstack_ones. cbn [data].
  assert (Hchunk : forall q, q < hh * w ->
                     length (firstn c (skipn (q * c) d)) = c).
  { intros q Hq. rewrite length_firstn, length_skipn. nia. }
  rewrite (nth_flat_map_const _ _ _ _ 4 p k S754_nan 0).
  - rewrite seq_nth by lia. cbn [Nat.add].
    destruct (Nat.ltb_spec k c).
    + rewrite app_nth1 by (rewrite length_map, Hchunk; lia).
      change S754_nan with (SF_cast 53 1024 S754_nan) at 1.
      rewrite map_nth. f_equal.
      rewrite nth_firstn.
      destruct (Nat.ltb_spec k c); [ | lia].
      rewrite nth_skipn. reflexivity.
    + rewrite app_nth2 by (rewrite length_map, Hchunk; lia).
      rewrite length_map, Hchunk by lia.
      apply nth_repeat_lt. lia.
  - intros x Hx. apply in_seq in Hx.
    rewrite length_app, length_map, repeat_length, Hchunk by lia. lia.
  - now rewrite length_seq.
  - assumption.
Qed.

(** C5, as amended.  For every image of at most four channels whose height
    and width are below 2^31 (and whose element count fits a C [ssize_t]),
    writing it to a [.bin] path and reading the path back succeeds and
    gives an image of shape (h, w, 4) in which channel [k] of pixel [p] is
    the binary16 rounding of that channel of the pixel of the image
    written, converted back to binary32, for [k < c], and 1.0 for the
    channels added.  (With fewer than four channels the image is padded in
    binary64; its entries are binary32 numbers, which binary64 holds
    exactly.) *)
Theorem bin_round_trip
    (file : string) (fs : filesystem) (img : ndarray spec_float)
    (hh w c : nat) (quality : Z) :
  splitext_ext file = ".bin"%string ->
  shape img = [hh; w; c] ->
  c <= 4 ->
  length (data img) = hh * w * c ->
  (c < 4 -> Forall (fun x => valid_binary 24 128 x = true) (data img)) ->
  (Z.of_nat hh < 2 ^ 31)%Z ->
  (Z.of_nat w < 2 ^ 31)%Z ->
  (Z.of_nat (hh * w * 4) < 2 ^ 63)%Z ->
  exists (fs' : filesystem) (out : ndarray spec_float),
    write_image powf cd file img quality fs = (Ok tt, fs')
    /\ read_image powf cd file fs' = Ok out
    /\ shape out = [hh; w; 4]
    /\ length (data out) = hh * w * 4
    /\ forall p k : nat, p < hh * w -> k < 4 ->
         nth (p * 4 + k) (data out) S754_nan
         = if k <? c
           then SF_cast 24 128
                  (SF_cast 11 16 (nth (p * c + k) (data img) S754_nan))
           else S754_finite false 8388608 (-23).
Proof.
  intros Hext Hs Hc Hlen Hvalid Hh Hw Hmax.
  set (img4 := if c <? 4 then dstack_ones hh w c (data img) else img).
  destruct (bin_image_shape img hh w c Hs Hc Hlen) as [Hbin [Hs4 Hl4]].
  fold img4 in Hbin, Hs4, Hl4.
  destruct (struct_unpack_pack (Z.of_nat hh) (Z.of_nat w) ltac:(lia) ltac:(lia))
    as [hdr [Hpack [Hhdr Hun]]].
  exists (fs_write fs file (hdr ++ tobytes_f16 (map astype_float16 (data img4)))).
  exists {| shape := [hh; w; 4];
            data := map (fun x => SF_cast 24 128 (SF_cast 11 16 x)) (data img4) |}.
  split; [ | split; [ | split; [reflexivity | split]]].
  - unfold write_image. rewrite Hext. cbn [String.eqb Ascii.eqb Bool.eqb].
    rewrite Hbin, Hs4. cbn [nth]. now rewrite Hpack.
  - rewrite (read_image_bin _ _ _ _ Hext).
    unfold fs_read, fs_write. rewrite String.eqb_refl. cbn [bind].
    assert (Hl : Z.of_nat (length (map astype_float16 (data img4)))
                 = (Z.of_nat hh * Z.of_nat w * 4)%Z).
    { rewrite length_map, Hl4. lia. }
    assert (Hr : Forall (fun z => 0 <= z < 65536)%Z (map astype_float16 (data img4))).
    { apply Forall_forall. intros z Hz.
      apply in_map_iff in Hz. destruct Hz as [x [<- _]]. apply half_bits_range. }
    rewrite (read_bin_written hdr _ (Z.of_nat hh) (Z.of_nat w) Hhdr Hun
               ltac:(lia) ltac:(lia) Hl ltac:(lia) ltac:(lia) Hr).
    rewrite !Nat2Z.id, map_map. do 2 f_equal.
    apply map_ext. exact half_round_trip.
  - cbn [data]. now rewrite length_map.
  - intros p k Hp Hk. cbn [data].
    change S754_nan with (SF_cast 24 128 (SF_cast 11 16 S754_nan)) at 1.
    rewrite (map_nth (fun x => SF_cast 24 128 (SF_cast 11 16 x))).
    unfold img4. destruct (Nat.ltb_spec c 4) as [Hc4 | Hc4].
    + rewrite dstack_ones_nth by assumption.
      destruct (Nat.ltb_spec k c) as [Hkc | Hkc].
      * rewrite SF_cast_16_through_64; [reflexivity | ].
        specialize (Hvalid Hc4).
        rewrite Forall_forall in Hvalid. apply Hvalid. apply nth_In. nia.
      * vm_compute. reflexivity.
    + assert (c = 4) by lia. subst c.
      destruct (Nat.ltb_spec k 4); [reflexivity | lia].
Qed.

End BinRoundTrip.

(** ** The trimmed metric ["MtRSE"] *)

Section Trimmed.
Variable T : Type.
Variable S : Scalar T.

Lemma insert_sorted_length (x : T) (l : list T) :
  length (insert_sorted S x l) = Datatypes.S (length l).
Proof.
  induction l as [ | y r IH]; simpl; [reflexivity | ].
  destruct (sorts_before S y x); simpl; [now rewrite IH | reflexivity].
Qed.

Lemma np_sort_length (l : list T) : length (np_sort S l) = length l.
Proof.
  induction l as [ | x r IH]; simpl; [reflexivity | ].
  now rewrite insert_sorted_length, IH.
Qed.

(** [l[k : len - k]] drops [k] elements at each end. *)
Lemma py_slice_middle (l : list T) (k : Z) :
  (0 <= k <= Z.of_nat (length l))%Z ->
  py_slice l k (Z.of_nat (length l) - k)
  = firstn (length l - 2 * Z.to_nat k) (skipn (Z.to_nat k) l).
Proof.
  intros Hk. unfold py_slice, py_bound.
  destruct (Z.ltb_spec k 0); [lia | ].
  destruct (Z.ltb_spec (Z.of_nat (length l) - k) 0); [lia | ].
  rewrite Z.min_l by lia. rewrite Z.min_l by lia.
  f_equal. lia.
Qed.

Lemma trim_trimmed_mean (e : ndarray T) :
  (Z.of_nat (length (data e)) < 2 ^ 50)%Z ->
  let N := length (data e) in
  let k := Z.to_nat (Z.of_nat N / 1000000) in
  trim S e (PyLit 1 6)
  = Ok (mean_list S (firstn (N - 2 * k) (skipn k (np_sort S (data e))))).
Proof.
  intros HN N k. unfold trim.
  set (srt := np_sort S (data e)).
  assert (Hlen : length srt = N) by apply np_sort_length.
  rewrite trim_skip_floor by (rewrite Hlen; exact HN).
  cbn [bind]. rewrite py_slice_middle.
  - now rewrite Hlen.
  - rewrite Hlen. split.
    + apply Z.div_pos; lia.
    + apply Z.div_le_upper_bound; lia.
Qed.

Lemma as_array_not_scalar (r : result (ndarray T)) (x : T) :
  as_array r <> Ok (VScalar x).
Proof. destruct r; simpl; discriminate. Qed.

Lemma array_metric_dispatch (metric : string) (a b : ndarray T) (x : T) :
  metric <> "MtRSE"%string -> metric_dispatch S metric a b <> Ok (VScalar x).
Proof.
  intros Hne. unfold metric_dispatch.
  repeat match goal with
         | |- context [String.eqb metric ?s] =>
             destruct (String.eqb_spec metric s) as [E | _];
             [ try (exfalso; exact (Hne E)); apply as_array_not_scalar | ]
         end.
  discriminate.
Qed.

Lemma insert_sorted_Permutation (x : T) (l : list T) :
  Permutation (insert_sorted S x l) (x :: l).
Proof.
  induction l as [ | y r IH]; cbn [insert_sorted]; [apply Permutation_refl | ].
  destruct (sorts_before S y x); [ | apply Permutation_refl].
  apply Permutation_trans with (y :: x :: r); [now apply perm_skip | apply perm_swap].
Qed.

Lemma np_sort_Permutation (l : list T) : Permutation (np_sort S l) l.
Proof.
  induction l as [ | x r IH]; cbn [np_sort fold_right]; [apply perm_nil | ].
  apply Permutation_trans with (x :: np_sort S r).
  - apply insert_sorted_Permutation.
  - now apply perm_skip.
Qed.

Lemma insert_sorted_Forall (P : T -> Prop) (x : T) (l : list T) :
  P x -> Forall P l -> Forall P (insert_sorted S x l).
Proof.
  intros Hx Hl.
  apply (Permutation_Forall (Permutation_sym (insert_sorted_Permutation x l))).
  now constructor.
Qed.
End Trimmed.

(** *** [np.sort] on binary32: a sorted rearrangement *)

Lemma SFcompare_antisym (x y : spec_float) :
  SFcompare y x = option_map CompOpp (SFcompare x y).
Proof.
  destruct x as [sx | sx | | sx mx ex], y as [sy | sy | | sy my ey];
    try reflexivity; try (destruct sx; reflexivity);
    try (destruct sy; reflexivity); try (destruct sx, sy; reflexivity).
  destruct sx, sy; simpl; try reflexivity.
  - rewrite (Z.compare_antisym ey ex).
    destruct (ey ?= ex)%Z; simpl; try reflexivity.
    rewrite (Pos.compare_cont_antisym mx my Eq). simpl.
    now destruct (Pos.compare_cont Eq mx my).
  - rewrite (Z.compare_antisym ey ex).
    destruct (ey ?= ex)%Z; simpl; try reflexivity.
    now rewrite (Pos.compare_cont_antisym mx my Eq).
Qed.

Lemma SFleb_trans (x y z : spec_float) :
  SFleb x y = true -> SFleb y z = true -> SFleb x z = true.
Proof.
  unfold SFleb.
  destruct x as [sx | sx | | sx mx ex], y as [sy | sy | | sy my ey],
           z as [sz | sz | | sz mz ez]; try discriminate;
    try (destruct sx); try (destruct sy); try (destruct sz);
    simpl; try discriminate; try reflexivity.
  all: rewrite ?Pos.compare_cont_spec; simpl.
  all: destruct (Z.compare_spec ex ey), (Z.compare_spec ey ez),
         (Z.compare_spec ex ez); try lia; try discriminate; try reflexivity;
       repeat match goal with
              | |- context [Pos.compare ?a ?b] => destruct (Pos.compare_spec a b)
              end; simpl; try discriminate; try reflexivity; try lia.
Qed.


Section TrimmedBinary32.
Variable powf : spec_float -> spec_float -> spec_float.
Local Abbreviation F := (f32_scalar powf).

Lemma SFleb_total (x y : spec_float) :
  SF_is_nan x = false -> SF_is_nan y = false ->
  SFltb y x = false -> SFleb x y = true.
Proof.
  intros Hx Hy. unfold SFltb, SFleb. rewrite (SFcompare_antisym x y).
  destruct (SFcompare x y) as [[ | | ] | ] eqn:E; simpl; try congruence.
  destruct x, y; discriminate.
Qed.

Lemma SFltb_SFleb (x y : spec_float) : SFltb x y = true -> SFleb x y = true.
Proof.
  unfold SFltb, SFleb. destruct (SFcompare x y) as [[ | | ] | ]; congruence.
Qed.

Lemma sorts_before_ascending (x y : spec_float) :
  sorts_before F y x = true -> ascending y x.
Proof.
  unfold sorts_before, ascending. cbn [s_lt s_isnan f32_scalar].
  intros H. apply orb_true_iff in H. destruct H as [H | H].
  - right. now apply SFltb_SFleb.
  - apply andb_true_iff in H. now left.
Qed.

Lemma not_sorts_before_ascending (x y : spec_float) :
  sorts_before F y x = false -> ascending x y.
Proof.
  unfold sorts_before, ascending. cbn [s_lt s_isnan f32_scalar].
  intros H. apply orb_false_iff in H. destruct H as [H1 H2].
  destruct (SF_is_nan y) eqn:Hy; [now left | right].
  destruct (SF_is_nan x) eqn:Hx; [discriminate | ].
  now apply SFleb_total.
Qed.

Lemma ascending_trans (x y z : spec_float) :
  ascending x y -> ascending y z -> ascending x z.
Proof.
  unfold ascending. intros Hxy [Hz | Hyz]; [now left | right].
  destruct Hxy as [Hy | Hxy].
  - destruct y; try discriminate; destruct z; discriminate.
  - now apply SFleb_trans with y.
Qed.

Lemma insert_sorted_sorted (x : spec_float) (l : list spec_float) :
  StronglySorted ascending l -> StronglySorted ascending (insert_sorted F x l).
Proof.
  intros Hl. induction Hl as [ | y r Hr IH Hy]; cbn [insert_sorted].
  - repeat constructor.
  - destruct (sorts_before F y x) eqn:E.
    + constructor; [exact IH | ].
      apply insert_sorted_Forall; [now apply sorts_before_ascending | exact Hy].
    + apply not_sorts_before_ascending in E.
      constructor; [now constructor | ].
      constructor; [exact E | ].
      eapply Forall_impl; [ | exact Hy].
      intros z Hz. now apply ascending_trans with y.
Qed.

Lemma np_sort_sorted (l : list spec_float) :
  StronglySorted ascending (np_sort F l).
Proof.
  induction l as [ | x r IH]; cbn [np_sort fold_right]; [constructor | ].
  now apply insert_sorted_sorted.
Qed.
(** C3.  Whenever the per-pixel map [e] of ["MRSE"] exists for the two
    images (their shapes broadcast) and has fewer than 2^50 elements [N],
    [compute_error_img("MtRSE", img, ref)] returns a scalar: with the
    values of [e] rearranged in ascending order (NaN last), the mean of
    what is left of them without the first and the last [N // 1000000].
    [compute_error], which indexes that result, fails with a [TypeError];
    and no other metric name ever returns a scalar. *)
Theorem mtrse_returns_trimmed_scalar (img ref : loc) (h : heap spec_float)
    (e : ndarray spec_float) :
  fst (compute_error_img F "MRSE" img ref h) = Ok (VArray e) ->
  (Z.of_nat (length (data e)) < 2 ^ 50)%Z ->
  let N := length (data e) in
  let k := Z.to_nat (Z.of_nat N / 1000000) in
  exists sorted : list spec_float,
    Permutation sorted (data e)
    /\ StronglySorted ascending sorted
    /\ fst (compute_error_img F "MtRSE" img ref h)
       = Ok (VScalar (mean_list F (firstn (N - 2 * k) (skipn k sorted))))
    /\ fst (compute_error F "MtRSE" img ref h)
       = Raise (TypeError
                  "'numpy.float32' object does not support item assignment")
    /\ forall (metric : string) (x : spec_float),
         metric <> "MtRSE"%string ->
         fst (compute_error_img F metric img ref h) <> Ok (VScalar x).
Proof.
  intros Hmap HN N k.
  assert (Himg : fst (compute_error_img F "MtRSE" img ref h)
                 = Ok (VScalar (mean_list F (firstn (N - 2 * k)
                                  (skipn k (np_sort F (data e))))))).
  { unfold compute_error_img in *.
    destruct (load h img) as [a | ]; [ | discriminate].
    destruct (load _ ref) as [r | ]; [ | discriminate].
    cbn [fst] in *.
    rewrite metric_dispatch_MRSE in Hmap. rewrite metric_dispatch_MtRSE.
    destruct (RSE F _ r) as [e' | ]; [ | discriminate].
    simpl in Hmap. injection Hmap as ->.
    cbn [bind]. now rewrite trim_trimmed_mean. }
  exists (np_sort F (data e)).
  split; [apply np_sort_Permutation | ].
  split; [apply np_sort_sorted | ].
  split; [exact Himg | split].
  - unfold compute_error.
    destruct (compute_error_img F "MtRSE" img ref h) as [res h1].
    cbn [fst] in *. now rewrite Himg.
  - intros metric x Hne. unfold compute_error_img.
    destruct (load h img) as [a | ]; [ | discriminate].
    destruct (load _ ref) as [r | ]; [ | discriminate].
    cbn [fst]. now apply array_metric_dispatch.
Qed.

End TrimmedBinary32.


(** * The statements at concrete images

    [powf_ref] stands in for the C library's [powf]; the binary32 numbers
    used are [1.0], [0.5], [2.0], [-1.0] and the smallest subnormal. *)

Section Concrete.

Local Abbreviation F := (f32_scalar powf_ref).
Local Abbreviation one := (S754_finite false 8388608 (-23)).
Local Abbreviation half := (S754_finite false 8388608 (-24)).
Local Abbreviation two := (S754_finite false 8388608 (-22)).
Local Abbreviation minus_one := (S754_finite true 8388608 (-23)).
Local Abbreviation tiny := (S754_finite false 1 (-149)).

(** C1 at two one-pixel images: ["MRScE"] of [[-1.0, 0.5, 2.0]] against
    itself, negative entry and all, and ["MAE"] of [[0.5]] against itself. *)
Lemma self_error_is_zero_at_one_pixel :
  (exists z,
     fst (compute_error F "MRScE" 0 0
            [{| shape := [1; 1; 3]; data := [minus_one; half; two] |}])
     = Ok z
     /\ SF_is_zero z = true)
  /\ (exists z,
        fst (compute_error F "MAE" 0 0
               [{| shape := [1; 1; 1]; data := [half] |}])
        = Ok z
        /\ SF_is_zero z = true).
Proof.
  split.
  - apply (self_error_is_zero powf_ref "MRScE" 0
             [{| shape := [1; 1; 3]; data := [minus_one; half; two] |}]
             {| shape := [1; 1; 3]; data := [minus_one; half; two] |} 1 1 3).
    + reflexivity.
    + reflexivity.
    + lia.
    + lia.
    + lia.
    + reflexivity.
    + left. right. left. reflexivity.
  - apply (self_error_is_zero powf_ref "MAE" 0
             [{| shape := [1; 1; 1]; data := [half] |}]
             {| shape := [1; 1; 1]; data := [half] |} 1 1 1).
    + reflexivity.
    + reflexivity.
    + lia.
    + lia.
    + lia.
    + reflexivity.
    + right. split; [left; reflexivity | repeat constructor].
Defined.

(** C1 as stated fails on an image with a negative entry: the candidate is
    clamped to [0.], the reference (the same array) is not, and the mean
    absolute error of [[-1.0]] against itself is [1.0]. *)
Lemma self_error_of_negative_image :
  fst (compute_error F "MAE" 0 0
         [{| shape := [1; 1; 1]; data := [minus_one] |}])
  = Ok one
  /\ SF_is_zero one = false.
Proof. split; vm_compute; reflexivity. Qed.


(** C3 at two three-channel pixels: the relative squared errors of
    [[1.0, 0.5, 0.5]] against [[0.5, 1.0, 2.0]] are about 0.96, 0.25 and
    0.56; ["MRSE"] returns them as an array and ["MtRSE"] returns their
    mean, about 0.59, as a bare number. *)
Lemma mtrse_scalar_at_three_values :
  (exists sorted : list spec_float,
     Permutation sorted [S754_finite false 16131939 (-24);
                         S754_finite false 16611105 (-26);
                         S754_finite false 9413649 (-24)]
     /\ StronglySorted ascending sorted
     /\ fst (compute_error_img F "MtRSE" 0 1
               [{| shape := [1; 1; 3]; data := [one; half; half] |};
                {| shape := [1; 1; 3]; data := [half; one; two] |}])
        = Ok (VScalar (mean_list F (firstn (3 - 2 * 0) (skipn 0 sorted)))))
  /\ fst (compute_error_img F "MtRSE" 0 1
            [{| shape := [1; 1; 3]; data := [one; half; half] |};
             {| shape := [1; 1; 3]; data := [half; one; two] |}])
     = Ok (VScalar (S754_finite false 9899455 (-24)))
  /\ fst (compute_error F "MtRSE" 0 1
            [{| shape := [1; 1; 3]; data := [one; half; half] |};
             {| shape := [1; 1; 3]; data := [half; one; two] |}])
     = Raise (TypeError
                "'numpy.float32' object does not support item assignment").
Proof.
  destruct (mtrse_returns_trimmed_scalar powf_ref 0 1
              [{| shape := [1; 1; 3]; data := [one; half; half] |};
               {| shape := [1; 1; 3]; data := [half; one; two] |}]
              {| shape := [1; 1; 3];
                 data := [S754_finite false 16131939 (-24);
                          S754_finite false 16611105 (-26);
                          S754_finite false 9413649 (-24)] |})
    as [sorted [Hperm [Hsorted [Himg [Herr _]]]]].
  - vm_compute. reflexivity.
  - vm_compute. reflexivity.
  - split; [ | split].
    + exists sorted. split; [exact Hperm | split; [exact Hsorted | exact Himg]].
    + vm_compute. reflexivity.
    + exact Herr.
Defined.

(** C4 at the metric name ["FOO"]. *)
Lemma unknown_metric_FOO :
  fst (compute_error_img F "FOO" 0 1
         [{| shape := [1; 1; 1]; data := [one] |};
          {| shape := [1; 1; 1]; data := [half] |}])
  = Raise (ValueError "Unknown metric: FOO.").
Proof.
  apply (proj2 (unknown_metric_iff spec_float F "FOO" 0 1
                  [{| shape := [1; 1; 1]; data := [one] |};
                   {| shape := [1; 1; 1]; data := [half] |}]
                  {| shape := [1; 1; 1]; data := [one] |}
                  {| shape := [1; 1; 1]; data := [half] |}
                  eq_refl eq_refl)).
  simpl. intros H.
  repeat (destruct H as [H | H]; [discriminate H | ]).
  exact H.
Defined.

(** C5 at a two-pixel RGB image: 1/3 comes back as 0.33325195, the
    values binary16 holds come back as they are, NaN stays NaN and the
    alpha channel is filled with [1.0]. *)
Lemma bin_round_trip_two_pixels :
  (exists (fs' : filesystem) (out : ndarray spec_float),
     write_image powf_ref no_codecs "a.bin"
       {| shape := [1; 2; 3];
          data := [S754_finite false 11184811 (-25); one; two;
                   half; S754_finite true 11184811 (-25); S754_nan] |}
       0 empty_fs
     = (Ok tt, fs')
     /\ read_image powf_ref no_codecs "a.bin" fs' = Ok out
     /\ shape out = [1; 2; 4]
     /\ length (data out) = 1 * 2 * 4
     /\ forall p k : nat, p < 1 * 2 -> k < 4 ->
          nth (p * 4 + k) (data out) S754_nan
          = if k <? 3
            then SF_cast 24 128
                   (SF_cast 11 16
                      (nth (p * 3 + k)
                           [S754_finite false 11184811 (-25); one; two;
                            half; S754_finite true 11184811 (-25); S754_nan]
                           S754_nan))
            else S754_finite false 8388608 (-23))
  /\ (let (r, fs') :=
        write_image powf_ref no_codecs "a.bin"
          {| shape := [1; 2; 3];
             data := [S754_finite false 11184811 (-25); one; two;
                      half; S754_finite true 11184811 (-25); S754_nan] |}
          0 empty_fs in
      read_image powf_ref no_codecs "a.bin" fs')
     = Ok {| shape := [1; 2; 4];
             data := [S754_finite false 11182080 (-25); one; two; one;
                      half; S754_finite true 11182080 (-25); S754_nan; one] |}.
Proof.
  split.
  - apply (bin_round_trip powf_ref no_codecs "a.bin" empty_fs
             {| shape := [1; 2; 3];
                data := [S754_finite false 11184811 (-25); one; two;
                         half; S754_finite true 11184811 (-25); S754_nan] |}
             1 2 3 0).
    + reflexivity.
    + reflexivity.
    + lia.
    + reflexivity.
    + intros _. repeat constructor.
    + reflexivity.
    + reflexivity.
    + reflexivity.
  - vm_compute. reflexivity.
Defined.

(** A [.bin] file cannot hold a header field of 2^31 or more. *)
Lemma write_bin_tall (file : string) (img : ndarray spec_float)
    (hh w : nat) (quality : Z) (fs : filesystem) :
  splitext_ext file = ".bin"%string ->
  shape img = [hh; w; 4] ->
  (2 ^ 31 <= Z.of_nat hh)%Z ->
  fst (write_image powf_ref no_codecs file img quality fs)
  = Raise (StructError "argument out of range").
Proof.
  intros Hext Hshape Hhh. unfold write_image, bin_image.
  rewrite Hext, Hshape. cbn [String.eqb Ascii.eqb Bool.eqb nth].
  change (4 <? 4) with false. cbn iota. rewrite Hshape. cbn [nth].
  unfold struct_pack_ii, in_int32.
  destruct (Z.ltb_spec (Z.of_nat hh) (2 ^ 31)); [lia | ].
  rewrite andb_false_r. reflexivity.
Qed.

(** C5 as stated fails in two ways.  An image with five channels is written
    whole and read back four values to a pixel, so the second pixel starts
    with the fifth channel of the first; and an image with 2^31 rows cannot
    be written at all. *)
Lemma bin_round_trip_breaks :
  (let (r, fs') :=
     write_image powf_ref no_codecs "a.bin"
       {| shape := [1; 2; 5];
          data := [one; one; one; one; half; two; two; two; two; half] |}
       0 empty_fs in
   (r, read_image powf_ref no_codecs "a.bin" fs'))
  = (Ok tt,
     Ok {| shape := [1; 2; 4];
           data := [one; one; one; one; half; two; two; two] |})
  /\ fst (write_image powf_ref no_codecs "a.bin"
            {| shape := [Z.to_nat (2 ^ 31); 1; 4];
               data := repeat one (Z.to_nat (2 ^ 33)) |} 0 empty_fs)
     = Raise (StructError "argument out of range").
Proof.
  split.
  - vm_compute. reflexivity.
  - apply write_bin_tall with (hh := Z.to_nat (2 ^ 31)) (w := 1).
    + reflexivity.
    + reflexivity.
    + rewrite Z2Nat.id; lia.
Qed.



(** C8 at a one-pixel image with alpha [0.5]: nothing is NaN. *)
Lemma unmultiply_alpha_half :
  Forall (fun x => SF_is_nan x = false)
         (data (unmultiply_alpha F
                  {| shape := [1; 1; 4]; data := [half; half; half; half] |})).
Proof.
  apply (unmultiply_alpha_total powf_ref
           {| shape := [1; 1; 4]; data := [half; half; half; half] |} 1 1).
  - reflexivity.
  - reflexivity.
  - repeat constructor.
Defined.

(** C8 as stated fails on a finite image: [1.0] over the smallest subnormal
    alpha overflows to [Inf]. *)
Lemma unmultiply_alpha_overflows :
  forallb SF_is_finite [one; one; one; tiny] = true
  /\ unmultiply_alpha F {| shape := [1; 1; 4]; data := [one; one; one; tiny] |}
     = {| shape := [1; 1; 4];
          data := [S754_infinity false; S754_infinity false;
                   S754_infinity false; tiny] |}.
Proof. split; vm_compute; reflexivity. Qed.

(** C9 at ["MAE"] of [1.0] against [0.5]. *)
Lemma error_map_not_negative_at_MAE :
  Forall (fun x => SF_negative x = false)
         (data {| shape := [1; 1; 1]; data := [half] |}).
Proof.
  apply (error_map_not_negative powf_ref "MAE" 0 1
           [{| shape := [1; 1; 1]; data := [one] |};
            {| shape := [1; 1; 1]; data := [half] |}]
           {| shape := [1; 1; 1]; data := [half] |}).
  - left. left. reflexivity.
  - vm_compute. reflexivity.
Defined.

(** C9 as stated fails for ["MAPE"] with a negative reference: against
    [-1.0] the denominator [0.01 + ref] is negative and so is the entry,
    about -2.02. *)
Lemma mape_entry_is_negative :
  fst (compute_error_img F "MAPE" 0 1
         [{| shape := [1; 1; 1]; data := [one] |};
          {| shape := [1; 1; 1]; data := [minus_one] |}])
  = Ok (VArray {| shape := [1; 1; 1];
                  data := [S754_finite true 8473341 (-22)] |})
  /\ SF_negative (S754_finite true 8473341 (-22)) = true.
Proof. split; vm_compute; reflexivity. Qed.


End Concrete.

(** * Further properties of [scripts/common.py] *)

(** ** The side effect of [compute_error_img] *)

Section InPlace.
Variable T : Type.
Variable S : Scalar T.

Lemma store_length (h : heap T) (l : loc) (a : ndarray T) :
  length (store h l a) = length h.
Proof.
  revert l. induction h as [ | x h IH]; intros [ | l]; simpl; auto.
Qed.

Lemma compute_error_img_heap (metric : string) (img ref : loc) (h : heap T)
    (a : ndarray T) :
  load h img = Some a ->
  snd (compute_error_img S metric img ref h) = store h img (zero_nonfinite S a).
Proof.
  intros Ha. unfold compute_error_img. rewrite Ha.
  destruct (load _ ref); reflexivity.
Qed.

Lemma compute_error_heap (metric : string) (img ref : loc) (h : heap T) :
  snd (compute_error S metric img ref h)
  = snd (compute_error_img S metric img ref h).
Proof.
  unfold compute_error. destruct (compute_error_img S metric img ref h).
  reflexivity.
Qed.

(** X1.  Whatever the metric name, and also when the call raises,
    [compute_error_img] and [compute_error] leave the caller's [img] with its
    NaN and infinite entries replaced by 0, and every other array, [ref]
    included, as it was. *)
Theorem compute_error_writes_img_only (metric : string) (img ref : loc)
    (h : heap T) (a : ndarray T) :
  load h img = Some a ->
  let h' := snd (compute_error_img S metric img ref h) in
  snd (compute_error S metric img ref h) = h'
  /\ load h' img = Some (zero_nonfinite S a)
  /\ length h' = length h
  /\ forall l, l <> img -> load h' l = load h l.
Proof.
  intros Ha h'. unfold h'. rewrite compute_error_heap.
  rewrite (compute_error_img_heap metric img ref h a Ha).
  split; [reflexivity | split; [ | split]].
  - now apply load_store_same with (a := a).
  - apply store_length.
  - intros l Hl. apply load_store_other. congruence.
Qed.

End InPlace.

Section Repeat.
Variable powf : spec_float -> spec_float -> spec_float.
Local Abbreviation F := (f32_scalar powf).

Lemma zero_nonfinite_idempotent (a : ndarray spec_float) :
  zero_nonfinite F (zero_nonfinite F a) = zero_nonfinite F a.
Proof.
  unfold zero_nonfinite. rewrite np_map_map. apply np_map_ext.
  intros x. cbn [s_isfinite f32_scalar]. rewrite zero_F.
  destruct x; reflexivity.
Qed.

(** X2.  A second call with the same arguments returns what the first returned
    and changes nothing more: the arrays are as the first call left them. *)
Theorem compute_error_img_twice (metric : string) (img ref : loc)
    (h : heap spec_float) :
  let r := compute_error_img F metric img ref h in
  compute_error_img F metric img ref (snd r) = r.
Proof.
  cbv zeta. unfold compute_error_img.
  destruct (load h img) as [a | ] eqn:Ha.
  - assert (H1 : load (store h img (zero_nonfinite F a)) img
                 = Some (zero_nonfinite F a))
      by (now apply load_store_same with (a := a)).
    assert (H2 : snd (match load (store h img (zero_nonfinite F a)) ref with
                      | Some r =>
                          (metric_dispatch F metric
                             (np_map (fun x => maximum F x (zero F))
                                     (zero_nonfinite F a)) r,
                           store h img (zero_nonfinite F a))
                      | None =>
                          (Raise (TypeError "ref is not an array"),
                           store h img (zero_nonfinite F a))
                      end) = store h img (zero_nonfinite F a))
      by (destruct (load _ ref); reflexivity).
    rewrite H2, H1, zero_nonfinite_idempotent.
    rewrite (store_load_id _ _ _ _ H1). reflexivity.
  - cbn [snd]. rewrite Ha. reflexivity.
Qed.

End Repeat.

(** ** Shapes that do not broadcast *)

Section Broadcast.
Variable T : Type.
Variable S : Scalar T.

Lemma broadcast_rev_comm (s1 s2 : list nat) :
  broadcast_rev s1 s2 = broadcast_rev s2 s1.
Proof.
  revert s2. induction s1 as [ | d1 r1 IH]; intros [ | d2 r2]; try reflexivity.
  simpl. rewrite (IH r2). destruct (broadcast_rev r2 r1) as [r | ]; [ | reflexivity].
  destruct (Nat.eqb_spec d1 d2) as [-> | Hne].
  - now rewrite Nat.eqb_refl.
  - destruct (Nat.eqb_spec d2 d1) as [E | _]; [congruence | ].
    destruct (Nat.eqb_spec d1 1) as [-> | H1];
      destruct (Nat.eqb_spec d2 1) as [-> | H2]; reflexivity.
Qed.

Lemma broadcast_shapes_comm (s1 s2 : list nat) :
  broadcast_shapes s1 s2 = broadcast_shapes s2 s1.
Proof. unfold broadcast_shapes. now rewrite broadcast_rev_comm. Qed.

Lemma broadcast_rev_refl (s : list nat) : broadcast_rev s s = Some s.
Proof.
  induction s as [ | d r IH]; [reflexivity | ].
  simpl. now rewrite IH, Nat.eqb_refl.
Qed.

Lemma shape_eqb_sym (s1 s2 : list nat) : shape_eqb s1 s2 = shape_eqb s2 s1.
Proof.
  unfold shape_eqb.
  destruct (list_eq_dec Nat.eq_dec s1 s2), (list_eq_dec Nat.eq_dec s2 s1);
    congruence.
Qed.

Lemma np_binop_no_broadcast (f : T -> T -> T) (a b : ndarray T) :
  broadcast_shapes (shape a) (shape b) = None ->
  np_binop S f a b = Raise (ValueError "operands could not be broadcast together").
Proof.
  intros H. unfold np_binop. unfold shape_eqb.
  destruct (list_eq_dec Nat.eq_dec (shape a) (shape b)) as [E | _].
  - rewrite E in H. unfold broadcast_shapes in H.
    rewrite broadcast_rev_refl in H. discriminate.
  - now rewrite H.
Qed.

(** X4.  For each known metric but ["SSIM"], two images whose shapes do not broadcast
    (some dimension, counted from the last, differs and is 1 in neither) make
    [compute_error_img] raise NumPy's broadcasting error; [img] has been
    sanitised all the same. *)
Theorem shape_mismatch_raises (metric : string) (img ref : loc) (h : heap T)
    (a r : ndarray T) :
  load h img = Some a ->
  load (store h img (zero_nonfinite S a)) ref = Some r ->
  broadcast_shapes (shape a) (shape r) = None ->
  In metric ["MAE"; "MAPE"; "SMAPE"; "MSE"; "MScE"; "MRSE"; "MtRSE"; "MRScE"]%string ->
  compute_error_img S metric img ref h
  = (Raise (ValueError "operands could not be broadcast together"),
     store h img (zero_nonfinite S a)).
Proof.
  intros Ha Hr Hb Hin. unfold compute_error_img. rewrite Ha, Hr. f_equal.
  set (img1 := np_map _ (zero_nonfinite S a)).
  assert (Hsub : forall f (x y : ndarray T), shape x = shape a -> shape y = shape r ->
            np_binop S f x y
            = Raise (ValueError "operands could not be broadcast together")).
  { intros f x y Hx Hy. apply np_binop_no_broadcast. now rewrite Hx, Hy. }
  assert (H1 : forall x y, shape x = shape a -> shape y = shape r ->
            L1 S x y = Raise (ValueError "operands could not be broadcast together")).
  { intros x y Hx Hy. unfold L1, np_subtract. now rewrite Hsub. }
  assert (H2 : forall x y, shape x = shape a -> shape y = shape r ->
            L2 S x y = Raise (ValueError "operands could not be broadcast together")).
  { intros x y Hx Hy. unfold L2, np_subtract. now rewrite Hsub. }
  simpl in Hin.
  destruct Hin as [<- | [<- | [<- | [<- | [<- | [<- | [<- | [<- | []]]]]]]]].
  - rewrite metric_dispatch_MAE, H1; reflexivity.
  - rewrite metric_dispatch_MAPE. unfold APE. rewrite H1; reflexivity.
  - rewrite metric_dispatch_SMAPE. unfold SAPE. rewrite H1; reflexivity.
  - rewrite metric_dispatch_MSE, H2; reflexivity.
  - rewrite metric_dispatch_MScE, H2; reflexivity.
  - rewrite metric_dispatch_MRSE. unfold RSE. rewrite H2; reflexivity.
  - rewrite metric_dispatch_MtRSE. unfold RSE. rewrite H2; reflexivity.
  - rewrite metric_dispatch_MRScE. unfold RSE. rewrite H2; reflexivity.
Qed.

End Broadcast.

(** ** Metrics that do not tell the candidate from the reference *)

Section BinopSwap.
Variable T : Type.
Variable S : Scalar T.

Lemma map2_swap (f g : T -> T -> T) (l1 l2 : list T) :
  (forall x y, f x y = g y x) -> map2 f l1 l2 = map2 g l2 l1.
Proof.
  intros H. unfold map2. revert l2.
  induction l1 as [ | x r IH]; intros [ | y r2]; simpl; try reflexivity.
  now rewrite H, IH.
Qed.

Lemma np_binop_comm (f g : T -> T -> T) (a b : ndarray T) :
  (forall x y, f x y = g y x) -> np_binop S f a b = np_binop S g b a.
Proof.
  intros H. unfold np_binop.
  rewrite (shape_eqb_sym (shape a) (shape b)), (broadcast_shapes_comm (shape a) (shape b)).
  unfold shape_eqb.
  destruct (list_eq_dec Nat.eq_dec (shape b) (shape a)) as [E | _].
  - rewrite E. now rewrite (map2_swap f g).
  - destruct (broadcast_shapes (shape b) (shape a)); [ | reflexivity].
    now rewrite (map2_swap f g).
Qed.

Lemma map_map2 (u : T -> T) (f : T -> T -> T) (l1 l2 : list T) :
  map u (map2 f l1 l2) = map2 (fun x y => u (f x y)) l1 l2.
Proof. unfold map2. now rewrite map_map. Qed.

Lemma np_map_binop (u : T -> T) (f : T -> T -> T) (a b : ndarray T) :
  (d <- np_binop S f a b ;; Ok (np_map u d))
  = np_binop S (fun x y => u (f x y)) a b.
Proof.
  unfold np_binop. destruct (shape_eqb _ _).
  - cbn [bind]. unfold np_map. cbn [shape data]. now rewrite map_map2.
  - destruct (broadcast_shapes _ _); [ | reflexivity].
    cbn [bind]. unfold np_map. cbn [shape data]. now rewrite map_map2.
Qed.

End BinopSwap.

Section FloatSymmetry.
Variables prec emax : Z.

Lemma SFadd_comm (x y : spec_float) : SFadd prec emax x y = SFadd prec emax y x.
Proof.
  destruct x as [sx | sx | | sx mx ex], y as [sy | sy | | sy my ey];
    try reflexivity;
    try (destruct sx, sy; reflexivity).
  unfold SFadd. rewrite (Z.min_comm ey ex). f_equal. apply Z.add_comm.
Qed.

Lemma SFabs_binary_round (s s' : bool) (m : positive) (e : Z) :
  SFabs (binary_round prec emax s m e) = SFabs (binary_round prec emax s' m e).
Proof.
  unfold binary_round, binary_round_aux.
  destruct (shl_align m e _) as [mz ez].
  destruct (shr_fexp prec emax (Z.pos mz) ez loc_Exact) as [mrs e'].
  destruct (shr_fexp prec emax _ e' loc_Exact) as [mrs' e''].
  destruct (shr_m mrs'); try reflexivity.
  destruct (Z.leb e'' _); reflexivity.
Qed.

Lemma SFabs_binary_normalize_opp (m e : Z) :
  SFabs (binary_normalize prec emax (- m) e false)
  = SFabs (binary_normalize prec emax m e false).
Proof.
  destruct m as [ | p | p]; simpl; try reflexivity; apply SFabs_binary_round.
Qed.

(** [|x - y|] and [|y - x|] are the same float. *)
Lemma SFabs_SFsub_swap (x y : spec_float) :
  SFabs (SFsub prec emax x y) = SFabs (SFsub prec emax y x).
Proof.
  destruct x as [sx | sx | | sx mx ex], y as [sy | sy | | sy my ey];
    try reflexivity;
    try (destruct sx, sy; reflexivity).
  unfold SFsub. rewrite (Z.min_comm ey ex).
  rewrite <- SFabs_binary_normalize_opp. f_equal. f_equal. lia.
Qed.

Lemma SFmul_self_abs (u v : spec_float) :
  SFabs u = SFabs v -> SFmul prec emax u u = SFmul prec emax v v.
Proof.
  destruct u as [s | s | | s m e], v as [s' | s' | | s' m' e'];
    simpl; try discriminate; intros H; try reflexivity;
    try (destruct s, s'; reflexivity).
  injection H as -> ->. destruct s, s'; reflexivity.
Qed.

End FloatSymmetry.

Section SymmetricMetrics.
Variable powf : spec_float -> spec_float -> spec_float.
Local Abbreviation F := (f32_scalar powf).

(** X5.  In binary32, bit for bit, the maps of [L1], [L2] and [SAPE] do not
    depend on which image is the candidate and which the reference: so
    [L1(a, b)] is [L1(b, a)], broadcasting and the error raised included. *)
Theorem difference_metrics_symmetric (a b : ndarray spec_float) :
  L1 F a b = L1 F b a /\ L2 F a b = L2 F b a /\ SAPE F a b = SAPE F b a.
Proof.
  assert (H1 : L1 F a b = L1 F b a).
  { unfold L1, np_subtract, np_abs. rewrite !np_map_binop.
    apply np_binop_comm. intros x y. apply SFabs_SFsub_swap. }
  split; [exact H1 | split].
  - unfold L2, np_subtract, np_square. rewrite !np_map_binop.
    apply np_binop_comm. intros x y. apply SFmul_self_abs, SFabs_SFsub_swap.
  - unfold SAPE. rewrite H1. unfold np_add.
    rewrite (np_binop_comm spec_float F (s_add F) (s_add F) b a); [reflexivity | ].
    intros x y. apply SFadd_comm.
Qed.

End SymmetricMetrics.

Section ExactSymmetry.
Local Open Scope R_scope.

(** X8.  In exact arithmetic the SSIM map of two images of one height and width,
    each with at least three channels, is the same whichever comes first. *)
Theorem ssim_symmetric (a b : ndarray R) (hh w ca cb : nat) :
  shape a = [hh; w; ca] -> shape b = [hh; w; cb] ->
  (3 <= ca)%nat -> (3 <= cb)%nat ->
  SSIM R_scalar a b = SSIM R_scalar b a.
Proof.
  intros Ha Hb Hca Hcb.
  destruct (luminance_shape a hh w ca Ha Hca) as [La [Hla HLa]].
  destruct (luminance_shape b hh w cb Hb Hcb) as [Lb [Hlb HLb]].
  unfold SSIM. rewrite Hla, Hlb. cbn [bind].
  rewrite (list_tab La (hh * w) HLa), (list_tab Lb (hh * w) HLb).
  set (la := fun p => nth p La 0). set (lb := fun p => nth p Lb 0).
  unfold np_multiply, np_subtract, np_add, np_divide.
  repeat (first [ rewrite blur_data | rewrite binop_data
                | progress (unfold np_square, np_map; cbn [bind shape data]) ]).
  rewrite !map2_tab.
  assert (Hab : map (fun p => s_mul R_scalar (lb p) (la p)) (seq 0 (hh * w))
                = map (fun p => s_mul R_scalar (la p) (lb p)) (seq 0 (hh * w))).
  { apply map_ext. intros p. apply Rmult_comm. }
  rewrite Hab.
  set (blr := fun d => convolve_axis1 R_scalar hh w (blur_kernel R_scalar)
                         (convolve_axis0 R_scalar hh w (blur_kernel R_scalar) d)).
  assert (Hblr : forall d, length (blr d) = (hh * w)%nat)
    by (intros d; unfold blr, convolve_axis1; now rewrite length_map, length_seq).
  repeat match goal with
         | |- context [convolve_axis1 R_scalar hh w ?k
                         (convolve_axis0 R_scalar hh w ?k ?d)] =>
             change (convolve_axis1 R_scalar hh w k
                       (convolve_axis0 R_scalar hh w k d)) with (blr d)
         end.
  set (MA := blr (map la (seq 0 (hh * w)))).
  set (MB := blr (map lb (seq 0 (hh * w)))).
  set (BA := blr (map (fun p => s_mul R_scalar (la p) (la p)) (seq 0 (hh * w)))).
  set (BB := blr (map (fun p => s_mul R_scalar (lb p) (lb p)) (seq 0 (hh * w)))).
  set (BAB := blr (map (fun p => s_mul R_scalar (la p) (lb p)) (seq 0 (hh * w)))).
  rewrite (list_tab MA (hh * w)), (list_tab MB (hh * w)), (list_tab BA (hh * w)),
    (list_tab BB (hh * w)), (list_tab BAB (hh * w)) by apply Hblr.
  repeat (first [rewrite map2_tab | rewrite map_map]).
  f_equal. f_equal. apply map_ext. intros p.
  cbn [s_add s_sub s_mul s_div R_scalar].
  f_equal.
  - f_equal; [ring | f_equal; ring].
  - f_equal; [ring | f_equal; ring].
Qed.

End ExactSymmetry.

(** ** What [write_image] and [read_image] do to the files *)

Section Files.
Variable powf : spec_float -> spec_float -> spec_float.
Variable cd : codecs.

Lemma fs_write_other (fs : filesystem) (file other : string) (bs : list byte) :
  other <> file -> fs_write fs file bs other = fs other.
Proof.
  intros H. unfold fs_write.
  destruct (String.eqb_spec other file); [contradiction | reflexivity].
Qed.

Lemma fs_write_same (fs : filesystem) (file : string) (bs : list byte) :
  fs_write fs file bs file = Some bs.
Proof. unfold fs_write. now rewrite String.eqb_refl. Qed.

Lemma fs_set_other (fs : filesystem) (file other : string)
    (o : option (list byte)) :
  other <> file -> fs_set fs file o other = fs other.
Proof.
  intros H. unfold fs_set.
  destruct (String.eqb_spec other file); [contradiction | reflexivity].
Qed.

Lemma pillow_save_other (file other : string) (img_array : list nat * list Z)
    (quality : Z) (fs : filesystem) :
  other <> file ->
  snd (pillow_save cd file img_array quality fs) other = fs other.
Proof.
  intros H. unfold pillow_save.
  destruct (pil_save cd _ _ _ _); cbn [snd];
    [now apply fs_write_other | now apply fs_set_other].
Qed.

Lemma pillow_save_written (file : string) (img_array : list nat * list Z)
    (quality : Z) (fs : filesystem) :
  fst (pillow_save cd file img_array quality fs) = Ok tt ->
  exists bytes, snd (pillow_save cd file img_array quality fs) file = Some bytes.
Proof.
  unfold pillow_save.
  destruct (pil_save cd _ _ _ _) as [bs | e]; cbn [fst snd]; [ | discriminate].
  intros _. exists bs. apply fs_write_same.
Qed.

(** X15.  [write_image] changes no file other than the one it is given.  A
    write that returns leaves a file at the path.  A [.bin] write that
    raises leaves the path as it was or, when the header cannot be packed,
    with an empty file (opened for writing, nothing written): never with a
    part of the payload.  (What a failed [pyexr] or Pillow write leaves is
    the library's affair: [exr_left], [pil_left].) *)
Theorem write_image_touches_one_file (file : string) (img : ndarray spec_float)
    (quality : Z) (fs : filesystem) :
  (forall other, other <> file ->
     snd (write_image powf cd file img quality fs) other = fs other)
  /\ (fst (write_image powf cd file img quality fs) = Ok tt ->
      exists bytes, snd (write_image powf cd file img quality fs) file = Some bytes)
  /\ (splitext_ext file = ".bin"%string ->
      forall e, fst (write_image powf cd file img quality fs) = Raise e ->
        snd (write_image powf cd file img quality fs) = fs
        \/ (exists e', struct_pack_ii (Z.of_nat (nth 0 (shape img) 0))
                                      (Z.of_nat (nth 1 (shape img) 0)) = Raise e')
            /\ snd (write_image powf cd file img quality fs)
               = fs_write fs file []).
Proof.
  unfold write_image.
  destruct (String.eqb_spec (splitext_ext file) ".exr") as [Hexr | Hexr].
  - destruct (exr_write cd img) as [bs | e0]; cbn [fst snd];
      (split; [intros other H; (now apply fs_write_other) || (now apply fs_set_other) | ]);
      (split; [ | intros Hbin; rewrite Hbin in Hexr; discriminate]).
    + intros _. exists bs. apply fs_write_same.
    + discriminate.
  - destruct (String.eqb_spec (splitext_ext file) ".bin") as [Hbin | Hbin].
    + destruct (bin_image img) as [img4 | e0] eqn:Hb; cbn [fst snd].
      * assert (Hsh : nth 0 (shape img4) 0 = nth 0 (shape img) 0
                      /\ nth 1 (shape img4) 0 = nth 1 (shape img) 0).
        { unfold bin_image in Hb.
          destruct (shape img) as [ | d0 [ | d1 [ | c [ | d3 r]]]] eqn:Hs;
            try discriminate.
          - destruct (c <? 4); injection Hb as <-; [split; reflexivity | now rewrite Hs].
          - destruct (c <? 4); [discriminate | ]. injection Hb as <-. now rewrite Hs. }
        destruct Hsh as [-> ->].
        destruct (struct_pack_ii _ _) as [hdr | e1]; cbn [fst snd];
          (split; [intros other H; now apply fs_write_other | ]); split.
        -- intros _. eexists. apply fs_write_same.
        -- discriminate.
        -- discriminate.
        -- intros _ e _. right. split; [now exists e1 | reflexivity].
      * split; [reflexivity | ]. split; [discriminate | ]. intros _ e _. now left.
    + assert (Hp : forall a,
                (forall other, other <> file ->
                   snd (write_image_pillow powf cd file a quality fs) other = fs other)
                /\ (fst (write_image_pillow powf cd file a quality fs) = Ok tt ->
                    exists bytes,
                      snd (write_image_pillow powf cd file a quality fs) file
                      = Some bytes)).
      { intros a. unfold write_image_pillow. split.
        - intros other H. now apply pillow_save_other.
        - apply pillow_save_written. }
      destruct (shape img) as [ | d0 [ | d1 [ | c [ | d3 r]]]];
        try (cbn [fst snd]; split; [reflexivity | ];
             split; [discriminate | intros E; contradiction]).
      * destruct (Hp (if c =? 4
                      then on_rgb powf (fun x _ => linear_to_srgb_elt (f32_scalar powf) x)
                             (unmultiply_alpha (f32_scalar powf) img)
                      else linear_to_srgb (f32_scalar powf) img)) as [H1 H2].
        split; [exact H1 | ]. split; [exact H2 | intros E; contradiction].
      * destruct (c =? 4).
        -- destruct ((1 <=? last (d3 :: r) 0) && (last (d3 :: r) 0 <=? 3)).
           ++ cbn [fst snd]. split; [reflexivity | ].
              split; [discriminate | intros E; contradiction].
           ++ match goal with
              | |- context [write_image_pillow powf cd file ?a quality fs] =>
                  destruct (Hp a) as [H1 H2]
              end.
              split; [exact H1 | ]. split; [exact H2 | intros E; contradiction].
        -- destruct (Hp (linear_to_srgb (f32_scalar powf) img)) as [H1 H2].
           split; [exact H1 | ]. split; [exact H2 | intros E; contradiction].
Qed.

(** X16.  A [.bin] file written for an image of [h] rows and [w] columns holds
    [8 + 8*h*w] bytes, whatever the channel count (up to four): the two
    header integers, then four half floats to the pixel. *)
Theorem bin_file_layout (file : string) (fs : filesystem)
    (img : ndarray spec_float) (hh w c : nat) (quality : Z) :
  splitext_ext file = ".bin"%string ->
  shape img = [hh; w; c] ->
  c <= 4 ->
  length (data img) = hh * w * c ->
  (Z.of_nat hh < 2 ^ 31)%Z ->
  (Z.of_nat w < 2 ^ 31)%Z ->
  exists bytes,
    snd (write_image powf cd file img quality fs) file = Some bytes
    /\ length bytes = 8 + 8 * (hh * w)
    /\ struct_unpack_ii (firstn 8 bytes) = Ok (Z.of_nat hh, Z.of_nat w).
Proof.
  intros Hext Hs Hc Hlen Hh Hw.
  destruct (bin_image_shape img hh w c Hs Hc Hlen) as [Hbin [Hs4 Hl4]].
  destruct (struct_unpack_pack (Z.of_nat hh) (Z.of_nat w) ltac:(lia) ltac:(lia))
    as [hdr [Hpack [Hhdr Hun]]].
  eexists. split; [ | split].
  - unfold write_image. rewrite Hext. cbn [String.eqb Ascii.eqb Bool.eqb].
    rewrite Hbin, Hs4. cbn [nth]. rewrite Hpack. cbn [snd].
    apply fs_write_same.
  - rewrite length_app, Hhdr, tobytes_f16_length, length_map, Hl4. lia.
  - destruct (firstn_skipn_app _ hdr
                (tobytes_f16 (map astype_float16
                   (data (if c <? 4 then dstack_ones hh w c (data img) else img))))
                8 Hhdr) as [E _].
    now rewrite E.
Qed.

(** X17.  Reading a [.bin] or raster file that does not exist raises
    [FileNotFoundError] with the path, before any decoding. *)
Theorem read_image_missing_file (file : string) (fs : filesystem) :
  splitext_ext file <> ".exr"%string ->
  fs file = None ->
  read_image powf cd file fs = Raise (FileNotFoundError file).
Proof.
  intros Hext H. unfold read_image, read_image_pillow, fs_read. rewrite H.
  destruct (String.eqb_spec (splitext_ext file) ".exr"); [contradiction | ].
  destruct (String.eqb _ ".bin"); reflexivity.
Qed.

End Files.

(** ** Edge cases of the [.bin] reader, the 8-bit writer and [trim] *)

Section Edges.
Variable powf : spec_float -> spec_float -> spec_float.
Variable cd : codecs.
Local Abbreviation F := (f32_scalar powf).

(** X18.  A header height of -1 is not rejected: the negative count makes
    [np.frombuffer] read the whole file and [reshape] infers the height from
    its size.  With width [w > 0] and a payload of [k] rows the image read
    has shape (k, w, 4). *)
Theorem read_bin_infers_height (file : string) (fs : filesystem)
    (bytes : list byte) (w : Z) (k : nat) :
  splitext_ext file = ".bin"%string ->
  fs file = Some bytes ->
  struct_unpack_ii (firstn 8 bytes) = Ok ((-1)%Z, w) ->
  (0 < w < 2 ^ 31)%Z ->
  Z.of_nat (length bytes) = (8 + 8 * w * Z.of_nat k)%Z ->
  read_image powf cd file fs
  = Ok {| shape := [k; Z.to_nat w; 4];
          data := map half_to_float32 (halves_of_bytes (skipn 8 bytes)) |}.
Proof.
  intros Hext Hfs Hun Hw Hlen.
  rewrite (read_image_bin powf cd _ _ Hext). unfold fs_read. rewrite Hfs.
  cbn [bind]. unfold read_bin. rewrite Hun. cbn [bind].
  unfold np_frombuffer_f16.
  destruct (Nat.ltb_spec (length bytes) 8); [lia | ].
  destruct (Z.leb_spec (2 ^ 63) (-1 * w * 4)); [lia | ].
  destruct (Z.ltb_spec (-1 * w * 4) (- 2 ^ 63)); [lia | ].
  cbn [orb].
  destruct (Z.ltb_spec (-1 * w * 4) 0); [ | lia].
  assert (Hs : length bytes - 8 = 2 * (4 * Z.to_nat w * k)).
  { apply Nat2Z.inj. rewrite Nat2Z.inj_sub by lia.
    rewrite !Nat2Z.inj_mul, Z2Nat.id by lia. lia. }
  rewrite Hs.
  replace (2 * (4 * Z.to_nat w * k)) with ((4 * Z.to_nat w * k) * 2) by lia.
  rewrite Nat.Div0.mod_mul. cbn [Nat.eqb bind].
  assert (Hh : length (map half_to_float32 (halves_of_bytes (skipn 8 bytes)))
               = 4 * Z.to_nat w * k).
  { rewrite length_map, halves_of_bytes_length, length_skipn, Hs.
    replace (2 * (4 * Z.to_nat w * k)) with ((4 * Z.to_nat w * k) * 2) by lia.
    now rewrite Nat.div_mul by lia. }
  unfold np_reshape. rewrite Hh. cbn [fix_unknown_dimension].
  change (-1 <? 0)%Z with true. change (4 <? 0)%Z with false. cbv iota.
  destruct (Z.ltb_spec w 0); [lia | ].
  destruct (Z.leb_spec (2 ^ 63) (1 * w)); [lia | ].
  destruct (Z.leb_spec (2 ^ 63) (1 * w * 4)); [lia | ].
  cbn [bind map].
  replace (1 * w * 4)%Z with (4 * w)%Z by lia.
  replace (Z.of_nat (4 * Z.to_nat w * k)) with (Z.of_nat k * (4 * w))%Z
    by (rewrite !Nat2Z.inj_mul, Z2Nat.id by lia; lia).
  rewrite Z.mod_mul by lia.
  destruct (Z.eqb_spec (4 * w) 0); [lia | ].
  cbn [orb negb Z.eqb].
  rewrite Z.div_mul by lia.
  rewrite Nat2Z.id.
  change (-1 <? 0)%Z with true. change (4 <? 0)%Z with false. cbv iota.
  destruct (Z.ltb_spec w 0); [lia | reflexivity].
Qed.

Lemma write_image_pillow_samples (file : string) (img : ndarray spec_float)
    (quality : Z) (fs : filesystem) :
  write_image_pillow powf cd file img quality fs
  = pillow_save cd file (shape img, map (pillow_sample powf) (data img))
      quality fs.
Proof. reflexivity. Qed.

Lemma pillow_sample_value (v : Z) :
  (0 <= v <= 255)%Z -> pillow_sample powf (pillow_value powf v) = v.
Proof.
  intros Hv.
  assert (Hall : forallb
            (fun n => Z.eqb (pillow_sample powf (pillow_value powf (Z.of_nat n)))
                            (Z.of_nat n))
            (seq 0 256) = true) by (vm_compute; reflexivity).
  rewrite forallb_forall in Hall.
  specialize (Hall (Z.to_nat v)).
  rewrite Z2Nat.id in Hall by lia.
  apply Z.eqb_eq, Hall, in_seq. lia.
Qed.

(** X19.  What Pillow decodes survives the conversion to floats and back: an image
    read with [read_image_pillow] and written with [write_image_pillow] hands
    Pillow the very 8-bit samples that Pillow delivered: the write is
    Pillow's save of those samples, in its outcome and in the file it
    leaves. *)
Theorem pillow_samples_round_trip (src dst : string) (fs fs' : filesystem)
    (bs : list byte) (sh : list nat) (samples : list Z) (quality : Z) :
  fs src = Some bs ->
  pil_open cd bs (String.eqb (splitext_ext src) ".jpg") = Ok (sh, samples) ->
  Forall (fun v => 0 <= v <= 255)%Z samples ->
  exists img,
    read_image_pillow powf cd src fs = Ok img
    /\ write_image_pillow powf cd dst img quality fs'
       = pillow_save cd dst (sh, samples) quality fs'
    /\ (forall out,
          pil_save cd dst (String.eqb (splitext_ext dst) ".jpg")
                   (sh, samples) quality = Ok out ->
          write_image_pillow powf cd dst img quality fs'
          = (Ok tt, fs_write fs' dst out)).
Proof.
  intros Hfs Hopen Hrange.
  exists {| shape := sh; data := map (pillow_value powf) samples |}.
  assert (Hid : map (fun v => pillow_sample powf (pillow_value powf v)) samples
                = samples).
  { clear Hopen. induction Hrange as [ | v l Hv _ IH]; [reflexivity | ].
    cbn [map]. rewrite IH. now rewrite pillow_sample_value. }
  assert (Hw : write_image_pillow powf cd dst
                 {| shape := sh; data := map (pillow_value powf) samples |}
                 quality fs'
               = pillow_save cd dst (sh, samples) quality fs').
  { rewrite write_image_pillow_samples. cbn [shape data].
    now rewrite map_map, Hid. }
  split; [ | split].
  - unfold read_image_pillow, fs_read. rewrite Hfs. cbn [bind].
    rewrite Hopen. reflexivity.
  - exact Hw.
  - intros out Hout. rewrite Hw. unfold pillow_save. now rewrite Hout.
Qed.

(** X20.  The samples saturate: every element at or below 0 (negative infinity
    included) becomes 0, every element at or above 1 (positive infinity
    included) becomes 255, and every sample is a byte. *)
Theorem pillow_sample_saturates (x : spec_float) :
  (SFleb x (S754_zero false) = true -> pillow_sample powf x = 0%Z)
  /\ (SFleb (S754_finite false 8388608 (-23)) x = true ->
      pillow_sample powf x = 255%Z)
  /\ (0 <= pillow_sample powf x <= 255)%Z.
Proof.
  split; [ | split].
  - intros H. unfold pillow_sample, clip.
    cbn [s_isnan s_lt f32_scalar]. rewrite lit_0.
    assert (Hn : SF_is_nan x = false) by (destruct x; [reflexivity .. | discriminate | reflexivity]).
    rewrite Hn.
    assert (Hlt : SFltb (S754_zero false) x = false).
    { unfold SFltb, SFleb in *. rewrite SFcompare_antisym.
      destruct (SFcompare x (S754_zero false)) as [[ | | ] | ];
        try reflexivity; discriminate. }
    rewrite Hlt. vm_compute. reflexivity.
  - intros H. unfold pillow_sample, clip.
    cbn [s_isnan s_lt f32_scalar]. rewrite lit_0, lit_1.
    assert (Hn : SF_is_nan x = false) by (destruct x; [reflexivity .. | discriminate | reflexivity]).
    rewrite Hn.
    assert (Hlt : SFltb (S754_zero false) x = true).
    { destruct x as [s | [ | ] | | [ | ] m e]; try discriminate; reflexivity. }
    rewrite Hlt, Hn.
    assert (Hlt1 : SFltb x (S754_finite false 8388608 (-23)) = false).
    { unfold SFltb, SFleb in *. rewrite SFcompare_antisym.
      destruct (SFcompare (S754_finite false 8388608 (-23)) x) as [[ | | ] | ];
        try reflexivity; discriminate. }
    rewrite Hlt1. vm_compute. reflexivity.
  - unfold pillow_sample, to_uint8.
    destruct (SF_trunc _); [ | lia].
    pose proof (Z.mod_pos_bound a 256 ltac:(lia)). lia.
Qed.

End Edges.

Section SmallTrim.
Variable powf : spec_float -> spec_float -> spec_float.
Local Abbreviation F := (f32_scalar powf).

(** X7.  With fewer than a million values [trim] discards none: its result is the
    mean of all the values, added up in ascending order (NaN last). *)
Theorem trim_small_is_mean (e : ndarray spec_float) :
  (Z.of_nat (length (data e)) < 1000000)%Z ->
  exists sorted : list spec_float,
    Permutation sorted (data e)
    /\ StronglySorted ascending sorted
    /\ trim F e (PyLit 1 6) = Ok (mean_list F sorted).
Proof.
  intros HZ. exists (np_sort F (data e)).
  split; [apply np_sort_Permutation | ].
  split; [apply np_sort_sorted | ].
  rewrite trim_trimmed_mean by lia.
  rewrite Z.div_small by lia. cbn [Z.to_nat skipn].
  rewrite Nat.mul_0_r, Nat.sub_0_r.
  rewrite <- (np_sort_length spec_float F (data e)). now rewrite firstn_all.
Qed.

End SmallTrim.

(** ** The transfer functions in exact arithmetic: order and range *)

Section ExactOrder.
Local Open Scope R_scope.

Lemma Rpower_one (a : R) : Rpower 1 a = 1.
Proof. unfold Rpower. now rewrite ln_1, Rmult_0_r, exp_0. Qed.

(** X11.  [srgb_to_linear] is strictly increasing on the whole line: each branch
    is, and at the threshold 0.04045 the linear branch ends below the point
    where the power branch starts. *)
Theorem srgb_to_linear_increasing (x y : R) :
  x < y -> srgb_to_linear_elt R_scalar x < srgb_to_linear_elt R_scalar y.
Proof.
  intros Hxy. rewrite !srgb_to_linear_elt_R.
  destruct (Rlt_dec (4045 / 100000) x) as [Hx | Hx];
    destruct (Rlt_dec (4045 / 100000) y) as [Hy | Hy]; try lra.
  - rewrite !srgb_power_branch_R by lra.
    apply Rlt_Rpower_l; [simpl; lra | ]. split.
    + apply Rdiv_lt_0_compat; lra.
    + unfold Rdiv. apply Rmult_lt_compat_r; lra.
  - rewrite srgb_linear_branch_R, srgb_power_branch_R by lra.
    destruct srgb_power_at_threshold as [H1 _].
    assert (H2 : Rpower (9545 / 105500) (INR 12 / INR 5)
                 < Rpower ((y + 55 / 1000) / (1055 / 1000)) (INR 12 / INR 5)).
    { apply Rlt_Rpower_l; [simpl; lra | ]. split; [lra | ].
      apply Rmult_lt_reg_r with (1055 / 1000); [lra | ].
      replace ((y + 55 / 1000) / (1055 / 1000) * (1055 / 1000))
        with (y + 55 / 1000) by field. lra. }
    assert (H3 : x / (1292 / 100) <= 4045 / 1292000).
    { apply Rmult_le_reg_r with (1292 / 100); [lra | ].
      replace (x / (1292 / 100) * (1292 / 100)) with x by field. lra. }
    lra.
  - rewrite !srgb_linear_branch_R. unfold Rdiv.
    apply Rmult_lt_compat_r; [ | lra].
    apply Rinv_0_lt_compat. lra.
Qed.

Lemma linear_to_srgb_at_one : linear_to_srgb_elt R_scalar 1 = 1.
Proof.
  rewrite linear_to_srgb_elt_R.
  destruct (Rlt_dec (31308 / 10000000) 1) as [_ | H]; [ | lra].
  rewrite linear_power_branch_R by lra. rewrite Rpower_one. lra.
Qed.

Lemma srgb_to_linear_at_one : srgb_to_linear_elt R_scalar 1 = 1.
Proof.
  rewrite srgb_to_linear_elt_R.
  destruct (Rlt_dec (4045 / 100000) 1) as [_ | H]; [ | lra].
  rewrite srgb_power_branch_R by lra.
  replace ((1 + 55 / 1000) / (1055 / 1000)) with 1 by field.
  apply Rpower_one.
Qed.

Lemma srgb_to_linear_at_zero : srgb_to_linear_elt R_scalar 0 = 0.
Proof.
  rewrite srgb_to_linear_elt_R.
  destruct (Rlt_dec (4045 / 100000) 0) as [H | _]; [lra | ].
  rewrite srgb_linear_branch_R. lra.
Qed.

Lemma linear_to_srgb_at_zero : linear_to_srgb_elt R_scalar 0 = 0.
Proof.
  rewrite linear_to_srgb_elt_R.
  destruct (Rlt_dec (31308 / 10000000) 0) as [H | _]; [lra | ].
  rewrite linear_linear_branch_R. lra.
Qed.

(** X14.  Both transfer functions fix 0 and 1 and map the unit interval into
    itself. *)
Theorem transfer_functions_unit_interval :
  srgb_to_linear_elt R_scalar 0 = 0 /\ srgb_to_linear_elt R_scalar 1 = 1
  /\ linear_to_srgb_elt R_scalar 0 = 0 /\ linear_to_srgb_elt R_scalar 1 = 1
  /\ forall x, 0 <= x <= 1 ->
       0 <= srgb_to_linear_elt R_scalar x <= 1
       /\ 0 <= linear_to_srgb_elt R_scalar x <= 1.
Proof.
  split; [apply srgb_to_linear_at_zero | ].
  split; [apply srgb_to_linear_at_one | ].
  split; [apply linear_to_srgb_at_zero | ].
  split; [apply linear_to_srgb_at_one | ].
  intros x [H0 H1]. split.
  - rewrite srgb_to_linear_elt_R.
    destruct (Rlt_dec (4045 / 100000) x) as [Hx | Hx].
    + rewrite srgb_power_branch_R by lra.
      set (b := (x + 55 / 1000) / (1055 / 1000)).
      assert (Hb : 0 < b <= 1).
      { unfold b. split; [apply Rdiv_lt_0_compat; lra | ].
        apply Rmult_le_reg_r with (1055 / 1000); [lra | ].
        replace ((x + 55 / 1000) / (1055 / 1000) * (1055 / 1000))
          with (x + 55 / 1000) by field. lra. }
      split; [left; apply exp_pos | ].
      rewrite <- (Rpower_one (INR 12 / INR 5)).
      apply Rle_Rpower_l; [simpl; lra | lra].
    + rewrite srgb_linear_branch_R.
      split.
      * apply Rmult_le_reg_r with (1292 / 100); [lra | ].
        replace (x / (1292 / 100) * (1292 / 100)) with x by field. lra.
      * apply Rmult_le_reg_r with (1292 / 100); [lra | ].
        replace (x / (1292 / 100) * (1292 / 100)) with x by field. lra.
  - rewrite linear_to_srgb_elt_R.
    destruct (Rlt_dec (31308 / 10000000) x) as [Hx | Hx].
    + rewrite linear_power_branch_R by lra.
      destruct linear_power_at_threshold as [_ Hlo].
      assert (Hp : Rpower (31308 / 10000000) (INR 5 / INR 12)
                   <= Rpower x (INR 5 / INR 12)).
      { apply Rle_Rpower_l; [simpl; lra | lra]. }
      assert (Hq : Rpower x (INR 5 / INR 12) <= 1).
      { rewrite <- (Rpower_one (INR 5 / INR 12)).
        apply Rle_Rpower_l; [simpl; lra | lra]. }
      assert (Hlo' : 9 / 100 <= Rpower (31308 / 10000000) (INR 5 / INR 12)).
      { eapply Rle_trans; [ | exact Hlo].
        apply Rmult_le_reg_r with (1055 / 1000); [lra | ].
        replace ((40449936 / 1000000000 - 1 / 10000000 + 55 / 1000)
                 / (1055 / 1000) * (1055 / 1000))
          with (40449936 / 1000000000 - 1 / 10000000 + 55 / 1000) by field.
        lra. }
      lra.
    + rewrite linear_linear_branch_R. lra.
Qed.

End ExactOrder.

Section ExactInverse.
Local Open Scope R_scope.

(** Tighter bounds at the two thresholds. *)
Lemma srgb_power_at_threshold_tight :
  Rpower (9545 / 105500) (INR 12 / INR 5) <= 4045 / 1292000 + 3 / 1000000000.
Proof. apply Rpower_ratio_upper; try lra; try lia. Qed.

Lemma linear_power_at_threshold_tight :
  (40449906 / 1000000000 + 55 / 1000) / (1055 / 1000)
  <= Rpower (31308 / 10000000) (INR 5 / INR 12).
Proof. apply Rpower_ratio_lower; try lra; try lia. Qed.

Lemma linear_power_above_threshold :
  Rpower (3130801 / 1000000000) (INR 5 / INR 12)
  < (40449936 / 1000000000 + 55 / 1000) / (1055 / 1000).
Proof. apply Rpower_ratio_upper_strict; try lra; try lia. Qed.

(** X12.  [linear_to_srgb] is strictly increasing below its threshold 0.0031308
    and strictly increasing above it, but not across it: the linear branch
    ends at 0.040449936 and the power branch starts lower, so the value at
    0.003130801 is below the value at 0.0031308. *)
Theorem linear_to_srgb_order :
  (forall x y, x < y -> y <= 31308 / 10000000 ->
     linear_to_srgb_elt R_scalar x < linear_to_srgb_elt R_scalar y)
  /\ (forall x y, 31308 / 10000000 < x -> x < y ->
        linear_to_srgb_elt R_scalar x < linear_to_srgb_elt R_scalar y)
  /\ linear_to_srgb_elt R_scalar (3130801 / 1000000000)
     < linear_to_srgb_elt R_scalar (31308 / 10000000).
Proof.
  split; [ | split].
  - intros x y Hxy Hy. rewrite !linear_to_srgb_elt_R.
    destruct (Rlt_dec _ x); [lra | ]. destruct (Rlt_dec _ y); [lra | ].
    rewrite !linear_linear_branch_R. lra.
  - intros x y Hx Hxy. rewrite !linear_to_srgb_elt_R.
    destruct (Rlt_dec _ x); [ | lra]. destruct (Rlt_dec _ y); [ | lra].
    rewrite !linear_power_branch_R by lra.
    assert (H : Rpower x (INR 5 / INR 12) < Rpower y (INR 5 / INR 12)).
    { apply Rlt_Rpower_l; [simpl; lra | lra]. }
    lra.
  - rewrite !linear_to_srgb_elt_R.
    destruct (Rlt_dec _ (3130801 / 1000000000)); [ | lra].
    destruct (Rlt_dec _ (31308 / 10000000)); [lra | ].
    rewrite linear_power_branch_R, linear_linear_branch_R by lra.
    pose proof linear_power_above_threshold as H.
    apply Rmult_lt_compat_r with (r := 1055 / 1000) in H; [ | lra].
    replace ((40449936 / 1000000000 + 55 / 1000) / (1055 / 1000) * (1055 / 1000))
      with (40449936 / 1000000000 + 55 / 1000) in H by field.
    lra.
Qed.

(** X13.  The round trip the other way, [srgb_to_linear(linear_to_srgb(y))], gives
    [y] back exactly for [y] up to the threshold 0.0031308 and to within
    2e-8 for every [y]: the only error comes from the gap between the
    thresholds of the two functions. *)
Theorem linear_round_trip :
  (forall y, y <= 31308 / 10000000 ->
     srgb_to_linear_elt R_scalar (linear_to_srgb_elt R_scalar y) = y)
  /\ (forall y,
        Rabs (srgb_to_linear_elt R_scalar (linear_to_srgb_elt R_scalar y) - y)
        <= 2 / 100000000).
Proof.
  assert (Hbelow : forall y, y <= 31308 / 10000000 ->
            srgb_to_linear_elt R_scalar (linear_to_srgb_elt R_scalar y) = y).
  { intros y Hy. rewrite linear_to_srgb_elt_R.
    destruct (Rlt_dec _ y); [lra | ].
    rewrite linear_linear_branch_R, srgb_to_linear_elt_R.
    destruct (Rlt_dec _ _); [lra | ].
    rewrite srgb_linear_branch_R. field. }
  split; [exact Hbelow | ].
  intros y. destruct (Rle_lt_dec y (31308 / 10000000)) as [Hy | Hy].
  - rewrite Hbelow by assumption.
    replace (y - y) with 0 by ring. rewrite Rabs_R0. lra.
  - rewrite linear_to_srgb_elt_R.
    destruct (Rlt_dec _ y) as [_ | ]; [ | contradiction].
    rewrite linear_power_branch_R by lra.
    set (P := Rpower y (INR 5 / INR 12)).
    assert (HP : Rpower P (INR 12 / INR 5) = y).
    { unfold P. rewrite Rpower_mult.
      replace (INR 5 / INR 12 * (INR 12 / INR 5)) with 1 by (simpl; lra).
      apply Rpower_1. lra. }
    assert (HPL : (40449906 / 1000000000 + 55 / 1000) / (1055 / 1000) <= P).
    { eapply Rle_trans; [apply linear_power_at_threshold_tight | ].
      unfold P. apply Rle_Rpower_l; [simpl; lra | lra]. }
    assert (HPL' : 40449906 / 1000000000 + 55 / 1000 <= 1055 / 1000 * P).
    { apply Rmult_le_compat_l with (r := 1055 / 1000) in HPL; [ | lra].
      replace (1055 / 1000 * ((40449906 / 1000000000 + 55 / 1000) / (1055 / 1000)))
        with (40449906 / 1000000000 + 55 / 1000) in HPL by field.
      exact HPL. }
    rewrite srgb_to_linear_elt_R.
    destruct (Rlt_dec _ _) as [Hs | Hs].
    + rewrite srgb_power_branch_R by lra.
      replace ((1055 / 1000 * P - 55 / 1000 + 55 / 1000) / (1055 / 1000))
        with P by field.
      rewrite HP. replace (y - y) with 0 by ring. rewrite Rabs_R0. lra.
    + rewrite srgb_linear_branch_R.
      assert (HPU : P <= 9545 / 105500) by lra.
      assert (HyU : y <= 4045 / 1292000 + 3 / 1000000000).
      { rewrite <- HP.
        eapply Rle_trans; [ | apply srgb_power_at_threshold_tight].
        apply Rle_Rpower_l; [simpl; lra | lra]. }
      apply Rabs_le. lra.
Qed.

End ExactInverse.

(** ** [mse2psnr] *)

Section Psnr.
Local Open Scope R_scope.

Lemma ln_10_pos : 0 < ln 10.
Proof. rewrite <- ln_1. apply ln_increasing; lra. Qed.

(** X23.  [mse2psnr] is the decibel scale: an error of 1 is 0 dB, the value of a
    product is the sum of the values, and a tenth of the error is 10 dB
    more. *)
Theorem mse2psnr_decibels :
  mse2psnr 1 = 0
  /\ (forall x y, 0 < x -> 0 < y -> mse2psnr (x * y) = mse2psnr x + mse2psnr y)
  /\ (forall x, 0 < x -> mse2psnr (x / 10) = mse2psnr x + 10).
Proof.
  pose proof ln_10_pos as H10.
  assert (Hmul : forall x y, 0 < x -> 0 < y ->
            mse2psnr (x * y) = mse2psnr x + mse2psnr y).
  { intros x y Hx Hy. unfold mse2psnr. rewrite ln_mult by assumption.
    field. lra. }
  split; [ | split].
  - unfold mse2psnr. rewrite ln_1. field. lra.
  - exact Hmul.
  - intros x Hx. unfold Rdiv at 1. rewrite Hmul by lra.
    f_equal. unfold mse2psnr. rewrite ln_Rinv by lra. field. lra.
Qed.

(** X24.  A smaller error has a larger PSNR. *)
Theorem mse2psnr_decreasing (x y : R) :
  0 < x -> x < y -> mse2psnr y < mse2psnr x.
Proof.
  intros Hx Hxy. pose proof ln_10_pos as H10.
  assert (Hln : ln x < ln y) by (apply ln_increasing; lra).
  unfold mse2psnr, Rdiv.
  apply Rmult_lt_compat_r; [now apply Rinv_0_lt_compat | lra].
Qed.

End Psnr.

(** ** [rgb_mean] *)

Section ChannelMean.
Local Open Scope R_scope.

Lemma sum_bounds (lo hi : R) (l : list R) :
  Forall (fun x => lo <= x <= hi) l ->
  INR (length l) * lo <= fold_right Rplus 0 l <= INR (length l) * hi.
Proof.
  intros H. induction H as [ | x l Hx _ IH].
  - simpl. lra.
  - change (length (x :: l)) with (Datatypes.S (length l)).
    cbn [fold_right]. rewrite S_INR. lra.
Qed.

Lemma mean_list_bounds (lo hi : R) (l : list R) :
  l <> [] -> Forall (fun x => lo <= x <= hi) l ->
  lo <= mean_list R_scalar l <= hi.
Proof.
  intros Hne H. unfold mean_list. rewrite np_sum_R.
  cbn [s_div s_of_count R_scalar].
  pose proof (sum_bounds lo hi l H) as Hs.
  assert (Hn : 0 < INR (length l)).
  { apply lt_0_INR. destruct l; [contradiction | simpl; lia]. }
  set (n := INR (length l)) in *. set (s := fold_right Rplus 0 l) in *.
  split.
  - apply Rmult_le_reg_r with n; [lra | ].
    replace (s / n * n) with s by (field; lra). lra.
  - apply Rmult_le_reg_r with n; [lra | ].
    replace (s / n * n) with s by (field; lra). lra.
Qed.

(** X25.  In exact arithmetic the channel mean of a well-formed array with at
    least three dimensions and a non-empty third one lies, element by
    element, between the bounds of the array; the third dimension is
    gone from the shape. *)
Theorem rgb_mean_bounds (img : ndarray R) (d0 d1 d2 : nat) (rest : list nat)
    (lo hi : R) :
  shape img = d0 :: d1 :: d2 :: rest ->
  (0 < d2)%nat ->
  wf_array img ->
  Forall (fun x => lo <= x <= hi) (data img) ->
  exists m,
    rgb_mean R_scalar img = Ok m
    /\ shape m = d0 :: d1 :: rest
    /\ wf_array m
    /\ Forall (fun x => lo <= x <= hi) (data m).
Proof.
  intros Hs Hd2 Hwf Hall. unfold rgb_mean. rewrite Hs.
  eexists. split; [reflexivity | ]. cbn [shape data].
  split; [reflexivity | ].
  unfold wf_array in *. rewrite Hs in Hwf. cbn [size_of fold_right] in Hwf.
  fold (size_of rest) in Hwf. set (r := size_of rest) in *.
  split.
  - cbn [shape data size_of fold_right]. fold (size_of rest). fold r.
    rewrite length_map, length_seq. lia.
  - apply Forall_forall. intros y Hy.
    apply in_map_iff in Hy. destruct Hy as [i [<- Hi]].
    apply in_seq in Hi.
    assert (Hr : (0 < r)%nat) by (destruct r; [lia | lia]).
    apply mean_list_bounds.
    + destruct d2; [lia | discriminate].
    + apply Forall_forall. intros z Hz.
      apply in_map_iff in Hz. destruct Hz as [k [<- Hk]].
      apply in_seq in Hk.
      rewrite Forall_forall in Hall. apply Hall. apply nth_In.
      rewrite Hwf.
      pose proof (Nat.Div0.div_lt_upper_bound i r (d0 * d1)) as Hp.
      pose proof (Nat.mod_upper_bound i r ltac:(lia)) as Hq.
      assert (Hp' : (i / r < d0 * d1)%nat) by (apply Hp; lia).
      nia.
Qed.

End ChannelMean.

(** ** [write_image_gamma] *)

Section GammaFacts.
Variable powf : spec_float -> spec_float -> spec_float.
Variable cd : codecs.
Variable np_power_scalar : ndarray spec_float -> spec_float -> ndarray spec_float.

(** X21.  For an [.exr] path the gamma is never looked at: [write_image_gamma]
    does what [write_image] does, also for a gamma of 0. *)
Theorem write_image_gamma_exr (file : string) (img : ndarray spec_float)
    (gamma : spec_float) (quality : Z) (fs : filesystem) :
  splitext_ext file = ".exr"%string ->
  write_image_gamma powf cd np_power_scalar file img gamma quality fs
  = (lift (fst (write_image powf cd file img quality fs)),
     snd (write_image powf cd file img quality fs)).
Proof.
  intros Hext. unfold write_image_gamma, write_image. rewrite Hext.
  cbn [String.eqb Ascii.eqb Bool.eqb].
  destruct (exr_write cd img); reflexivity.
Qed.

(** X22.  For every other path a gamma of 0 (of either sign) raises
    [ZeroDivisionError] before the image is converted, and no file is
    written. *)
Theorem write_image_gamma_zero (file : string) (img : ndarray spec_float)
    (gamma : spec_float) (quality : Z) (fs : filesystem) :
  splitext_ext file <> ".exr"%string ->
  SF_is_zero gamma = true ->
  write_image_gamma powf cd np_power_scalar file img gamma quality fs
  = (Fail (ZeroDivisionError "float division by zero"), fs).
Proof.
  intros Hext Hz. unfold write_image_gamma.
  destruct (String.eqb_spec (splitext_ext file) ".exr"); [contradiction | ].
  destruct gamma as [s | s | | s m e]; try discriminate.
  destruct s; reflexivity.
Qed.

End GammaFacts.

(** ** [sanitize_path] *)

Section Paths.

Lemma relative_to_app (root rel : list string) :
  relative_to (root ++ rel) root = Some rel.
Proof.
  induction root as [ | r root IH]; simpl.
  - now destruct rel.
  - now rewrite String.eqb_refl.
Qed.

Lemma relative_to_Some (path root rel : list string) :
  relative_to path root = Some rel -> path = root ++ rel.
Proof.
  revert path. induction root as [ | r root IH]; intros path H.
  - destruct path; simpl in H; simpl; congruence.
  - destruct path as [ | p path]; simpl in H; [discriminate | ].
    destruct (String.eqb_spec p r) as [-> | ]; [ | discriminate].
    simpl. f_equal. now apply IH.
Qed.

(** X26.  [sanitize_path] succeeds exactly on the paths below [ROOT_DIR],
    compared component by component (a sibling directory whose name merely
    starts like the root's is not below it).  The result is the rest of the
    path with ["/"] between the components, ["."] for [ROOT_DIR] itself;
    every other path raises [ValueError]. *)
Theorem sanitize_path_below_root (ROOT_DIR : list string) :
  (forall rel, sanitize_path ROOT_DIR (ROOT_DIR ++ rel) = Ok (posix_str rel))
  /\ sanitize_path ROOT_DIR ROOT_DIR = Ok "."%string
  /\ (forall path s, sanitize_path ROOT_DIR path = Ok s ->
        exists rel, path = ROOT_DIR ++ rel /\ s = posix_str rel)
  /\ (forall path, (forall rel, path <> ROOT_DIR ++ rel) ->
        sanitize_path ROOT_DIR path
        = Raise (ValueError "path is not in the subpath of ROOT_DIR")).
Proof.
  assert (H1 : forall rel,
            sanitize_path ROOT_DIR (ROOT_DIR ++ rel) = Ok (posix_str rel)).
  { intros rel. unfold sanitize_path. now rewrite relative_to_app. }
  split; [exact H1 | split; [ | split]].
  - rewrite <- (app_nil_r ROOT_DIR) at 2. apply H1.
  - intros path s H. unfold sanitize_path in H.
    destruct (relative_to path ROOT_DIR) as [rel | ] eqn:E; [ | discriminate].
    exists rel. split; [now apply relative_to_Some | now injection H].
  - intros path H. unfold sanitize_path.
    destruct (relative_to path ROOT_DIR) as [rel | ] eqn:E; [ | reflexivity].
    apply relative_to_Some in E. now apply H in E.
Qed.

End Paths.

(** ** What [luminance] and [SSIM] look at *)

Section Alpha.
Variable T : Type.
Variable S : Scalar T.

Lemma channel_agree (f : T -> T) (a b : ndarray T) (hh w ca cb i : nat) :
  shape a = [hh; w; ca] -> shape b = [hh; w; cb] ->
  i < ca -> i < cb ->
  length (data a) = hh * w * ca -> length (data b) = hh * w * cb ->
  (forall p, p < hh * w ->
     nth (p * ca + i) (data a) (zero S) = nth (p * cb + i) (data b) (zero S)) ->
  channel S (np_map f a) i = channel S (np_map f b) i.
Proof.
  intros Ha Hb Hia Hib Hla Hlb Hag. unfold channel, np_map. cbn [shape data].
  rewrite Ha, Hb.
  destruct (Nat.ltb_spec i ca); [ | lia]. destruct (Nat.ltb_spec i cb); [ | lia].
  f_equal. f_equal. apply map_ext_in. intros p Hp. apply in_seq in Hp.
  rewrite (nth_indep _ (zero S) (f (zero S)))
    by (rewrite length_map, Hla; nia).
  rewrite (nth_indep (map f (data b)) (zero S) (f (zero S)))
    by (rewrite length_map, Hlb; nia).
  rewrite !map_nth. f_equal. apply Hag. lia.
Qed.

(** X10.  Only the first three channels of an image count: two well-formed images
    of one height and width that agree on channels 0, 1 and 2 (an RGB image
    and the same image with an alpha channel, say) have the same luminance,
    and [SSIM] does not tell them apart in either argument. *)
Theorem ssim_ignores_alpha (a a' b : ndarray T) (hh w c c' : nat) :
  shape a = [hh; w; c] -> shape a' = [hh; w; c'] ->
  3 <= c -> 3 <= c' ->
  length (data a) = hh * w * c -> length (data a') = hh * w * c' ->
  (forall p i, p < hh * w -> i < 3 ->
     nth (p * c + i) (data a) (zero S) = nth (p * c' + i) (data a') (zero S)) ->
  luminance S a = luminance S a'
  /\ SSIM S a b = SSIM S a' b
  /\ SSIM S b a = SSIM S b a'.
Proof.
  intros Ha Ha' Hc Hc' Hl Hl' Hag.
  assert (Hlum : luminance S a = luminance S a').
  { unfold luminance. cbv zeta.
    rewrite (channel_agree _ a a' hh w c c' 0) by (auto; try lia; intros; apply Hag; lia).
    rewrite (channel_agree _ a a' hh w c c' 1) by (auto; try lia; intros; apply Hag; lia).
    rewrite (channel_agree _ a a' hh w c c' 2) by (auto; try lia; intros; apply Hag; lia).
    reflexivity. }
  split; [exact Hlum | ].
  unfold SSIM. now rewrite Hlum.
Qed.

End Alpha.

(** ** The range of [SSIM] in exact arithmetic *)

Section ExactRange.
Local Open Scope R_scope.

Lemma nth_tab_lin3 (al be ga : R) (f g k : nat -> R) (n j : nat) :
  nth j (map (fun i => al * f i + be * g i + ga * k i) (seq 0 n)) 0
  = al * nth j (map f (seq 0 n)) 0 + be * nth j (map g (seq 0 n)) 0
    + ga * nth j (map k (seq 0 n)) 0.
Proof. rewrite !nth_tab. destruct (j <? n)%nat; ring. Qed.

(** Each pass of the blur is linear and keeps non-negative data
    non-negative. *)
Lemma convolve_axis0_lin3 (hh w : nat) (al be ga : R) (d d1 d2 d3 : list R) :
  (forall i, nth i d 0 = al * nth i d1 0 + be * nth i d2 0 + ga * nth i d3 0) ->
  forall j,
    nth j (convolve_axis0 R_scalar hh w (blur_kernel R_scalar) d) 0
    = al * nth j (convolve_axis0 R_scalar hh w (blur_kernel R_scalar) d1) 0
      + be * nth j (convolve_axis0 R_scalar hh w (blur_kernel R_scalar) d2) 0
      + ga * nth j (convolve_axis0 R_scalar hh w (blur_kernel R_scalar) d3) 0.
Proof.
  intros H j. unfold convolve_axis0. rewrite !nth_tab.
  destruct (j <? hh * w)%nat; [ | ring].
  rewrite !correlate_blur, zero_R, !(H _). ring.
Qed.

Lemma convolve_axis1_lin3 (hh w : nat) (al be ga : R) (d d1 d2 d3 : list R) :
  (forall i, nth i d 0 = al * nth i d1 0 + be * nth i d2 0 + ga * nth i d3 0) ->
  forall j,
    nth j (convolve_axis1 R_scalar hh w (blur_kernel R_scalar) d) 0
    = al * nth j (convolve_axis1 R_scalar hh w (blur_kernel R_scalar) d1) 0
      + be * nth j (convolve_axis1 R_scalar hh w (blur_kernel R_scalar) d2) 0
      + ga * nth j (convolve_axis1 R_scalar hh w (blur_kernel R_scalar) d3) 0.
Proof.
  intros H j. unfold convolve_axis1. rewrite !nth_tab.
  destruct (j <? hh * w)%nat; [ | ring].
  rewrite !correlate_blur, zero_R, !(H _). ring.
Qed.

Lemma convolve_axis0_nonneg (hh w : nat) (d : list R) :
  (forall i, 0 <= nth i d 0) ->
  forall j, 0 <= nth j (convolve_axis0 R_scalar hh w (blur_kernel R_scalar) d) 0.
Proof.
  intros H j. unfold convolve_axis0. rewrite nth_tab.
  destruct (j <? hh * w)%nat; [ | lra].
  rewrite correlate_blur, zero_R.
  repeat match goal with
         | |- context [nth ?i d 0] =>
             let x := fresh "x" in let Hx := fresh "Hx" in
             pose proof (H i) as Hx; set (x := nth i d 0) in *; clearbody x
         end.
  lra.
Qed.

Lemma convolve_axis1_nonneg (hh w : nat) (d : list R) :
  (forall i, 0 <= nth i d 0) ->
  forall j, 0 <= nth j (convolve_axis1 R_scalar hh w (blur_kernel R_scalar) d) 0.
Proof.
  intros H j. unfold convolve_axis1. rewrite nth_tab.
  destruct (j <? hh * w)%nat; [ | lra].
  rewrite correlate_blur, zero_R.
  repeat match goal with
         | |- context [nth ?i d 0] =>
             let x := fresh "x" in let Hx := fresh "Hx" in
             pose proof (H i) as Hx; set (x := nth i d 0) in *; clearbody x
         end.
  lra.
Qed.

Lemma div_bounds (n d : R) :
  0 < d -> (0 < n -> 0 < n / d) /\ (n <= d -> n / d <= 1) /\ (- d < n -> -1 < n / d).
Proof.
  intros Hd. assert (Hi : 0 < / d) by now apply Rinv_0_lt_compat.
  assert (Hdi : d * / d = 1) by (apply Rinv_r; lra).
  unfold Rdiv. repeat split; intros H; nra.
Qed.

(** One pixel: the two factors of the index lie in (0, 1] and (-1, 1]. *)
Lemma ssim_pixel_range (m m' A B C : R) :
  0 <= m -> 0 <= m' -> m * m <= A -> m' * m' <= B ->
  (m - m') * (m - m') <= A - 2 * C + B ->
  (m + m') * (m + m') <= A + 2 * C + B ->
  let c1 := s_of_py R_scalar (PySquare (PyLit 1 2)) in
  let c2 := s_of_py R_scalar (PySquare (PyLit 3 2)) in
  -1 < ((lit R_scalar 2 0 * m * m' + c1) / (m * m + m' * m' + c1))
       * ((lit R_scalar 2 0 * (C - m * m') + c2)
          / ((A - m * m) + (B - m' * m') + c2)) <= 1.
Proof.
  intros Hm Hm' HA HB Hminus Hplus. cbn zeta.
  unfold lit. cbn [s_of_py R_scalar py_real]. simpl pow.
  replace (IZR 2 / 1) with 2 by lra.
  set (c1 := 1 / (10 * (10 * 1)) * (1 / (10 * (10 * 1)))).
  set (c2 := 3 / (10 * (10 * 1)) * (3 / (10 * (10 * 1)))).
  assert (Hc1 : 0 < c1) by (unfold c1; lra).
  assert (Hc2 : 0 < c2) by (unfold c2; lra).
  pose proof (Rle_0_sqr (m - m')) as Hsq. unfold Rsqr in Hsq.
  assert (Hmm : 0 <= m * m') by now apply Rmult_le_pos.
  set (n1 := 2 * m * m' + c1). set (d1 := m * m + m' * m' + c1).
  set (n2 := 2 * (C - m * m') + c2).
  set (d2 := A - m * m + (B - m' * m') + c2).
  assert (Hd1 : 0 < d1) by (unfold d1; nra).
  assert (Hd2 : 0 < d2) by (unfold d2; lra).
  destruct (div_bounds n1 d1 Hd1) as [P1 [P2 _]].
  destruct (div_bounds n2 d2 Hd2) as [_ [Q2 Q3]].
  assert (H1 : 0 < n1 / d1 <= 1).
  { split; [apply P1; unfold n1; lra | apply P2; unfold n1, d1; lra]. }
  assert (H2 : -1 < n2 / d2 <= 1).
  { split; [apply Q3; unfold n2, d2; lra | apply Q2; unfold n2, d2; lra]. }
  set (p1 := n1 / d1) in *. set (p2 := n2 / d2) in *. nra.
Qed.

Lemma luminance_power_nonneg (x : R) :
  0 <= s_pow R_scalar (maximum R_scalar (zero R_scalar) x)
         (lit R_scalar 4545454545 10).
Proof.
  cbn [s_pow R_scalar]. unfold R_pow.
  destruct (Req_dec_T _ 0); [lra | ]. left. apply exp_pos.
Qed.

Lemma channel_Forall (P : R -> Prop) (a r : ndarray R) (i : nat) :
  P (zero R_scalar) -> Forall P (data a) ->
  channel R_scalar a i = Ok r -> Forall P (data r).
Proof.
  intros H0 Ha. unfold channel.
  destruct (shape a) as [ | h [ | w [ | c [ | ? ?]]]]; try discriminate.
  destruct (i <? c)%nat; [ | discriminate].
  intros [= <-]. cbn [data]. apply Forall_forall. intros y Hy.
  apply in_map_iff in Hy. destruct Hy as [p [<- _]].
  change (0 / 1) with (zero R_scalar).
  destruct (nth_in_or_default (p * c + i) (data a) (zero R_scalar)) as [Hin | ->];
    [ | exact H0].
  rewrite Forall_forall in Ha. now apply Ha.
Qed.

Lemma weight_nonneg (m : Z) (k : nat) (a : ndarray R) :
  (0 <= m)%Z -> Forall (fun x => 0 <= x) (data a) ->
  Forall (fun x => 0 <= x) (data (np_map (s_mul R_scalar (lit R_scalar m k)) a)).
Proof.
  intros Hm. apply np_map_Forall. intros x Hx.
  cbn [s_mul R_scalar]. apply Rmult_le_pos; [ | exact Hx].
  unfold lit. cbn [s_of_py R_scalar py_real].
  apply Rmult_le_pos; [now apply IZR_le | ].
  left. apply Rinv_0_lt_compat, pow_lt. lra.
Qed.

Lemma luminance_nonneg (a : ndarray R) (hh w c : nat) :
  shape a = [hh; w; c] -> (3 <= c)%nat ->
  exists L, luminance R_scalar a = Ok {| shape := [hh; w]; data := L |}
            /\ length L = (hh * w)%nat
            /\ forall p, 0 <= nth p L 0.
Proof.
  intros Hs Hc.
  destruct (luminance_shape a hh w c Hs Hc) as [L [Hlum HL]].
  exists L. split; [exact Hlum | split; [exact HL | ]].
  assert (Hall : Forall (fun x => 0 <= x) L).
  { pose proof Hlum as H. unfold luminance in H. cbv zeta in H.
    set (a' := np_map _ a) in H.
    assert (Ha' : Forall (fun x => 0 <= x) (data a')).
    { unfold a'. apply np_map_Forall with (P := fun _ => True).
      - intros x _. apply luminance_power_nonneg.
      - apply Forall_forall. auto. }
    assert (H0 : 0 <= zero R_scalar) by (rewrite zero_R; lra).
    apply bind_Ok in H. destruct H as [r [Hr H]].
    apply bind_Ok in H. destruct H as [g [Hg H]].
    apply bind_Ok in H. destruct H as [b [Hb H]].
    apply bind_Ok in H. destruct H as [rg [Hrg H]].
    apply (channel_Forall (fun x => 0 <= x)) in Hr, Hg, Hb; try assumption.
    assert (Hrg' : Forall (fun x => 0 <= x) (data rg)).
    { eapply (np_binop_Forall R R_scalar (fun x => 0 <= x) (fun x => 0 <= x)
                (fun x => 0 <= x)); [ | | | | | exact Hrg];
        try assumption; try (apply weight_nonneg; [lia | assumption]).
      intros x y Hx Hy. cbn [s_add R_scalar]. lra. }
    change L with (data {| shape := [hh; w]; data := L |}).
    eapply (np_binop_Forall R R_scalar (fun x => 0 <= x) (fun x => 0 <= x)
              (fun x => 0 <= x)); [ | | | | | exact H];
      try assumption; try (apply weight_nonneg; [lia | assumption]).
    intros x y Hx Hy. cbn [s_add R_scalar]. lra. }
  intros p. destruct (nth_in_or_default p L 0) as [Hin | ->]; [ | lra].
  rewrite Forall_forall in Hall. now apply Hall.
Qed.

(** X9.  In exact arithmetic every entry of the SSIM map of two images of one
    height and width (three channels or more each) is above -1 and at
    most 1, and the map has the height and width of the images. *)
Theorem ssim_range (a b : ndarray R) (hh w ca cb : nat) :
  shape a = [hh; w; ca] -> shape b = [hh; w; cb] ->
  (3 <= ca)%nat -> (3 <= cb)%nat ->
  exists m,
    SSIM R_scalar a b = Ok m
    /\ shape m = [hh; w]
    /\ length (data m) = (hh * w)%nat
    /\ Forall (fun x => -1 < x <= 1) (data m).
Proof.
  intros Ha Hb Hca Hcb.
  destruct (luminance_nonneg a hh w ca Ha Hca) as [La [Hla [HLa Hpa]]].
  destruct (luminance_nonneg b hh w cb Hb Hcb) as [Lb [Hlb [HLb Hpb]]].
  unfold SSIM. rewrite Hla, Hlb. cbn [bind].
  rewrite (list_tab La (hh * w) HLa), (list_tab Lb (hh * w) HLb).
  set (la := fun p => nth p La 0). set (lb := fun p => nth p Lb 0).
  unfold np_multiply, np_subtract, np_add, np_divide.
  repeat (first [ rewrite blur_data | rewrite binop_data
                | progress (unfold np_square, np_map; cbn [bind shape data]) ]).
  rewrite !map2_tab.
  set (n := (hh * w)%nat).
  set (blr := fun d => convolve_axis1 R_scalar hh w (blur_kernel R_scalar)
                         (convolve_axis0 R_scalar hh w (blur_kernel R_scalar) d)).
  assert (Hblr : forall d, length (blr d) = n)
    by (intros d; unfold blr, convolve_axis1; now rewrite length_map, length_seq).
  repeat match goal with
         | |- context [convolve_axis1 R_scalar hh w ?k
                         (convolve_axis0 R_scalar hh w ?k ?d)] =>
             change (convolve_axis1 R_scalar hh w k
                       (convolve_axis0 R_scalar hh w k d)) with (blr d)
         end.
  set (MA := blr (map la (seq 0 n))).
  set (MB := blr (map lb (seq 0 n))).
  set (BA := blr (map (fun p => s_mul R_scalar (la p) (la p)) (seq 0 n))).
  set (BB := blr (map (fun p => s_mul R_scalar (lb p) (lb p)) (seq 0 n))).
  set (BAB := blr (map (fun p => s_mul R_scalar (la p) (lb p)) (seq 0 n))).
  (* linearity and positivity of the blur *)
  assert (Hlin : forall al be ga (f g k : nat -> R) p,
            nth p (blr (map (fun i => al * f i + be * g i + ga * k i) (seq 0 n))) 0
            = al * nth p (blr (map f (seq 0 n))) 0
              + be * nth p (blr (map g (seq 0 n))) 0
              + ga * nth p (blr (map k (seq 0 n))) 0).
  { intros al be ga f g k p. unfold blr.
    apply convolve_axis1_lin3. apply convolve_axis0_lin3.
    intros i. apply nth_tab_lin3. }
  assert (Hpos : forall (f : nat -> R), (forall i, 0 <= f i) ->
            forall p, 0 <= nth p (blr (map f (seq 0 n))) 0).
  { intros f Hf p. unfold blr.
    apply convolve_axis1_nonneg. apply convolve_axis0_nonneg.
    intros i. rewrite nth_tab. destruct (i <? n)%nat; [apply Hf | lra]. }
  assert (Hext : forall (f g : nat -> R), (forall i, f i = g i) ->
            blr (map f (seq 0 n)) = blr (map g (seq 0 n))).
  { intros f g H. f_equal. apply map_ext. exact H. }
  rewrite (list_tab MA n), (list_tab MB n), (list_tab BA n),
    (list_tab BB n), (list_tab BAB n) by apply Hblr.
  repeat (first [rewrite map2_tab | rewrite map_map]).
  eexists. split; [reflexivity | ]. cbn [shape data].
  split; [reflexivity | ]. split; [now rewrite length_map, length_seq | ].
  apply Forall_forall. intros y Hy.
  apply in_map_iff in Hy. destruct Hy as [p [<- _]].
  cbn [s_add s_sub s_mul s_div R_scalar].
  apply ssim_pixel_range.
  - apply Hpos. intros i. apply Hpa.
  - apply Hpos. intros i. apply Hpb.
  - apply (blur_variance_nonneg hh w la p).
  - apply (blur_variance_nonneg hh w lb p).
  - assert (V : nth p (blr (map (fun i => la i - lb i) (seq 0 n))) 0
                 * nth p (blr (map (fun i => la i - lb i) (seq 0 n))) 0
                 <= nth p (blr (map (fun i => (la i - lb i) * (la i - lb i))
                                    (seq 0 n))) 0)
      by exact (blur_variance_nonneg hh w (fun i => la i - lb i) p).
    rewrite (Hext (fun i => la i - lb i)
                  (fun i => 1 * la i + (-1) * lb i + 0 * la i)) in V
      by (intros i; ring).
    rewrite (Hext (fun i => (la i - lb i) * (la i - lb i))
                  (fun i => 1 * (la i * la i) + (-2) * (la i * lb i)
                            + 1 * (lb i * lb i))) in V
      by (intros i; ring).
    rewrite !Hlin in V. fold MA MB in V.
    change (blr (map (fun i => la i * la i) (seq 0 n))) with BA in V.
    change (blr (map (fun i => lb i * lb i) (seq 0 n))) with BB in V.
    change (blr (map (fun i => la i * lb i) (seq 0 n))) with BAB in V.
    lra.
  - assert (V : nth p (blr (map (fun i => la i + lb i) (seq 0 n))) 0
                 * nth p (blr (map (fun i => la i + lb i) (seq 0 n))) 0
                 <= nth p (blr (map (fun i => (la i + lb i) * (la i + lb i))
                                    (seq 0 n))) 0)
      by exact (blur_variance_nonneg hh w (fun i => la i + lb i) p).
    rewrite (Hext (fun i => la i + lb i)
                  (fun i => 1 * la i + 1 * lb i + 0 * la i)) in V
      by (intros i; ring).
    rewrite (Hext (fun i => (la i + lb i) * (la i + lb i))
                  (fun i => 1 * (la i * la i) + 2 * (la i * lb i)
                            + 1 * (lb i * lb i))) in V
      by (intros i; ring).
    rewrite !Hlin in V. fold MA MB in V.
    change (blr (map (fun i => la i * la i) (seq 0 n))) with BA in V.
    change (blr (map (fun i => lb i * lb i) (seq 0 n))) with BB in V.
    change (blr (map (fun i => la i * lb i) (seq 0 n))) with BAB in V.
    lra.
Qed.

End ExactRange.

(** ** [compute_error] as one mean *)

Section PlainMean.
Local Open Scope R_scope.

Lemma firstn_plus (A : Type) (n m : nat) (l : list A) :
  firstn (n + m) l = firstn n l ++ firstn m (skipn n l).
Proof.
  revert l. induction n as [ | n IH]; intros l; [reflexivity | ].
  destruct l as [ | x l]; simpl; [now rewrite firstn_nil | now rewrite IH].
Qed.

(** The sums of the first [k] chunks of [c] elements add up to the sum of
    the first [k * c] elements. *)
Lemma sum_chunks (c k : nat) (d : list R) :
  fold_right Rplus 0
    (map (fun p => fold_right Rplus 0 (firstn c (skipn (p * c) d))) (seq 0 k))
  = fold_right Rplus 0 (firstn (k * c) d).
Proof.
  induction k as [ | k IH]; [reflexivity | ].
  rewrite seq_S, map_app, sum_app, IH. cbn [map fold_right plus].
  replace (Datatypes.S k * c)%nat with (k * c + c)%nat by lia.
  rewrite firstn_plus, sum_app. lra.
Qed.

Lemma sum_map_div (g : nat -> R) (c : R) (l : list nat) :
  fold_right Rplus 0 (map (fun p => g p / c) l)
  = fold_right Rplus 0 (map g l) / c.
Proof.
  induction l as [ | x l IH]; simpl; [lra | ]. rewrite IH. lra.
Qed.

(** X6.  In exact arithmetic the two-step reduction of [compute_error], over the
    channels and then over the pixels, weighs every entry of a well-formed
    three-dimensional map alike: the result is the sum of all entries over
    their number. *)
Theorem compute_error_is_plain_mean (metric : string) (img ref : loc)
    (h : heap R) (m : ndarray R) (hh w c : nat) :
  fst (compute_error_img R_scalar metric img ref h) = Ok (VArray m) ->
  shape m = [hh; w; c] ->
  (0 < hh * w)%nat -> (0 < c)%nat ->
  length (data m) = (hh * w * c)%nat ->
  fst (compute_error R_scalar metric img ref h)
  = Ok (fold_right Rplus 0 (data m) / INR (hh * w * c)).
Proof.
  intros Hmap Hs Hhw Hc Hlen. unfold compute_error.
  destruct (compute_error_img R_scalar metric img ref h) as [r h1].
  cbn [fst] in *. rewrite Hmap. cbn [bind].
  rewrite zero_nonfinite_R, Hs. f_equal.
  unfold np_mean_axis2. cbn [data]. unfold mean_list.
  rewrite !np_sum_R, length_map, length_seq.
  cbn [s_div s_of_count R_scalar].
  rewrite (map_ext_in _ (fun p => fold_right Rplus 0
                                     (firstn c (skipn (p * c) (data m))) / INR c)).
  - rewrite sum_map_div, sum_chunks, <- Hlen, firstn_all, Hlen.
    rewrite !mult_INR.
    field. repeat split; apply not_0_INR; nia.
  - intros p Hp. apply in_seq in Hp. rewrite np_sum_R.
    rewrite (chunk_length _ (data m) (hh * w) c p) by (assumption || lia).
    reflexivity.
Qed.

End PlainMean.

(** ** The candidate is read through its sanitised copy *)

Section Sanitised.
Variable powf : spec_float -> spec_float -> spec_float.
Local Abbreviation F := (f32_scalar powf).



End Sanitised.

(** * The further properties at concrete inputs *)

Section ConcreteFurther.

Local Abbreviation F := (f32_scalar powf_ref).
Local Abbreviation one := (S754_finite false 8388608 (-23)).
Local Abbreviation half := (S754_finite false 8388608 (-24)).
Local Abbreviation two := (S754_finite false 8388608 (-22)).
Local Abbreviation minus_one := (S754_finite true 8388608 (-23)).

(** A candidate holding NaN is left holding 0. *)
Lemma compute_error_zeroes_nan :
  load (snd (compute_error_img F "MAE" 0 1
               [{| shape := [1; 1; 1]; data := [S754_nan] |};
                {| shape := [1; 1; 1]; data := [half] |}])) 0
  = Some {| shape := [1; 1; 1]; data := [S754_zero false] |}.
Proof.
  exact (proj1 (proj2 (compute_error_writes_img_only spec_float F "MAE" 0 1
                         [{| shape := [1; 1; 1]; data := [S754_nan] |};
                          {| shape := [1; 1; 1]; data := [half] |}]
                         {| shape := [1; 1; 1]; data := [S754_nan] |}
                         eq_refl))).
Defined.

(** Two columns against three. *)
Lemma shape_mismatch_two_three :
  compute_error_img F "MAE" 0 1
    [{| shape := [1; 2; 1]; data := [one; half] |};
     {| shape := [1; 3; 1]; data := [one; half; two] |}]
  = (Raise (ValueError "operands could not be broadcast together"),
     [{| shape := [1; 2; 1]; data := [one; half] |};
      {| shape := [1; 3; 1]; data := [one; half; two] |}]).
Proof.
  apply (shape_mismatch_raises spec_float F "MAE" 0 1
           [{| shape := [1; 2; 1]; data := [one; half] |};
            {| shape := [1; 3; 1]; data := [one; half; two] |}]
           {| shape := [1; 2; 1]; data := [one; half] |}
           {| shape := [1; 3; 1]; data := [one; half; two] |}).
  - reflexivity.
  - reflexivity.
  - reflexivity.
  - left. reflexivity.
Defined.

Lemma ssim_symmetric_one_pixel :
  SSIM R_scalar {| shape := [1; 1; 3]; data := [1; 0; 1]%R |}
                {| shape := [1; 1; 3]; data := [0; 1; 0]%R |}
  = SSIM R_scalar {| shape := [1; 1; 3]; data := [0; 1; 0]%R |}
                  {| shape := [1; 1; 3]; data := [1; 0; 1]%R |}.
Proof.
  apply (ssim_symmetric {| shape := [1; 1; 3]; data := [1; 0; 1]%R |}
           {| shape := [1; 1; 3]; data := [0; 1; 0]%R |} 1 1 3 3).
  - reflexivity.
  - reflexivity.
  - lia.
  - lia.
Defined.

Lemma bin_file_of_one_pixel :
  exists bytes,
    snd (write_image powf_ref no_codecs "a.bin"
           {| shape := [1; 1; 3]; data := [half; one; two] |} 0 empty_fs)
        "a.bin"%string = Some bytes
    /\ length bytes = 8 + 8 * (1 * 1)
    /\ struct_unpack_ii (firstn 8 bytes) = Ok (Z.of_nat 1, Z.of_nat 1).
Proof.
  apply (bin_file_layout powf_ref no_codecs "a.bin" empty_fs
           {| shape := [1; 1; 3]; data := [half; one; two] |} 1 1 3 0).
  - reflexivity.
  - reflexivity.
  - lia.
  - reflexivity.
  - reflexivity.
  - reflexivity.
Defined.

Lemma read_image_of_nothing :
  read_image powf_ref no_codecs "a.png" empty_fs
  = Raise (FileNotFoundError "a.png").
Proof.
  apply (read_image_missing_file powf_ref no_codecs "a.png" empty_fs).
  - discriminate.
  - reflexivity.
Defined.

(** Header (-1, 1) and one pixel of payload. *)
Lemma read_bin_height_minus_one :
  read_image powf_ref no_codecs "a.bin"
    (fun _ => Some [xff; xff; xff; xff; x01; x00; x00; x00;
                    x00; x00; x00; x00; x00; x00; x00; x00]%byte)
  = Ok {| shape := [1; Z.to_nat 1; 4];
          data := map half_to_float32
                    (halves_of_bytes
                       (skipn 8 [xff; xff; xff; xff; x01; x00; x00; x00;
                                 x00; x00; x00; x00; x00; x00; x00; x00]%byte)) |}.
Proof.
  apply (read_bin_infers_height powf_ref no_codecs "a.bin"
           (fun _ => Some [xff; xff; xff; xff; x01; x00; x00; x00;
                           x00; x00; x00; x00; x00; x00; x00; x00]%byte)
           [xff; xff; xff; xff; x01; x00; x00; x00;
            x00; x00; x00; x00; x00; x00; x00; x00]%byte 1 1).
  - reflexivity.
  - reflexivity.
  - reflexivity.
  - lia.
  - reflexivity.
Defined.

(** A decoder that delivers three samples, and an encoder that stores
    nothing. *)
Local Abbreviation three_samples :=
  {| exr_read := fun _ => Raise (CodecError "pyexr is not available");
     exr_write := fun _ => Raise (CodecError "pyexr is not available");
     exr_left := fun _ old => old;
     pil_open := fun _ _ => Ok ([1; 1; 3], [0; 128; 255]%Z);
     pil_save := fun _ _ _ _ => Ok [];
     pil_left := fun _ _ _ _ old => old |}.

Lemma pillow_three_samples :
  exists img,
    read_image_pillow powf_ref three_samples "a.png" (fun _ => Some []) = Ok img
    /\ write_image_pillow powf_ref three_samples "b.png" img 95 empty_fs
       = pillow_save three_samples "b.png" ([1; 1; 3], [0; 128; 255]%Z) 95
           empty_fs
    /\ (forall out,
          pil_save three_samples "b.png"
                   (String.eqb (splitext_ext "b.png") ".jpg")
                   ([1; 1; 3], [0; 128; 255]%Z) 95 = Ok out ->
          write_image_pillow powf_ref three_samples "b.png" img 95 empty_fs
          = (Ok tt, fs_write empty_fs "b.png" out)).
Proof.
  apply (pillow_samples_round_trip powf_ref three_samples "a.png" "b.png"
           (fun _ => Some []) empty_fs [] [1; 1; 3] [0; 128; 255]%Z 95).
  - reflexivity.
  - reflexivity.
  - repeat constructor; lia.
Defined.

(** [trim] of the three values 0.96, 0.25 and 0.56 (in that order) is their
    mean, about 0.59. *)
Lemma trim_of_three_values :
  (exists sorted : list spec_float,
     Permutation sorted [S754_finite false 16131939 (-24);
                         S754_finite false 16611105 (-26);
                         S754_finite false 9413649 (-24)]
     /\ StronglySorted ascending sorted
     /\ trim F {| shape := [1; 1; 3];
                  data := [S754_finite false 16131939 (-24);
                           S754_finite false 16611105 (-26);
                           S754_finite false 9413649 (-24)] |} (PyLit 1 6)
        = Ok (mean_list F sorted))
  /\ trim F {| shape := [1; 1; 3];
               data := [S754_finite false 16131939 (-24);
                        S754_finite false 16611105 (-26);
                        S754_finite false 9413649 (-24)] |} (PyLit 1 6)
     = Ok (S754_finite false 9899455 (-24)).
Proof.
  split.
  - apply (trim_small_is_mean powf_ref
             {| shape := [1; 1; 3];
                data := [S754_finite false 16131939 (-24);
                         S754_finite false 16611105 (-26);
                         S754_finite false 9413649 (-24)] |}).
    vm_compute. reflexivity.
  - vm_compute. reflexivity.
Defined.

Lemma srgb_to_linear_zero_below_one :
  (srgb_to_linear_elt R_scalar 0 < srgb_to_linear_elt R_scalar 1)%R.
Proof. apply (srgb_to_linear_increasing 0 1). lra. Defined.

Lemma mse2psnr_one_above_ten : (mse2psnr 10 < mse2psnr 1)%R.
Proof. apply (mse2psnr_decreasing 1 10); lra. Defined.

Lemma rgb_mean_of_one_pixel :
  exists m,
    rgb_mean R_scalar {| shape := [1; 1; 3]; data := [0; 1; 1]%R |} = Ok m
    /\ shape m = [1; 1]
    /\ wf_array m
    /\ Forall (fun x => 0 <= x <= 1)%R (data m).
Proof.
  apply (rgb_mean_bounds {| shape := [1; 1; 3]; data := [0; 1; 1]%R |}
           1 1 3 [] 0 1).
  - reflexivity.
  - lia.
  - reflexivity.
  - repeat constructor; lra.
Defined.

Lemma gamma_ignored_for_exr :
  write_image_gamma powf_ref no_codecs (fun img _ => img) "a.exr"
    {| shape := [1; 1; 3]; data := [half; one; two] |} (S754_zero false) 95 empty_fs
  = (lift (fst (write_image powf_ref no_codecs "a.exr"
                  {| shape := [1; 1; 3]; data := [half; one; two] |} 95 empty_fs)),
     snd (write_image powf_ref no_codecs "a.exr"
            {| shape := [1; 1; 3]; data := [half; one; two] |} 95 empty_fs)).
Proof.
  apply (write_image_gamma_exr powf_ref no_codecs (fun img _ => img) "a.exr").
  reflexivity.
Defined.

Lemma gamma_zero_for_png :
  write_image_gamma powf_ref no_codecs (fun img _ => img) "a.png"
    {| shape := [1; 1; 3]; data := [half; one; two] |} (S754_zero false) 95 empty_fs
  = (Fail (ZeroDivisionError "float division by zero"), empty_fs).
Proof.
  apply (write_image_gamma_zero powf_ref no_codecs (fun img _ => img) "a.png").
  - discriminate.
  - reflexivity.
Defined.

(** An RGB pixel and the same pixel with an alpha of 0.5. *)
Lemma ssim_of_rgb_and_rgba :
  luminance F {| shape := [1; 1; 3]; data := [one; half; two] |}
  = luminance F {| shape := [1; 1; 4]; data := [one; half; two; half] |}
  /\ SSIM F {| shape := [1; 1; 3]; data := [one; half; two] |}
            {| shape := [1; 1; 3]; data := [half; half; half] |}
     = SSIM F {| shape := [1; 1; 4]; data := [one; half; two; half] |}
              {| shape := [1; 1; 3]; data := [half; half; half] |}
  /\ SSIM F {| shape := [1; 1; 3]; data := [half; half; half] |}
            {| shape := [1; 1; 3]; data := [one; half; two] |}
     = SSIM F {| shape := [1; 1; 3]; data := [half; half; half] |}
              {| shape := [1; 1; 4]; data := [one; half; two; half] |}.
Proof.
  apply (ssim_ignores_alpha spec_float F
           {| shape := [1; 1; 3]; data := [one; half; two] |}
           {| shape := [1; 1; 4]; data := [one; half; two; half] |}
           {| shape := [1; 1; 3]; data := [half; half; half] |} 1 1 3 4).
  - reflexivity.
  - reflexivity.
  - lia.
  - lia.
  - reflexivity.
  - reflexivity.
  - intros p i Hp Hi.
    destruct p as [ | p]; [ | lia].
    destruct i as [ | [ | [ | i]]]; [reflexivity | reflexivity | reflexivity | lia].
Defined.

Lemma ssim_range_one_pixel :
  exists m,
    SSIM R_scalar {| shape := [1; 1; 3]; data := [1; 0; 1]%R |}
                  {| shape := [1; 1; 3]; data := [0; 1; 0]%R |} = Ok m
    /\ shape m = [1; 1]
    /\ length (data m) = 1 * 1
    /\ Forall (fun x => -1 < x <= 1)%R (data m).
Proof.
  apply (ssim_range {| shape := [1; 1; 3]; data := [1; 0; 1]%R |}
           {| shape := [1; 1; 3]; data := [0; 1; 0]%R |} 1 1 3 3).
  - reflexivity.
  - reflexivity.
  - lia.
  - lia.
Defined.



(** The mean absolute error of the two pixels [[1, 2]] and [[3, 4]] against
    zeros: the channel means are 3/2 and 7/2, their mean is 10/4. *)
Lemma compute_error_mean_two_pixels :
  fst (compute_error R_scalar "MAE" 0 1
         [{| shape := [2; 1; 2]; data := [1; 2; 3; 4]%R |};
          {| shape := [2; 1; 2]; data := [0; 0; 0; 0]%R |}])
  = Ok (fold_right Rplus 0%R
          (map (fun x => s_abs R_scalar
                           (s_sub R_scalar (maximum R_scalar x (zero R_scalar)) 0%R))
               [1; 2; 3; 4]%R)
        / INR (2 * 1 * 2))%R
  /\ (fold_right Rplus 0%R
        (map (fun x => s_abs R_scalar
                         (s_sub R_scalar (maximum R_scalar x (zero R_scalar)) 0%R))
             [1; 2; 3; 4]%R)
      / INR (2 * 1 * 2) = 10 / 4)%R.
Proof.
  split.
  - apply (compute_error_is_plain_mean "MAE" 0 1
             [{| shape := [2; 1; 2]; data := [1; 2; 3; 4]%R |};
              {| shape := [2; 1; 2]; data := [0; 0; 0; 0]%R |}]
             {| shape := [2; 1; 2];
                data := map (fun x => s_abs R_scalar
                                        (s_sub R_scalar
                                           (maximum R_scalar x (zero R_scalar)) 0%R))
                            [1; 2; 3; 4]%R |}
             2 1 2).
    + reflexivity.
    + reflexivity.
    + lia.
    + lia.
    + reflexivity.
  - assert (Hm : forall x : R, (0 <= x)%R ->
                  s_abs R_scalar
                    (s_sub R_scalar (maximum R_scalar x (zero R_scalar)) 0%R) = x).
    { intros x Hx. unfold maximum. rewrite zero_R.
      cbn [s_abs s_sub s_le s_isnan R_scalar]. unfold Rleb.
      destruct (Rle_dec 0 x); [ | contradiction].
      cbn [orb]. rewrite Rminus_0_r. now apply Rabs_pos_eq. }
    cbn [map fold_right]. rewrite !Hm by lra.
    change (INR (2 * 1 * 2)) with (INR 4). rewrite (INR_IZR_INZ 4).
    change (IZR (Z.of_nat 4)) with 4%R. lra.
Defined.

End ConcreteFurther.
